(** * Label export back end: sheet packing, text fit, hole plan, path tracing

    A shallow embedding of the TypeScript sources

      - [lib/dxf.ts], the drawing export (in [benchmark.ts], from the import
        of [DxfWriter] on): packer, text fit, holes, file names;
      - [lib/pdf.ts], the document export (in [benchmark.ts], from the import
        of [PDFDocument] on): its own copy of the packer, an inlined text
        fit, holes, file names;
      - [lib/trace.ts], the tracer (the file that imports [potrace]): path
        parser, curve flattener, path walker;

    together with the properties of them that the specification states.

    Numbers.  The label and sheet data reach the exports as JSON numbers, so
    they are finite.  The embedding of the sources models them by exact
    rationals [Q] and computes exactly; what is proved of it are counts,
    orders, names, the expressions that the code evaluates, and bounds that
    rounding keeps.  Where a property depends on rounding, for the places
    of the labels and for the text fit, the part on machine arithmetic has
    copies of the definitions that round every operation to binary64, and
    the property is proved of them.  Overflow and the sign of zero are not
    part of either model.  JavaScript's
    [===], [<=], [<] and [>] on such numbers are [Qeq_bool], [Qle_bool] and
    [Qlt_bool]; two representations of one rational are the same number, so
    results are compared with [==] rather than with Leibniz equality.  The
    path walker can meet [undefined] and [NaN]; its numbers live in [jsnum]
    below.

    Loops.  A [for ... of] loop over an array is a [fold_left] of its body
    over the list; [push] appends at the end of the list.  A parameter with
    a default value that a claim speaks of is an [option], [None] standing
    for the argument left out. *)

From Stdlib Require Import QArith Qround Qpower Qabs ZArith List String Ascii Bool Arith.
From Stdlib Require Import DecimalString DecimalNat.
From Stdlib Require Import Lia Lqa.
Import ListNotations.

Open Scope Q_scope.

(** ** JavaScript operators on finite numbers *)

(** [a < b] *)
Definition Qlt_bool (a b : Q) : bool := negb (Qle_bool b a).

(** A number is truthy unless it is zero. *)
Definition truthy (a : Q) : bool := negb (Qeq_bool a 0).

(** [a || d] on numbers. *)
Definition orElse (a d : Q) : Q := if truthy a then a else d.

(** [a || d] on strings: the empty string is falsy. *)
Definition orElseStr (a d : string) : string :=
  match a with EmptyString => d | _ => a end.

(** [Math.max(a, b)] *)
Definition Math_max (a b : Q) : Q := if Qle_bool a b then b else a.

(** Number of rounds of [for (let i = 0; i < n; i++)]: the integers
    [0 <= i < n]. *)
Definition roundsBelow (n : Q) : nat := Z.to_nat (Qceiling n).

(** ** Data model shared by [lib/dxf.ts] and [lib/pdf.ts] *)

(** The fields [spacingTopMm] and [spacingLeftMm] of a line are read by no
    function and are left out. *)
Record LabelLine := {
  text : string;
  textSizeMm : Q
}.

Inductive HoleType := circle | square.

Record LabelSetup := {
  name : option string;
  labelLengthMm : Q;
  labelHeightMm : Q;
  labelThicknessMm : Q;
  labelColourBackground : string;
  textColour : string;
  labelQuantity : Q;
  style : string;
  noOfHoles : Q;
  holeSizeMm : Q;
  holeDistanceMm : Q;
  holeType : option HoleType;
  holeLengthMm : option Q;
  holeHeightMm : option Q;
  lines : list LabelLine
}.

Record SheetConfig := {
  width : Q;
  height : Q;
  margin : Q;
  gap : Q
}.

Definition DEFAULT_SHEET : SheetConfig :=
  {| width := 600; height := 300; margin := 0; gap := 0 |}.

(** The first loop of both packers: every setup is pushed
    [labelQuantity || 1] times. *)
Definition expandQuantities (setups : list LabelSetup) : list LabelSetup :=
  flat_map (fun setup => repeat setup (roundsBelow (orElse (labelQuantity setup) 1)))
           setups.

(** ** [lib/dxf.ts]: the packer *)

Module Dxf.

Record PlacedLabel := {
  setup : LabelSetup;
  x : Q;
  y : Q;
  quantity : Q
}.

Record DxfSheet := {
  pageNumber : nat;
  labels : list PlacedLabel
}.

(** The variables of [arrangeLabelsOnSheets] that its main loop updates. *)
Record Cursor := {
  sheets : list DxfSheet;
  currentSheet : DxfSheet;
  currentX : Q;
  currentY : Q;
  rowHeight : Q
}.

Definition start (sheet : SheetConfig) : Cursor :=
  {| sheets := [];
     currentSheet := {| pageNumber := 1; labels := [] |};
     currentX := margin sheet;
     currentY := height sheet - margin sheet;
     rowHeight := 0 |}.

(** [if (rowHeight === 0) rowHeight = labelHeight] *)
Definition seedRow (labelHeight : Q) (c : Cursor) : Cursor :=
  if Qeq_bool (rowHeight c) 0 then
    {| sheets := sheets c; currentSheet := currentSheet c;
       currentX := currentX c; currentY := currentY c;
       rowHeight := labelHeight |}
  else c.

(** The row wrap. *)
Definition wrapRow (sheet : SheetConfig) (labelWidth labelHeight : Q)
    (c : Cursor) : Cursor :=
  if Qlt_bool (width sheet - margin sheet) (currentX c + labelWidth) then
    {| sheets := sheets c; currentSheet := currentSheet c;
       currentX := margin sheet;
       currentY := currentY c - (rowHeight c + gap sheet);
       rowHeight := labelHeight |}
  else c.

(** The sheet overflow: the sheet in hand is pushed unless it is empty. *)
Definition newSheet (sheet : SheetConfig) (labelHeight : Q) (c : Cursor) : Cursor :=
  if Qlt_bool (currentY c - labelHeight) (margin sheet) then
    let sheets' :=
      match labels (currentSheet c) with
      | [] => sheets c
      | _ :: _ => sheets c ++ [currentSheet c]
      end in
    {| sheets := sheets';
       currentSheet := {| pageNumber := S (List.length sheets'); labels := [] |};
       currentX := margin sheet;
       currentY := height sheet - margin sheet;
       rowHeight := labelHeight |}
  else c.

(** The placement and the advance of the cursor. *)
Definition pushLabel (sheet : SheetConfig) (label : LabelSetup) (c : Cursor) : Cursor :=
  let labelWidth := labelLengthMm label in
  let labelHeight := labelHeightMm label in
  {| sheets := sheets c;
     currentSheet :=
       {| pageNumber := pageNumber (currentSheet c);
          labels := labels (currentSheet c) ++
                    [ {| setup := label; x := currentX c;
                         y := currentY c - labelHeight; quantity := 1 |} ] |};
     currentX := currentX c + (labelWidth + gap sheet);
     currentY := currentY c;
     rowHeight := Math_max (rowHeight c) labelHeight |}.

(** One round of the main loop.  The [console.warn] for a label larger than
    the usable area writes to the log only and is left out. *)
Definition place (sheet : SheetConfig) (c : Cursor) (label : LabelSetup) : Cursor :=
  let labelWidth := labelLengthMm label in
  let labelHeight := labelHeightMm label in
  pushLabel sheet label
    (newSheet sheet labelHeight
       (wrapRow sheet labelWidth labelHeight
          (seedRow labelHeight c))).

(** The final push of the sheet in hand. *)
Definition finish (c : Cursor) : list DxfSheet :=
  match labels (currentSheet c) with
  | [] => sheets c
  | _ :: _ => sheets c ++ [currentSheet c]
  end.

(** [sheet] is [DEFAULT_SHEET] when the caller leaves it out. *)
Definition arrangeLabelsOnSheets (setups : list LabelSetup) (sheet : SheetConfig)
    : list DxfSheet :=
  finish (fold_left (place sheet) (expandQuantities setups) (start sheet)).

End Dxf.

(** ** [lib/pdf.ts]: the packer, a copy without page numbers *)

Module Pdf.

Record PlacedLabel := {
  setup : LabelSetup;
  x : Q;
  y : Q
}.

Record Cursor := {
  sheets : list (list PlacedLabel);
  currentSheet : list PlacedLabel;
  currentX : Q;
  currentY : Q;
  rowHeight : Q
}.

Definition start (sheet : SheetConfig) : Cursor :=
  {| sheets := [];
     currentSheet := [];
     currentX := margin sheet;
     currentY := height sheet - margin sheet;
     rowHeight := 0 |}.

Definition seedRow (labelHeight : Q) (c : Cursor) : Cursor :=
  if Qeq_bool (rowHeight c) 0 then
    {| sheets := sheets c; currentSheet := currentSheet c;
       currentX := currentX c; currentY := currentY c;
       rowHeight := labelHeight |}
  else c.

Definition wrapRow (sheet : SheetConfig) (labelWidth labelHeight : Q)
    (c : Cursor) : Cursor :=
  if Qlt_bool (width sheet - margin sheet) (currentX c + labelWidth) then
    {| sheets := sheets c; currentSheet := currentSheet c;
       currentX := margin sheet;
       currentY := currentY c - (rowHeight c + gap sheet);
       rowHeight := labelHeight |}
  else c.

Definition newSheet (sheet : SheetConfig) (labelHeight : Q) (c : Cursor) : Cursor :=
  if Qlt_bool (currentY c - labelHeight) (margin sheet) then
    {| sheets := match currentSheet c with
                 | [] => sheets c
                 | _ :: _ => sheets c ++ [currentSheet c]
                 end;
       currentSheet := [];
       currentX := margin sheet;
       currentY := height sheet - margin sheet;
       rowHeight := labelHeight |}
  else c.

Definition pushLabel (sheet : SheetConfig) (label : LabelSetup) (c : Cursor) : Cursor :=
  let labelWidth := labelLengthMm label in
  let labelHeight := labelHeightMm label in
  {| sheets := sheets c;
     currentSheet := currentSheet c ++
                     [ {| setup := label; x := currentX c;
                          y := currentY c - labelHeight |} ];
     currentX := currentX c + (labelWidth + gap sheet);
     currentY := currentY c;
     rowHeight := Math_max (rowHeight c) labelHeight |}.

Definition place (sheet : SheetConfig) (c : Cursor) (label : LabelSetup) : Cursor :=
  let labelWidth := labelLengthMm label in
  let labelHeight := labelHeightMm label in
  pushLabel sheet label
    (newSheet sheet labelHeight
       (wrapRow sheet labelWidth labelHeight
          (seedRow labelHeight c))).

Definition finish (c : Cursor) : list (list PlacedLabel) :=
  match currentSheet c with
  | [] => sheets c
  | _ :: _ => sheets c ++ [currentSheet c]
  end.

(** [sheet] is the [DEFAULT_SHEET] of this file, the same value, when the
    caller leaves it out. *)
Definition arrangeLabelsOnSheets (setups : list LabelSetup) (sheet : SheetConfig)
    : list (list PlacedLabel) :=
  finish (fold_left (place sheet) (expandQuantities setups) (start sheet)).

End Pdf.

(** ** Strings

    A string is a sequence of 8-bit characters; [String.length] is the
    [.length] of the source.  Characters beyond Latin-1 are outside the
    model. *)

Open Scope string_scope.

(** The characters below 256 that [\s] and [trim] count as white space. *)
Definition isWhiteSpace (c : ascii) : bool :=
  match nat_of_ascii c with
  | 9%nat | 10%nat | 11%nat | 12%nat | 13%nat | 32%nat | 160%nat => true
  | _ => false
  end.

Fixpoint trimStart (s : string) : string :=
  match s with
  | String c r => if isWhiteSpace c then trimStart r else s
  | EmptyString => EmptyString
  end.

Fixpoint trimEnd (s : string) : string :=
  match s with
  | String c r =>
      match trimEnd r with
      | EmptyString => if isWhiteSpace c then EmptyString else String c EmptyString
      | r' => String c r'
      end
  | EmptyString => EmptyString
  end.

(** [s.trim()] *)
Definition trim (s : string) : string := trimEnd (trimStart s).

Definition isEmpty (s : string) : bool :=
  match s with EmptyString => true | _ => false end.

(** [s.split(sep)] for a one-character separator: the pieces between the
    separators, empty pieces included. *)
Fixpoint splitOn (sep : ascii) (s : string) : list string :=
  match s with
  | EmptyString => [EmptyString]
  | String c r =>
      if Ascii.eqb c sep then EmptyString :: splitOn sep r
      else match splitOn sep r with
           | piece :: pieces => String c piece :: pieces
           | [] => [String c EmptyString]
           end
  end.

(** [String(n)] for a page number. *)
Definition natToString (n : nat) : string :=
  DecimalString.NilEmpty.string_of_uint (Nat.to_uint n).

(** [s.padStart(2, "0")] *)
Definition padStart2 (s : string) : string :=
  match String.length s with
  | 0%nat => "00"
  | 1%nat => "0" ++ s
  | _ => s
  end.

(** ** Numbers that need not be finite

    A [number] slot of the path walker, like the result of [parseFloat],
    holds a finite number, an infinity, [NaN], or [undefined] (an optional
    field that the parser did not fill, read through [!]).  Arithmetic on
    [undefined] gives [NaN]; finite arithmetic is exact. *)

Inductive jsnum :=
| Undef
| NaN
| Inf (negative : bool)
| Fin (q : Q).

Definition jsNeg (a : jsnum) : jsnum :=
  match a with
  | Fin q => Fin (- q)
  | Inf s => Inf (negb s)
  | _ => NaN
  end.

Definition jsAdd (a b : jsnum) : jsnum :=
  match a, b with
  | Fin p, Fin q => Fin (p + q)
  | Inf s, Inf t => if Bool.eqb s t then Inf s else NaN
  | Inf s, Fin _ => Inf s
  | Fin _, Inf s => Inf s
  | _, _ => NaN
  end.

Definition jsSub (a b : jsnum) : jsnum := jsAdd a (jsNeg b).

Definition jsMul (a b : jsnum) : jsnum :=
  match a, b with
  | Fin p, Fin q => Fin (p * q)
  | Inf s, Inf t => Inf (xorb s t)
  | Inf s, Fin q => if Qeq_bool q 0 then NaN else Inf (xorb s (Qlt_bool q 0))
  | Fin q, Inf s => if Qeq_bool q 0 then NaN else Inf (xorb s (Qlt_bool q 0))
  | _, _ => NaN
  end.

(** *** [Number(s)] on a string *)

Definition digitValue (base : N) (c : ascii) : option N :=
  let n := N_of_ascii c in
  let v :=
    if (48 <=? n)%N && (n <=? 57)%N then Some (n - 48)%N
    else if (97 <=? n)%N && (n <=? 102)%N then Some (n - 87)%N
    else if (65 <=? n)%N && (n <=? 70)%N then Some (n - 55)%N
    else None in
  match v with
  | Some d => if (d <? base)%N then Some d else None
  | None => None
  end.

(** Reads the longest run of digits: its value, its length, and the rest. *)
Fixpoint readDigits (base : N) (s : string) (value : N) (count : nat)
    : N * nat * string :=
  match s with
  | String c r =>
      match digitValue base c with
      | Some d => readDigits base r (value * base + d)%N (S count)
      | None => (value, count, s)
      end
  | EmptyString => (value, count, s)
  end.

(** The exponent part, which must reach the end of the string. *)
Definition readExponent (s : string) : option Z :=
  match s with
  | EmptyString => Some 0%Z
  | String c r =>
      if Ascii.eqb c "e" || Ascii.eqb c "E" then
        let '(negative, r) :=
          match r with
          | String "+" r' => (false, r')
          | String "-" r' => (true, r')
          | _ => (false, r)
          end in
        match readDigits 10 r 0 0 with
        | (_, O, _) => None
        | (e, _, EmptyString) => Some (if negative then - Z.of_N e else Z.of_N e)%Z
        | _ => None
        end
      else None
  end.

(** An unsigned decimal literal or [Infinity]. *)
Definition unsignedDecimal (s : string) : jsnum :=
  if String.eqb s "Infinity" then Inf false
  else
    let '(ip, ni, r1) := readDigits 10 s 0 0 in
    let '(m, nf, r2) :=
      match r1 with
      | String "." r => readDigits 10 r ip 0
      | _ => (ip, O, r1)
      end in
    match ni, nf with
    | O, O => NaN
    | _, _ =>
        match readExponent r2 with
        | Some e => Fin (inject_Z (Z.of_N m) * Qpower 10 (e - Z.of_nat nf))
        | None => NaN
        end
    end.

(** A literal with a radix prefix: at least one digit, and nothing else. *)
Definition radixLiteral (base : N) (s : string) : jsnum :=
  match readDigits base s 0 0 with
  | (_, O, _) => NaN
  | (v, _, EmptyString) => Fin (inject_Z (Z.of_N v))
  | _ => NaN
  end.

Definition jsNumber (s : string) : jsnum :=
  match trim s with
  | EmptyString => Fin 0
  | String "+" r => unsignedDecimal r
  | String "-" r => jsNeg (unsignedDecimal r)
  | String "0" (String c r) as t =>
      if Ascii.eqb c "x" || Ascii.eqb c "X" then radixLiteral 16 r
      else if Ascii.eqb c "o" || Ascii.eqb c "O" then radixLiteral 8 r
      else if Ascii.eqb c "b" || Ascii.eqb c "B" then radixLiteral 2 r
      else unsignedDecimal t
  | t => unsignedDecimal t
  end.

(** *** [parseFloat(s)]: the longest prefix that is a decimal literal *)

Fixpoint startsWith (prefix s : string) : bool :=
  match prefix, s with
  | EmptyString, _ => true
  | String a p, String b r => Ascii.eqb a b && startsWith p r
  | String _ _, EmptyString => false
  end.

(** An exponent part at the start of [s], or 0 when there is none. *)
Definition prefixExponent (s : string) : Z :=
  match s with
  | String c r =>
      if Ascii.eqb c "e" || Ascii.eqb c "E" then
        let '(negative, r) :=
          match r with
          | String "+" r' => (false, r')
          | String "-" r' => (true, r')
          | _ => (false, r)
          end in
        match readDigits 10 r 0 0 with
        | (_, O, _) => 0%Z
        | (e, _, _) => (if negative then - Z.of_N e else Z.of_N e)%Z
        end
      else 0%Z
  | EmptyString => 0%Z
  end.

Definition prefixDecimal (s : string) : jsnum :=
  if startsWith "Infinity" s then Inf false
  else
    let '(ip, ni, r1) := readDigits 10 s 0 0 in
    let '(m, nf, r2) :=
      match r1 with
      | String "." r => readDigits 10 r ip 0
      | _ => (ip, O, r1)
      end in
    match ni, nf with
    | O, O => NaN
    | _, _ => Fin (inject_Z (Z.of_N m) * Qpower 10 (prefixExponent r2 - Z.of_nat nf))
    end.

Definition parseFloat (s : string) : jsnum :=
  match trimStart s with
  | String "+" r => prefixDecimal r
  | String "-" r => jsNeg (prefixDecimal r)
  | t => prefixDecimal t
  end.

(** ** [lib/dxf.ts]: text fit, holes, file names *)

Module DxfExport.

Definition estimateTextWidth (text : string) (textHeight : Q) : Q :=
  let avgCharWidthRatio := 0.55%Q in
  inject_Z (Z.of_nat (String.length text)) * textHeight * avgCharWidthRatio.

(** [padding] is [None] when the caller leaves it out; its default is 2. *)
Definition calculateFitTextHeight (text : string) (maxWidth desiredHeight : Q)
    (padding : option Q) : Q :=
  let padding := match padding with Some p => p | None => 2 end in
  let availableWidth := maxWidth - (padding * 2) in
  let estimatedWidth := estimateTextWidth text desiredHeight in
  if Qle_bool estimatedWidth availableWidth then desiredHeight
  else
    let scaleFactor := availableWidth / estimatedWidth in
    let newHeight := desiredHeight * scaleFactor in
    Math_max 0.5 newHeight.

(** [line.text && line.text.trim() !== ""] *)
Definition isValidLine (line : LabelLine) : bool :=
  negb (isEmpty (text line)) && negb (isEmpty (trim (text line))).

(** The [lineData] of [generateSheetDxf]: each valid line with its fitted
    height. *)
Definition lineData (setup : LabelSetup) : list (string * Q) :=
  let width := labelLengthMm setup in
  map (fun line =>
         let desiredHeight := orElse (textSizeMm line) 2 in
         let fitHeight :=
           calculateFitTextHeight (text line) width desiredHeight (Some 2%Q) in
         (text line, fitHeight))
      (filter isValidLine (lines setup)).

Definition truthyOpt (a : option Q) : bool :=
  match a with Some q => truthy q | None => false end.

(** [a || b || d] where [a] may be absent. *)
Definition orElseOpt (a : option Q) (b d : Q) : Q :=
  match a with
  | Some q => if truthy q then q else orElse b d
  | None => orElse b d
  end.

(** The guard of the hole block. *)
Definition drawsHoles (setup : LabelSetup) : bool :=
  Qlt_bool 0 (noOfHoles setup) &&
  (Qlt_bool 0 (holeSizeMm setup) ||
   (truthyOpt (holeLengthMm setup) && truthyOpt (holeHeightMm setup))).

(** What one [drawHole(cx, cy)] adds to the drawing: four lines around a
    rectangle with lower-left corner [(hx, hy)], or a circle. *)
Inductive Hole :=
| SquareHole (hx hy holeW holeH : Q)
| CircleHole (cx cy holeRadius : Q).

Definition drawHole (setup : LabelSetup) (c : Q * Q) : Hole :=
  let (cx, cy) := c in
  match holeType setup with
  | Some square =>
      let holeW := orElseOpt (holeLengthMm setup) (holeSizeMm setup) 3 in
      let holeH := orElseOpt (holeHeightMm setup) (holeSizeMm setup) 3 in
      SquareHole (cx - holeW / 2) (cy - holeH / 2) holeW holeH
  | _ => CircleHole cx cy (holeSizeMm setup / 2)
  end.

(** The arguments of the [drawHole] calls of [generateSheetDxf] for a label
    placed at [(x, y)], in call order. *)
Definition holeCentres (setup : LabelSetup) (x y : Q) : list (Q * Q) :=
  let width := labelLengthMm setup in
  let height := labelHeightMm setup in
  if drawsHoles setup then
    let holeDistance := orElse (holeDistanceMm setup) 5 in
    if Qeq_bool (noOfHoles setup) 1 then
      [ (x + holeDistance, y + height / 2) ]
    else if Qeq_bool (noOfHoles setup) 2 then
      [ (x + holeDistance, y + height / 2);
        (x + width - holeDistance, y + height / 2) ]
    else if Qeq_bool (noOfHoles setup) 4 then
      [ (x + holeDistance, y + holeDistance);
        (x + width - holeDistance, y + holeDistance);
        (x + holeDistance, y + height - holeDistance);
        (x + width - holeDistance, y + height - holeDistance) ]
    else
      let spacing := (width - 2 * holeDistance) / (noOfHoles setup - 1) in
      map (fun i => (x + holeDistance + inject_Z (Z.of_nat i) * spacing,
                     y + height / 2))
          (seq 0 (roundsBelow (noOfHoles setup)))
  else [].

Definition holes (p : Dxf.PlacedLabel) : list Hole :=
  map (drawHole (Dxf.setup p))
      (holeCentres (Dxf.setup p) (Dxf.x p) (Dxf.y p)).

End DxfExport.

(** ** [lib/pdf.ts]: inlined text fit and holes *)

Module PdfExport.

Definition MM_TO_PT : Q := 2.83465.

Definition mmToPt (mm : Q) : Q := mm * MM_TO_PT.

Definition isValidLine (line : LabelLine) : bool :=
  negb (isEmpty (text line)) && negb (isEmpty (trim (text line))).

(** The [lineData] of [generateSheetPdf]: the text fit is written out in
    the loop, with its own width ratio. *)
Definition lineData (setup : LabelSetup) : list (string * Q) :=
  let width := labelLengthMm setup in
  let padding := 2%Q in
  map (fun line =>
         let textHeight := orElse (textSizeMm line) 2 in
         let len := inject_Z (Z.of_nat (String.length (text line))) in
         let estimatedWidth := len * textHeight * 0.5 in
         let textHeight :=
           if Qlt_bool (width - padding * 2) estimatedWidth then
             Math_max 0.5 ((width - padding * 2) / (len * 0.5))
           else textHeight in
         (text line, textHeight))
      (filter isValidLine (lines setup)).

Definition truthyOpt (a : option Q) : bool :=
  match a with Some q => truthy q | None => false end.

Definition orElseOpt (a : option Q) (b d : Q) : Q :=
  match a with
  | Some q => if truthy q then q else orElse b d
  | None => orElse b d
  end.

Definition drawsHoles (setup : LabelSetup) : bool :=
  Qlt_bool 0 (noOfHoles setup) &&
  (Qlt_bool 0 (holeSizeMm setup) ||
   (truthyOpt (holeLengthMm setup) && truthyOpt (holeHeightMm setup))).

(** What one [drawHole(cx, cy)] draws on the page, in points. *)
Inductive Hole :=
| Rectangle (x y width height : Q)
| Circle (x y size : Q).

Definition drawHole (setup : LabelSetup) (c : Q * Q) : Hole :=
  let (cx, cy) := c in
  match holeType setup with
  | Some square =>
      let holeW := orElseOpt (holeLengthMm setup) (holeSizeMm setup) 3 in
      let holeH := orElseOpt (holeHeightMm setup) (holeSizeMm setup) 3 in
      let hx := cx - holeW / 2 in
      let hy := cy - holeH / 2 in
      Rectangle (mmToPt hx) (mmToPt hy) (mmToPt holeW) (mmToPt holeH)
  | _ =>
      let holeRadius := holeSizeMm setup / 2 in
      Circle (mmToPt cx) (mmToPt cy) (mmToPt holeRadius)
  end.

(** The arguments of the [drawHole] calls of [generateSheetPdf]. *)
Definition holeCentres (setup : LabelSetup) (x y : Q) : list (Q * Q) :=
  let width := labelLengthMm setup in
  let height := labelHeightMm setup in
  if drawsHoles setup then
    let holeDistance := orElse (holeDistanceMm setup) 5 in
    if Qeq_bool (noOfHoles setup) 1 then
      [ (x + holeDistance, y + height / 2) ]
    else if Qeq_bool (noOfHoles setup) 2 then
      [ (x + holeDistance, y + height / 2);
        (x + width - holeDistance, y + height / 2) ]
    else if Qeq_bool (noOfHoles setup) 4 then
      [ (x + holeDistance, y + holeDistance);
        (x + width - holeDistance, y + holeDistance);
        (x + holeDistance, y + height - holeDistance);
        (x + width - holeDistance, y + height - holeDistance) ]
    else
      let spacing := (width - 2 * holeDistance) / (noOfHoles setup - 1) in
      map (fun i => (x + holeDistance + inject_Z (Z.of_nat i) * spacing,
                     y + height / 2))
          (seq 0 (roundsBelow (noOfHoles setup)))
  else [].

Definition holes (p : Pdf.PlacedLabel) : list Hole :=
  map (drawHole (Pdf.setup p))
      (holeCentres (Pdf.setup p) (Pdf.x p) (Pdf.y p)).

End PdfExport.

(** ** File names ([generateDxfFiles], [generatePdfFiles])

    How a number is printed in a template belongs to the language, not to
    the repository (it is the shortest decimal that reads back as the same
    double); the export functions take it as an interface.
    [numberToString n] is [`${n}`] for a finite [n]. *)

Class NumberText := numberToString : Q -> string.

Section FileNames.

Context `{NumberText}.

(** [`${n}`] for the result of [parseFloat]. *)
Definition templateNumber (n : jsnum) : string :=
  match n with
  | Fin q => numberToString q
  | Inf false => "Infinity"
  | Inf true => "-Infinity"
  | NaN => "NaN"
  | Undef => "undefined"
  end.

(** [getGroupKey], the same text in both files. *)
Definition getGroupKey (setup : LabelSetup) : string :=
  let text := orElseStr (textColour setup) "Black" in
  let bg := orElseStr (labelColourBackground setup) "White" in
  let thickness := orElse (labelThicknessMm setup) 0.8 in
  let style := orElseStr (style setup) "Adhesive" in
  text ++ "|" ++ bg ++ "|" ++ numberToString thickness ++ "|" ++ style.

(** The [Map] from key to setups, as the list of its entries in insertion
    order. *)
Definition Groups := list (string * list LabelSetup).

Definition has (key : string) (groups : Groups) : bool :=
  existsb (fun g => String.eqb (fst g) key) groups.

(** [groups.get(key).push(setup)] *)
Definition pushTo (key : string) (setup : LabelSetup) (groups : Groups) : Groups :=
  map (fun g => if String.eqb (fst g) key then (fst g, (snd g ++ [setup])%list) else g)
      groups.

Definition addSetup (groups : Groups) (setup : LabelSetup) : Groups :=
  let key := getGroupKey setup in
  let groups := if has key groups then groups else (groups ++ [(key, [])])%list in
  pushTo key setup groups.

Definition groupSetups (setups : list LabelSetup) : Groups :=
  fold_left addSetup setups [].

(** The name of one file: the key is split again at its bars and the third
    piece is read back as a number. *)
Definition fileName (key : string) (page : nat) (extension : string) : string :=
  let parts := splitOn "|" key in
  let textColour := nth 0 parts "undefined" in
  let bgColour := nth 1 parts "undefined" in
  let thicknessStr := nth 2 parts "undefined" in
  let style := nth 3 parts "undefined" in
  let thickness := parseFloat thicknessStr in
  let pageNum := padStart2 (natToString page) in
  let styleSuffix := if String.eqb style "Non Adhesive" then " Non AD" else "" in
  "MLA " ++ textColour ++ " on " ++ bgColour ++ " " ++ templateNumber thickness
    ++ "mm" ++ styleSuffix ++ " " ++ pageNum ++ extension.

(** A generated file.  [content] stands for what the external writer makes
    of the sheet. *)
Record DxfFile := {
  dxfFilename : string;
  dxfContent : Dxf.DxfSheet
}.

Record PdfFile := {
  pdfFilename : string;
  pdfContent : list Pdf.PlacedLabel
}.

(** The parameter [projectName] is not read and is left out. *)
Definition generateDxfFiles (setups : list LabelSetup) (sheetConfig : SheetConfig)
    : list DxfFile :=
  flat_map
    (fun g =>
       let (key, groupSetups) := g : string * list LabelSetup in
       let sheets := Dxf.arrangeLabelsOnSheets groupSetups sheetConfig in
       map (fun sheet =>
              {| dxfFilename := fileName key (Dxf.pageNumber sheet) ".dxf";
                 dxfContent := sheet |})
           sheets)
    (groupSetups setups).

(** The pages of a group are numbered by their index [i], as [i + 1]. *)
Definition generatePdfFiles (setups : list LabelSetup) (sheetConfig : SheetConfig)
    : list PdfFile :=
  flat_map
    (fun g =>
       let (key, groupSetups) := g : string * list LabelSetup in
       let sheets := Pdf.arrangeLabelsOnSheets groupSetups sheetConfig in
       map (fun i =>
              {| pdfFilename := fileName key (i + 1) ".pdf";
                 pdfContent := nth i sheets [] |})
           (seq 0 (List.length sheets)))
    (groupSetups setups).

End FileNames.

(** ** [lib/trace.ts]: parser, flattener, walker *)

Module Trace.

Record PathCommand := {
  type : ascii;
  x : jsnum;
  y : jsnum;
  x1 : jsnum;
  y1 : jsnum;
  x2 : jsnum;
  y2 : jsnum
}.

(** The letters of the character class [[MmLlHhVvCcSsQqTtAaZz]]. *)
Definition isCommandLetter (c : ascii) : bool :=
  existsb (Ascii.eqb c) (list_ascii_of_string "MmLlHhVvCcSsQqTtAaZz").

(** The text matched by [[^MmLlHhVvCcSsQqTtAaZz]*]: the longest prefix free
    of command letters. *)
Fixpoint argumentRun (s : string) : string :=
  match s with
  | String c r => if isCommandLetter c then EmptyString else String c (argumentRun r)
  | EmptyString => EmptyString
  end.

(** The successive results of [regex.exec(d)]: each command letter of [d]
    with the run that follows it.  A run holds no command letter, so the
    search for the next match may start right after the letter. *)
Fixpoint matches (d : string) : list (ascii * string) :=
  match d with
  | String c r =>
      if isCommandLetter c then (c, argumentRun r) :: matches r else matches r
  | EmptyString => []
  end.

(** [s.split(/[\s,]+/)]: [piece] is the piece being read, [inSeparator]
    tells that the last character belonged to a separator. *)
Definition isSeparator (c : ascii) : bool :=
  isWhiteSpace c || Ascii.eqb c ",".

Fixpoint splitFrom (s : string) (piece : string) (inSeparator : bool) : list string :=
  match s with
  | String c r =>
      if isSeparator c then
        if inSeparator then splitFrom r EmptyString true
        else piece :: splitFrom r EmptyString true
      else splitFrom r (piece ++ String c EmptyString) false
  | EmptyString => [piece]
  end.

Definition splitSeparators (s : string) : list string := splitFrom s EmptyString false.

(** [match[2].trim().split(/[\s,]+/).filter((s) => s !== "").map(Number)] *)
Definition parseArguments (run : string) : list jsnum :=
  map jsNumber
      (filter (fun s => negb (isEmpty s)) (splitSeparators (trim run))).

(** [args[i]], [undefined] past the end. *)
Definition arg (args : list jsnum) (i : nat) : jsnum := nth i args Undef.

(** The indices [0, step, 2 * step, ...] below [n]. *)
Definition strides (step n : nat) : list nat :=
  map (fun k => (k * step)%nat) (seq 0 ((n + step - 1) / step)).

Definition blank (type : ascii) : PathCommand :=
  {| type := type; x := Undef; y := Undef;
     x1 := Undef; y1 := Undef; x2 := Undef; y2 := Undef |}.

(** The [switch] of [parseSvgPath] for one match. *)
Definition commandsOf (type : ascii) (args : list jsnum) : list PathCommand :=
  if existsb (Ascii.eqb type) (list_ascii_of_string "MmLl") then
    map (fun i => {| type := type; x := arg args i; y := arg args (i + 1);
                     x1 := Undef; y1 := Undef; x2 := Undef; y2 := Undef |})
        (strides 2 (List.length args))
  else if existsb (Ascii.eqb type) (list_ascii_of_string "Hh") then
    map (fun a => {| type := type; x := a; y := Undef;
                     x1 := Undef; y1 := Undef; x2 := Undef; y2 := Undef |})
        args
  else if existsb (Ascii.eqb type) (list_ascii_of_string "Vv") then
    map (fun a => {| type := type; x := Undef; y := a;
                     x1 := Undef; y1 := Undef; x2 := Undef; y2 := Undef |})
        args
  else if existsb (Ascii.eqb type) (list_ascii_of_string "Cc") then
    map (fun i => {| type := type;
                     x1 := arg args i; y1 := arg args (i + 1);
                     x2 := arg args (i + 2); y2 := arg args (i + 3);
                     x := arg args (i + 4); y := arg args (i + 5) |})
        (strides 6 (List.length args))
  else if existsb (Ascii.eqb type) (list_ascii_of_string "Zz") then
    [ blank type ]
  else [].

Definition parseSvgPath (d : string) : list PathCommand :=
  flat_map (fun m => commandsOf (fst m) (parseArguments (snd m))) (matches d).

Definition Point := (jsnum * jsnum)%type.

(** The body of the loop of [sampleBezier] at parameter [t]. *)
Definition bezierAt (p0 p1 p2 p3 : Point) (t : Q) : Point :=
  let t2 := t * t in
  let t3 := t2 * t in
  let mt := 1 - t in
  let mt2 := mt * mt in
  let mt3 := mt2 * mt in
  let blend (a0 a1 a2 a3 : jsnum) :=
    jsAdd (jsAdd (jsAdd (jsMul (Fin mt3) a0)
                        (jsMul (Fin (3 * mt2 * t)) a1))
                 (jsMul (Fin (3 * mt * t2)) a2))
          (jsMul (Fin t3) a3) in
  (blend (fst p0) (fst p1) (fst p2) (fst p3),
   blend (snd p0) (snd p1) (snd p2) (snd p3)).

(** [segments] is [None] when the caller leaves it out.  The loop runs for
    the integers [1 <= i <= segments]; [segments] is a finite number. *)
Definition sampleBezier (p0 p1 p2 p3 : Point) (segments : option Q) : list Point :=
  let segments := match segments with Some n => n | None => 10 end in
  map (fun i => bezierAt p0 p1 p2 p3 (inject_Z (Z.of_nat i) / segments))
      (seq 1 (Z.to_nat (Qfloor segments))).

(** The variables of [svgPathToPolylinePoints] that its loop updates. *)
Record Pen := {
  polylines : list (list Point);
  currentPolyline : list Point;
  currentX : jsnum;
  currentY : jsnum;
  startX : jsnum;
  startY : jsnum
}.

Definition transformY (flipY : bool) (height : jsnum) (y : jsnum) : jsnum :=
  if flipY then jsSub height y else y.

(** [if (currentPolyline.length > 0) polylines.push(currentPolyline)] *)
Definition flush (p : Pen) : list (list Point) :=
  match currentPolyline p with
  | [] => polylines p
  | _ :: _ => (polylines p ++ [currentPolyline p])%list
  end.

Definition moveTo (flipY : bool) (height : jsnum) (p : Pen) (nx ny : jsnum) : Pen :=
  {| polylines := flush p;
     currentPolyline := [ (nx, transformY flipY height ny) ];
     currentX := nx; currentY := ny;
     startX := nx; startY := ny |}.

Definition lineTo (flipY : bool) (height : jsnum) (p : Pen) (nx ny : jsnum) : Pen :=
  {| polylines := polylines p;
     currentPolyline := (currentPolyline p ++ [ (nx, transformY flipY height ny) ])%list;
     currentX := nx; currentY := ny;
     startX := startX p; startY := startY p |}.

Definition curveTo (flipY : bool) (height : jsnum) (p : Pen)
    (c1x c1y c2x c2y nx ny : jsnum) : Pen :=
  let bezierPts :=
    sampleBezier (currentX p, transformY flipY height (currentY p))
                 (c1x, transformY flipY height c1y)
                 (c2x, transformY flipY height c2y)
                 (nx, transformY flipY height ny)
                 (Some 12%Q) in
  {| polylines := polylines p;
     currentPolyline := (currentPolyline p ++ bezierPts)%list;
     currentX := nx; currentY := ny;
     startX := startX p; startY := startY p |}.

(** [cmd.type === c] *)
Definition typeIs (cmd : PathCommand) (c : ascii) : bool := Ascii.eqb (type cmd) c.

(** The [switch] of the walker for one command. *)
Definition walk (flipY : bool) (height : jsnum) (p : Pen) (cmd : PathCommand) : Pen :=
  if typeIs cmd "M" then moveTo flipY height p (x cmd) (y cmd)
  else if typeIs cmd "m" then
    moveTo flipY height p (jsAdd (currentX p) (x cmd)) (jsAdd (currentY p) (y cmd))
  else if typeIs cmd "L" then lineTo flipY height p (x cmd) (y cmd)
  else if typeIs cmd "l" then
    lineTo flipY height p (jsAdd (currentX p) (x cmd)) (jsAdd (currentY p) (y cmd))
  else if typeIs cmd "H" then lineTo flipY height p (x cmd) (currentY p)
  else if typeIs cmd "h" then lineTo flipY height p (jsAdd (currentX p) (x cmd)) (currentY p)
  else if typeIs cmd "V" then lineTo flipY height p (currentX p) (y cmd)
  else if typeIs cmd "v" then lineTo flipY height p (currentX p) (jsAdd (currentY p) (y cmd))
  else if typeIs cmd "C" then
    curveTo flipY height p (x1 cmd) (y1 cmd) (x2 cmd) (y2 cmd) (x cmd) (y cmd)
  else if typeIs cmd "c" then
    curveTo flipY height p
      (jsAdd (currentX p) (x1 cmd)) (jsAdd (currentY p) (y1 cmd))
      (jsAdd (currentX p) (x2 cmd)) (jsAdd (currentY p) (y2 cmd))
      (jsAdd (currentX p) (x cmd)) (jsAdd (currentY p) (y cmd))
  else if typeIs cmd "Z" || typeIs cmd "z" then lineTo flipY height p (startX p) (startY p)
  else p.

(** [flipY] and [height] are [None] when the caller leaves them out. *)
Definition svgPathToPolylinePoints (d : string) (flipY : option bool)
    (height : option jsnum) : list (list Point) :=
  let flipY := match flipY with Some b => b | None => true end in
  let height := match height with Some h => h | None => Fin 0 end in
  let commands := parseSvgPath d in
  let start := {| polylines := []; currentPolyline := [];
                  currentX := Fin 0; currentY := Fin 0;
                  startX := Fin 0; startY := Fin 0 |} in
  flush (fold_left (walk flipY height) commands start).

End Trace.

(** ** [lib/dxf.ts]: the summary *)

Module DxfText.

Record SheetSummary := {
  totalSheets : nat;
  labelsPerSheet : list nat;
  totalLabels : nat
}.

Definition getSheetSummary (setups : list LabelSetup) (sheetConfig : SheetConfig)
    : SheetSummary :=
  let sheets := Dxf.arrangeLabelsOnSheets setups sheetConfig in
  {| totalSheets := List.length sheets;
     labelsPerSheet := map (fun s => List.length (Dxf.labels s)) sheets;
     totalLabels :=
       fold_left (fun sum s => (sum + List.length (Dxf.labels s))%nat) sheets 0%nat |}.

End DxfText.

(** ** [lib/pdf.ts]: colours *)

Module PdfColour.

(** [c.toLowerCase()] for a character below 256: the letters A-Z and the
    accented capitals 192-222, except the multiplication sign 215. *)
Definition lowerChar (c : ascii) : ascii :=
  let n := nat_of_ascii c in
  if ((65 <=? n) && (n <=? 90))%nat
     || ((192 <=? n) && (n <=? 222) && negb (n =? 215))%nat
  then ascii_of_nat (n + 32)
  else c.

Fixpoint toLowerCase (s : string) : string :=
  match s with
  | String c r => String (lowerChar c) (toLowerCase r)
  | EmptyString => EmptyString
  end.

Record Rgb := { r : Q; g : Q; b : Q }.

(** The object literal [colors], in the order of its keys. *)
Definition colors : list (string * Rgb) :=
  [ ("white",   {| r := 1; g := 1; b := 1 |});
    ("black",   {| r := 0; g := 0; b := 0 |});
    ("red",     {| r := 1; g := 0; b := 0 |});
    ("green",   {| r := 0; g := 0.5; b := 0 |});
    ("blue",    {| r := 0; g := 0; b := 1 |});
    ("yellow",  {| r := 1; g := 1; b := 0 |});
    ("orange",  {| r := 1; g := 0.65; b := 0 |});
    ("purple",  {| r := 0.5; g := 0; b := 0.5 |});
    ("pink",    {| r := 1; g := 0.75; b := 0.8 |});
    ("brown",   {| r := 0.6; g := 0.3; b := 0 |});
    ("gray",    {| r := 0.5; g := 0.5; b := 0.5 |});
    ("grey",    {| r := 0.5; g := 0.5; b := 0.5 |});
    ("cyan",    {| r := 0; g := 1; b := 1 |});
    ("magenta", {| r := 1; g := 0; b := 1 |});
    ("silver",  {| r := 0.75; g := 0.75; b := 0.75 |});
    ("gold",    {| r := 1; g := 0.84; b := 0 |});
    ("navy",    {| r := 0; g := 0; b := 0.5 |});
    ("maroon",  {| r := 0.5; g := 0; b := 0 |});
    ("olive",   {| r := 0.5; g := 0.5; b := 0 |});
    ("teal",    {| r := 0; g := 0.5; b := 0.5 |});
    ("lime",    {| r := 0; g := 1; b := 0 |});
    ("aqua",    {| r := 0; g := 1; b := 1 |});
    ("fuchsia", {| r := 1; g := 0; b := 1 |}) ].

(** What [colors[key] || { r: 0, g: 0, b: 0 }] evaluates to.  [colors] is a
    plain object, so a key that it does not own is looked up in
    [Object.prototype]; of the names there only [constructor] and
    [__proto__] are free of capitals and can be a normalised name.  Their
    values are objects, hence truthy, and have no [r], [g], [b]. *)
Inductive Looked :=
| Colour (c : Rgb)
| Inherited (key : string).

Definition isInherited (key : string) : bool :=
  String.eqb key "constructor" || String.eqb key "__proto__".

Fixpoint own (key : string) (table : list (string * Rgb)) : option Rgb :=
  match table with
  | (k, c) :: rest => if String.eqb k key then Some c else own key rest
  | [] => None
  end.

Definition colorNameToRgb (colorName : string) : Looked :=
  let normalized := trim (toLowerCase colorName) in
  match own normalized colors with
  | Some c => Colour c
  | None =>
      if isInherited normalized then Inherited normalized
      else Colour {| r := 0; g := 0; b := 0 |}
  end.

End PdfColour.

(** ** [lib/trace.ts]: from polylines to line models *)

Module Outline.

(** One entry of [model.paths]: the key and the line from [origin] to
    [end]. *)
Record Line := {
  key : string;
  origin : Trace.Point;
  finish : Trace.Point
}.

(** [points[i]]; past the end it is [undefined], which has no coordinates. *)
Definition pointAt (points : list Trace.Point) (i : nat) : Trace.Point :=
  nth i points (Undef, Undef).

(** [points.length - 1] is negative for an empty array, and the loop does
    not run. *)
Definition createPolylineModel (points : list Trace.Point) : list Line :=
  map (fun i => {| key := "line_" ++ natToString i;
                   origin := pointAt points i;
                   finish := pointAt points (i + 1) |})
      (seq 0 (List.length points - 1)).

(** The models that [svgToDxf] and [traceImageToDxf] build from the path
    strings and the height that [extractPathsFromSvg] returns: one model
    per polyline, numbered through all paths. *)
Definition polylineModels (paths : list string) (height : jsnum)
    : list (string * list Line) :=
  let polylines :=
    flat_map (fun pathD => Trace.svgPathToPolylinePoints pathD (Some true) (Some height))
             paths in
  map (fun ip => ("polyline_" ++ natToString (fst ip), createPolylineModel (snd ip)))
      (combine (seq 0 (List.length polylines)) polylines).

End Outline.

Close Scope string_scope.

(** * Machine arithmetic

    The definitions above compute with exact numbers.  The machine computes
    with binary64 numbers and rounds the result of every operation.  This
    part holds the rounding and, for the packers and the text fit, copies
    of the definitions above in which every operation is rounded. *)

(** ** Binary64 rounding *)

Module Binary64.

(** [2^e] *)
Definition pow2 (e : Z) : Q := 2 ^ e.

(** The binade of a positive number: the [l] with [2^l <= q < 2^(l+1)]. *)
Definition binade (q : Q) : Z :=
  let l := (Z.log2 (Qnum q) - Z.log2 (Z.pos (Qden q)))%Z in
  if Qle_bool (pow2 l) q then l else (l - 1)%Z.

(** The exponent of the last place of the binary64 numbers around [q]: 52
    below the binade, and -1074 in the subnormal range. *)
Definition lastPlace (q : Q) : Z := Z.max (binade (Qabs q) - 52) (-1074).

(** The nearest integer, the even one of two that are equally near. *)
Definition nearestEven (q : Q) : Z :=
  let f := Qfloor q in
  let r := q - inject_Z f in
  if Qlt_bool r (1 # 2) then f
  else if Qlt_bool (1 # 2) r then (f + 1)%Z
  else if Z.even f then f else (f + 1)%Z.

(** The result of an arithmetic operation: the exact result rounded to the
    nearest binary64 number, ties to even.  Results of magnitude [2^1024]
    or more, which the machine turns into an infinity, and the sign of a
    zero are outside the model. *)
Definition round (q : Q) : Q :=
  let q := Qred q in
  if Qeq_bool q 0 then 0
  else
    let e := lastPlace q in
    Qred (inject_Z (nearestEven (q / pow2 e)) * pow2 e).

(** [a + b], [a - b], [a * b] and [a / b] as the machine computes them. *)
Definition add (a b : Q) : Q := round (a + b).
Definition sub (a b : Q) : Q := round (a - b).
Definition mul (a b : Q) : Q := round (a * b).
Definition div (a b : Q) : Q := round (a / b).

End Binary64.

(** ** The packers in machine arithmetic

    [Dxf] and [Pdf] above compute with exact numbers.  The copies below
    round every sum and difference to binary64, as the machine does; they
    share the records of the exact packers. *)

Module Dxf64.

Definition start (sheet : SheetConfig) : Dxf.Cursor :=
  {| Dxf.sheets := [];
     Dxf.currentSheet := {| Dxf.pageNumber := 1; Dxf.labels := [] |};
     Dxf.currentX := margin sheet;
     Dxf.currentY := Binary64.sub (height sheet) (margin sheet);
     Dxf.rowHeight := 0 |}.

Definition wrapRow (sheet : SheetConfig) (labelWidth labelHeight : Q)
    (c : Dxf.Cursor) : Dxf.Cursor :=
  if Qlt_bool (Binary64.sub (width sheet) (margin sheet))
              (Binary64.add (Dxf.currentX c) labelWidth) then
    {| Dxf.sheets := Dxf.sheets c; Dxf.currentSheet := Dxf.currentSheet c;
       Dxf.currentX := margin sheet;
       Dxf.currentY :=
         Binary64.sub (Dxf.currentY c) (Binary64.add (Dxf.rowHeight c) (gap sheet));
       Dxf.rowHeight := labelHeight |}
  else c.

Definition newSheet (sheet : SheetConfig) (labelHeight : Q) (c : Dxf.Cursor)
    : Dxf.Cursor :=
  if Qlt_bool (Binary64.sub (Dxf.currentY c) labelHeight) (margin sheet) then
    let sheets' :=
      match Dxf.labels (Dxf.currentSheet c) with
      | [] => Dxf.sheets c
      | _ :: _ => Dxf.sheets c ++ [Dxf.currentSheet c]
      end in
    {| Dxf.sheets := sheets';
       Dxf.currentSheet :=
         {| Dxf.pageNumber := S (List.length sheets'); Dxf.labels := [] |};
       Dxf.currentX := margin sheet;
       Dxf.currentY := Binary64.sub (height sheet) (margin sheet);
       Dxf.rowHeight := labelHeight |}
  else c.

Definition pushLabel (sheet : SheetConfig) (label : LabelSetup) (c : Dxf.Cursor)
    : Dxf.Cursor :=
  let labelWidth := labelLengthMm label in
  let labelHeight := labelHeightMm label in
  {| Dxf.sheets := Dxf.sheets c;
     Dxf.currentSheet :=
       {| Dxf.pageNumber := Dxf.pageNumber (Dxf.currentSheet c);
          Dxf.labels :=
            Dxf.labels (Dxf.currentSheet c) ++
            [ {| Dxf.setup := label; Dxf.x := Dxf.currentX c;
                 Dxf.y := Binary64.sub (Dxf.currentY c) labelHeight;
                 Dxf.quantity := 1 |} ] |};
     Dxf.currentX := Binary64.add (Dxf.currentX c) (Binary64.add labelWidth (gap sheet));
     Dxf.currentY := Dxf.currentY c;
     Dxf.rowHeight := Math_max (Dxf.rowHeight c) labelHeight |}.

Definition place (sheet : SheetConfig) (c : Dxf.Cursor) (label : LabelSetup)
    : Dxf.Cursor :=
  let labelWidth := labelLengthMm label in
  let labelHeight := labelHeightMm label in
  pushLabel sheet label
    (newSheet sheet labelHeight
       (wrapRow sheet labelWidth labelHeight
          (Dxf.seedRow labelHeight c))).

Definition arrangeLabelsOnSheets (setups : list LabelSetup) (sheet : SheetConfig)
    : list Dxf.DxfSheet :=
  Dxf.finish (fold_left (place sheet) (expandQuantities setups) (start sheet)).

End Dxf64.

Module Pdf64.

Definition start (sheet : SheetConfig) : Pdf.Cursor :=
  {| Pdf.sheets := [];
     Pdf.currentSheet := [];
     Pdf.currentX := margin sheet;
     Pdf.currentY := Binary64.sub (height sheet) (margin sheet);
     Pdf.rowHeight := 0 |}.

Definition wrapRow (sheet : SheetConfig) (labelWidth labelHeight : Q)
    (c : Pdf.Cursor) : Pdf.Cursor :=
  if Qlt_bool (Binary64.sub (width sheet) (margin sheet))
              (Binary64.add (Pdf.currentX c) labelWidth) then
    {| Pdf.sheets := Pdf.sheets c; Pdf.currentSheet := Pdf.currentSheet c;
       Pdf.currentX := margin sheet;
       Pdf.currentY :=
         Binary64.sub (Pdf.currentY c) (Binary64.add (Pdf.rowHeight c) (gap sheet));
       Pdf.rowHeight := labelHeight |}
  else c.

Definition newSheet (sheet : SheetConfig) (labelHeight : Q) (c : Pdf.Cursor)
    : Pdf.Cursor :=
  if Qlt_bool (Binary64.sub (Pdf.currentY c) labelHeight) (margin sheet) then
    {| Pdf.sheets := match Pdf.currentSheet c with
                     | [] => Pdf.sheets c
                     | _ :: _ => Pdf.sheets c ++ [Pdf.currentSheet c]
                     end;
       Pdf.currentSheet := [];
       Pdf.currentX := margin sheet;
       Pdf.currentY := Binary64.sub (height sheet) (margin sheet);
       Pdf.rowHeight := labelHeight |}
  else c.

Definition pushLabel (sheet : SheetConfig) (label : LabelSetup) (c : Pdf.Cursor)
    : Pdf.Cursor :=
  let labelWidth := labelLengthMm label in
  let labelHeight := labelHeightMm label in
  {| Pdf.sheets := Pdf.sheets c;
     Pdf.currentSheet :=
       Pdf.currentSheet c ++
       [ {| Pdf.setup := label; Pdf.x := Pdf.currentX c;
            Pdf.y := Binary64.sub (Pdf.currentY c) labelHeight |} ];
     Pdf.currentX := Binary64.add (Pdf.currentX c) (Binary64.add labelWidth (gap sheet));
     Pdf.currentY := Pdf.currentY c;
     Pdf.rowHeight := Math_max (Pdf.rowHeight c) labelHeight |}.

Definition place (sheet : SheetConfig) (c : Pdf.Cursor) (label : LabelSetup)
    : Pdf.Cursor :=
  let labelWidth := labelLengthMm label in
  let labelHeight := labelHeightMm label in
  pushLabel sheet label
    (newSheet sheet labelHeight
       (wrapRow sheet labelWidth labelHeight
          (Pdf.seedRow labelHeight c))).

Definition arrangeLabelsOnSheets (setups : list LabelSetup) (sheet : SheetConfig)
    : list (list Pdf.PlacedLabel) :=
  Pdf.finish (fold_left (place sheet) (expandQuantities setups) (start sheet)).

End Pdf64.

(** ** The text fit in machine arithmetic

    [DxfExport.calculateFitTextHeight] and [PdfExport.lineData] above
    compute with exact numbers.  The copies below round every product,
    difference and quotient to binary64, as the machine does. *)

Module DxfExport64.

(** The literal [0.55] denotes the binary64 number nearest to it. *)
Definition avgCharWidthRatio : Q := Binary64.round 0.55.

Definition estimateTextWidth (text : string) (textHeight : Q) : Q :=
  Binary64.mul (Binary64.mul (inject_Z (Z.of_nat (String.length text))) textHeight)
               avgCharWidthRatio.

Definition calculateFitTextHeight (text : string) (maxWidth desiredHeight : Q)
    (padding : option Q) : Q :=
  let padding := match padding with Some p => p | None => 2 end in
  let availableWidth := Binary64.sub maxWidth (Binary64.mul padding 2) in
  let estimatedWidth := estimateTextWidth text desiredHeight in
  if Qle_bool estimatedWidth availableWidth then desiredHeight
  else
    let scaleFactor := Binary64.div availableWidth estimatedWidth in
    let newHeight := Binary64.mul desiredHeight scaleFactor in
    Math_max 0.5 newHeight.

Definition lineData (setup : LabelSetup) : list (string * Q) :=
  let width := labelLengthMm setup in
  map (fun line =>
         let desiredHeight := orElse (textSizeMm line) 2 in
         let fitHeight :=
           calculateFitTextHeight (text line) width desiredHeight (Some 2%Q) in
         (text line, fitHeight))
      (filter DxfExport.isValidLine (lines setup)).

End DxfExport64.

Module PdfExport64.

Definition lineData (setup : LabelSetup) : list (string * Q) :=
  let width := labelLengthMm setup in
  let padding := 2%Q in
  map (fun line =>
         let textHeight := orElse (textSizeMm line) 2 in
         let len := inject_Z (Z.of_nat (String.length (text line))) in
         let estimatedWidth := Binary64.mul (Binary64.mul len textHeight) 0.5 in
         let textHeight :=
           if Qlt_bool (Binary64.sub width (Binary64.mul padding 2)) estimatedWidth then
             Math_max 0.5 (Binary64.div (Binary64.sub width (Binary64.mul padding 2))
                                        (Binary64.mul len 0.5))
           else textHeight in
         (text line, textHeight))
      (filter PdfExport.isValidLine (lines setup)).

End PdfExport64.

(** * Vocabulary of the properties *)

(** The number of placed labels on a sequence of sheets, for both packers. *)
Definition totalPlaced (sheets : list Dxf.DxfSheet) : nat :=
  list_sum (map (fun sh => List.length (Dxf.labels sh)) sheets).

Definition totalPlacedPdf (sheets : list (list Pdf.PlacedLabel)) : nat :=
  list_sum (map (@List.length _) sheets).

(** The sum of the quantities as the setups give them. *)
Definition sumQuantities (setups : list LabelSetup) : Q :=
  fold_right (fun s acc => labelQuantity s + acc) 0 setups.

(** The sum of the quantities as the packers read them: [labelQuantity || 1]. *)
Definition sumReadQuantities (setups : list LabelSetup) : Q :=
  fold_right (fun s acc => orElse (labelQuantity s) 1 + acc) 0 setups.

(** A number that is a count: 0, 1, 2, ... *)
Definition isCount (q : Q) : bool :=
  Qle_bool 0 q && Qeq_bool q (inject_Z (Qfloor q)).

(** The footprint of a placed label: lower-left corner, length and height. *)
Record Footprint := {
  left : Q;
  bottom : Q;
  across : Q;
  up : Q
}.

Definition footprint (p : Dxf.PlacedLabel) : Footprint :=
  {| left := Dxf.x p; bottom := Dxf.y p;
     across := labelLengthMm (Dxf.setup p); up := labelHeightMm (Dxf.setup p) |}.

Definition footprintPdf (p : Pdf.PlacedLabel) : Footprint :=
  {| left := Pdf.x p; bottom := Pdf.y p;
     across := labelLengthMm (Pdf.setup p); up := labelHeightMm (Pdf.setup p) |}.

(** Two footprints share at most edge points: a vertical or a horizontal
    line separates them. *)
Definition apart (a b : Footprint) : Prop :=
  left a + across a <= left b \/ left b + across b <= left a \/
  bottom a + up a <= bottom b \/ bottom b + up b <= bottom a.

(** Every two labels at different places of the list are apart. *)
Definition pairwiseApart (fs : list Footprint) : Prop :=
  ForallOrdPairs apart fs.

(** The label of the document packer that a label of the drawing packer
    corresponds to. *)
Definition toPdf (p : Dxf.PlacedLabel) : Pdf.PlacedLabel :=
  {| Pdf.setup := Dxf.setup p; Pdf.x := Dxf.x p; Pdf.y := Dxf.y p |}.

Definition cursorToPdf (c : Dxf.Cursor) : Pdf.Cursor :=
  {| Pdf.sheets := map (fun sh => map toPdf (Dxf.labels sh)) (Dxf.sheets c);
     Pdf.currentSheet := map toPdf (Dxf.labels (Dxf.currentSheet c));
     Pdf.currentX := Dxf.currentX c;
     Pdf.currentY := Dxf.currentY c;
     Pdf.rowHeight := Dxf.rowHeight c |}.

(** The labels that a cursor of the drawing packer has placed so far. *)
Definition placedSoFar (c : Dxf.Cursor) : nat :=
  (totalPlaced (Dxf.sheets c) + List.length (Dxf.labels (Dxf.currentSheet c)))%nat.

(** A setup with the given quantity and the given length and height; the
    other fields as in the benchmark payload. *)
Definition plainLabel (quantity length height : Q) : LabelSetup :=
  {| name := None;
     labelLengthMm := length; labelHeightMm := height; labelThicknessMm := 0.8;
     labelColourBackground := "White"; textColour := "Black";
     labelQuantity := quantity; style := "Adhesive";
     noOfHoles := 0; holeSizeMm := 0; holeDistanceMm := 0;
     holeType := None; holeLengthMm := None; holeHeightMm := None;
     lines := [ {| text := "LBL"; textSizeMm := 3 |} ] |}.

(** Inputs of the examples. *)
Definition mixedQuantities : list LabelSetup :=
  [plainLabel 2 20 7; plainLabel 0 20 7; plainLabel 3 50 20].

Definition zeroQuantity : list LabelSetup := [plainLabel 0 20 7].

(** What the cursor of the drawing packer knows of a label of the sheet in
    hand: the label lies in a row above the current one, or it lies in the
    current row to the left of the cursor and within the row's height. *)
Definition rowBound (c : Dxf.Cursor) (p : Dxf.PlacedLabel) : Prop :=
  Dxf.currentY c <= Dxf.y p \/
  (Dxf.x p + labelLengthMm (Dxf.setup p) <= Dxf.currentX c /\
   Dxf.currentY c - Dxf.rowHeight c <= Dxf.y p).

(** The invariant of the main loop behind the absence of overlaps. *)
Record Separated (c : Dxf.Cursor) : Prop := {
  sep_sheets :
    Forall (fun sh => pairwiseApart (map footprint (Dxf.labels sh))) (Dxf.sheets c);
  sep_current : pairwiseApart (map footprint (Dxf.labels (Dxf.currentSheet c)));
  sep_rows : Forall (rowBound c) (Dxf.labels (Dxf.currentSheet c));
  sep_height : 0 <= Dxf.rowHeight c
}.

(** A setup of non-negative length and height. *)
Definition properSize (s : LabelSetup) : Prop :=
  0 <= labelLengthMm s /\ 0 <= labelHeightMm s.

Definition negativeGap : SheetConfig :=
  {| width := 600; height := 300; margin := 0; gap := -5 |}.

Definition twoLabels : list LabelSetup := [plainLabel 2 10 5].

(** The scenario of the 20 x 7 labels on the default sheet.  Slot [j]
    (counted from 0) is column [j mod 30] of row [j / 30]; rows are filled
    from the top of the sheet. *)
Definition atSlot (j : nat) (p : Dxf.PlacedLabel) : Prop :=
  Dxf.x p == inject_Z (20 * (Z.of_nat j mod 30)) /\
  Dxf.y p == inject_Z (300 - 7 * (Z.of_nat j / 30 + 1)).

Definition smallLabel (s : LabelSetup) : Prop :=
  labelLengthMm s == 20 /\ labelHeightMm s == 7.

(** The cursor after [k] small labels, all on the first sheet: [col] labels
    stand in row [row], which is the row in hand. *)
Definition filling (k : nat) (c : Dxf.Cursor) : Prop :=
  Dxf.sheets c = [] /\
  Dxf.pageNumber (Dxf.currentSheet c) = 1%nat /\
  List.length (Dxf.labels (Dxf.currentSheet c)) = k /\
  Forall2 atSlot (seq 0 k) (Dxf.labels (Dxf.currentSheet c)) /\
  ((k = 0%nat /\ Dxf.rowHeight c == 0) \/ Dxf.rowHeight c == 7) /\
  exists row col : Z,
    (0 <= row)%Z /\ (0 <= col <= 30)%Z /\ Z.of_nat k = (30 * row + col)%Z /\
    Dxf.currentX c == 20 * inject_Z col /\
    Dxf.currentY c == 300 - 7 * inject_Z row.

(** A setup whose quantity is a count other than 0. *)
Definition positiveCount (s : LabelSetup) : Prop :=
  isCount (labelQuantity s) = true /\ 0 < labelQuantity s.

Definition fullSheet : list LabelSetup :=
  [plainLabel 400 20 7; plainLabel 500 20 7; plainLabel 360 20 7].

Definition fullSheetAndZero : list LabelSetup :=
  [plainLabel 1260 20 7; plainLabel 0 20 7].

Definition oneTooMany : list LabelSetup := [plainLabel 1261 20 7].

(** The text fit in the words of the specification, for a given width
    ratio: the desired height if the estimate [len * desiredHeight * ratio]
    fits into [maxWidth - 2 * padding], else the height scaled down by
    available over estimated width, and at least 0.5. *)
Definition specFitHeight (ratio : Q) (text : string) (maxWidth desiredHeight padding : Q)
    : Q :=
  let estimatedWidth := inject_Z (Z.of_nat (String.length text)) * desiredHeight * ratio in
  if Qle_bool estimatedWidth (maxWidth - 2 * padding) then desiredHeight
  else Math_max 0.5 (desiredHeight * (maxWidth - 2 * padding) / estimatedWidth).

(** A 30 x 10 label with one line of ten letters of size 5. *)
Definition tenLetters : LabelSetup :=
  {| name := None;
     labelLengthMm := 30; labelHeightMm := 10; labelThicknessMm := 0.8;
     labelColourBackground := "White"; textColour := "Black";
     labelQuantity := 1; style := "Adhesive";
     noOfHoles := 0; holeSizeMm := 0; holeDistanceMm := 0;
     holeType := None; holeLengthMm := None; holeHeightMm := None;
     lines := [ {| text := "ABCDEFGHIJ"; textSizeMm := 5 |} ] |}.

(** Points with equal coordinates. *)
Definition samePoints (a b : list (Q * Q)) : Prop :=
  Forall2 (fun pa pb => fst pa == fst pb /\ snd pa == snd pb) a b.







(** The command letters that the tokenizer recognises and for which the
    parser has no case. *)
Definition isSkippedLetter (c : ascii) : bool :=
  existsb (Ascii.eqb c) (list_ascii_of_string "SsQqTtAa").

(** A string without command letters. *)
Fixpoint commandFree (s : string) : bool :=
  match s with
  | String c r => negb (Trace.isCommandLetter c) && commandFree r
  | EmptyString => true
  end.

(** A string that is empty or starts with a command letter. *)
Definition atCommand (s : string) : bool :=
  match s with
  | String c _ => Trace.isCommandLetter c
  | EmptyString => true
  end.

(** Numbers of the walker that stand for the same number, and points and
    polylines made of them. *)
Definition sameNumber (a b : jsnum) : Prop :=
  match a, b with
  | Fin p, Fin q => p == q
  | _, _ => a = b
  end.

Definition samePoint (a b : Trace.Point) : Prop :=
  sameNumber (fst a) (fst b) /\ sameNumber (snd a) (snd b).

Definition samePolyline (a b : list Trace.Point) : Prop := Forall2 samePoint a b.

(** A point with finite coordinates. *)
Definition finitePoint (p : Q * Q) : Trace.Point := (Fin (fst p), Fin (snd p)).

(** The cubic blending polynomial. *)
Definition cubicBlend (a0 a1 a2 a3 t : Q) : Q :=
  (1 - t) ^ 3 * a0 + 3 * (1 - t) ^ 2 * t * a1 + 3 * (1 - t) * t ^ 2 * a2 + t ^ 3 * a3.

Definition cubicPoint (p0 p1 p2 p3 : Q * Q) (t : Q) : Q * Q :=
  (cubicBlend (fst p0) (fst p1) (fst p2) (fst p3) t,
   cubicBlend (snd p0) (snd p1) (snd p2) (snd p3) t).

(** What a close command does to the pen: the finished polylines stay, and
    the start point is appended to the polyline in hand. *)
Definition closesInPlace (flipY : bool) (h : jsnum) (p : Trace.Pen) (letter : ascii)
    : Prop :=
  let p' := Trace.walk flipY h p (Trace.blank letter) in
  Trace.polylines p' = Trace.polylines p /\
  Trace.currentPolyline p'
  = Trace.currentPolyline p
      ++ [ (Trace.startX p, Trace.transformY flipY h (Trace.startY p)) ].

(** A string without the bar that separates the pieces of a group key. *)
Fixpoint noBar (s : string) : bool :=
  match s with
  | String c r => negb (Ascii.eqb c "|") && noBar r
  | EmptyString => true
  end.

Section FileNameVocabulary.

Context `{NumberText}.

(** The four pieces of the key of a setup can be read back from the key:
    none of them holds a bar, and the printed thickness is printed the same
    after [parseFloat]. *)
Definition keyReadsBack (s : LabelSetup) : Prop :=
  let thickness := numberToString (orElse (labelThicknessMm s) 0.8) in
  noBar (orElseStr (textColour s) "Black") = true /\
  noBar (orElseStr (labelColourBackground s) "White") = true /\
  noBar thickness = true /\
  noBar (orElseStr (style s) "Adhesive") = true /\
  templateNumber (parseFloat thickness) = thickness.

(** The file name of page [page] of the group of setup [s], from the fields
    of [s]. *)
Definition nameOf (s : LabelSetup) (page : nat) (extension : string) : string :=
  ("MLA " ++ orElseStr (textColour s) "Black"
     ++ " on " ++ orElseStr (labelColourBackground s) "White"
     ++ " " ++ numberToString (orElse (labelThicknessMm s) 0.8) ++ "mm"
     ++ (if String.eqb (style s) "Non Adhesive" then " Non AD" else "")
     ++ " " ++ padStart2 (natToString page) ++ extension)%string.

(** The file names of a group with [pages] sheets: pages 1, 2, ... *)
Definition groupNames (extension : string) (g : string * list LabelSetup) (pages : nat)
    : list string :=
  match snd g with
  | s :: _ => map (fun page => nameOf s page extension) (seq 1 pages)
  | [] => []
  end.

(** The file name in the words of the specification. *)
Definition specName (s : LabelSetup) (page : nat) (extension : string) : string :=
  (textColour s ++ " on " ++ labelColourBackground s
     ++ " " ++ numberToString (labelThicknessMm s)
     ++ (if String.eqb (style s) "Non Adhesive" then " Non AD" else "")
     ++ " " ++ padStart2 (natToString page) ++ extension)%string.

(** What holds of every group while the setups are sorted into groups: it
    is not empty, and its setups have its key (and a property [P] that all
    sorted setups have). *)
Definition groupOf (P : LabelSetup -> Prop) (g : string * list LabelSetup) : Prop :=
  snd g <> [] /\ Forall (fun s => P s /\ getGroupKey s = fst g) (snd g).

End FileNameVocabulary.

(** The pages of the drawing packer are numbered 1, 2, ... in the order of
    the sheets. *)
Definition numbered (c : Dxf.Cursor) : Prop :=
  map Dxf.pageNumber (Dxf.sheets c) = seq 1 (List.length (Dxf.sheets c)) /\
  Dxf.pageNumber (Dxf.currentSheet c) = S (List.length (Dxf.sheets c)).

(** A printer for the examples: the decimal expansion, cut after 17
    fraction digits.  For a decimal of few digits this is what a template
    prints. *)
Fixpoint fractionDigits (fuel : nat) (remainder denominator : N) : string :=
  match fuel with
  | O => EmptyString
  | S fuel' =>
      if (remainder =? 0)%N then EmptyString
      else String (ascii_of_N (48 + remainder * 10 / denominator))
                  (fractionDigits fuel' ((remainder * 10) mod denominator) denominator)
  end.

Definition printDecimal (q : Q) : string :=
  let r := Qred q in
  let n := Z.abs_N (Qnum r) in
  let d := Npos (Qden r) in
  ((if (Qnum r <? 0)%Z then "-" else "")
     ++ DecimalString.NilEmpty.string_of_uint (N.to_uint (n / d))
     ++ (if (n mod d =? 0)%N then "" else "." ++ fractionDigits 17 (n mod d) d))%string.

#[local] Instance decimalText : NumberText := printDecimal.

(** Two material groups: white adhesive labels on two sheets, and yellow
    non-adhesive labels of thickness 1.6 on one sheet. *)
Definition yellowLabel : LabelSetup :=
  {| name := None;
     labelLengthMm := 50; labelHeightMm := 20; labelThicknessMm := 1.6;
     labelColourBackground := "Yellow"; textColour := "Black";
     labelQuantity := 2; style := "Non Adhesive";
     noOfHoles := 0; holeSizeMm := 0; holeDistanceMm := 0;
     holeType := None; holeLengthMm := None; holeHeightMm := None;
     lines := [] |}.

Definition twoGroups : list LabelSetup :=
  [plainLabel 1000 20 7; yellowLabel; plainLabel 261 20 7].

Definition oneLabel : LabelSetup := plainLabel 1 20 7.

(** The setups of the placed labels, sheet after sheet. *)
Definition placedSetups (sheets : list Dxf.DxfSheet) : list LabelSetup :=
  flat_map (fun sh => map Dxf.setup (Dxf.labels sh)) sheets.

Definition placedSetupsPdf (sheets : list (list Pdf.PlacedLabel)) : list LabelSetup :=
  flat_map (map Pdf.setup) sheets.

(** The requests that a cursor has served, in the order of their placing. *)
Definition served (c : Dxf.Cursor) : list LabelSetup :=
  placedSetups (Dxf.sheets c) ++ map Dxf.setup (Dxf.labels (Dxf.currentSheet c)).

(** A setup that is not larger than the usable area of the sheet. *)
Definition fitsSheet (sheet : SheetConfig) (s : LabelSetup) : Prop :=
  0 <= labelLengthMm s <= width sheet - 2 * margin sheet /\
  0 <= labelHeightMm s <= height sheet - 2 * margin sheet.

(** A footprint that keeps the margin on all four sides. *)
Definition insideMargins (sheet : SheetConfig) (f : Footprint) : Prop :=
  margin sheet <= left f /\ left f + across f <= width sheet - margin sheet /\
  margin sheet <= bottom f /\ bottom f + up f <= height sheet - margin sheet.

(** The invariant of the main loop behind the margins. *)
Record Bounded (sheet : SheetConfig) (c : Dxf.Cursor) : Prop := {
  bnd_sheets :
    Forall (fun sh => Forall (insideMargins sheet) (map footprint (Dxf.labels sh)))
           (Dxf.sheets c);
  bnd_current :
    Forall (insideMargins sheet) (map footprint (Dxf.labels (Dxf.currentSheet c)));
  bnd_x : margin sheet <= Dxf.currentX c;
  bnd_y : Dxf.currentY c <= height sheet - margin sheet;
  bnd_height : 0 <= Dxf.rowHeight c
}.

(** A relation that holds between every label of a list and the next. *)
Fixpoint consecutive {A : Type} (R : A -> A -> Prop) (l : list A) : Prop :=
  match l with
  | a :: (b :: _) as rest => R a b /\ consecutive R rest
  | _ => True
  end.

(** How a label [b] follows the label [a] placed before it on the same
    sheet: to the right of it in the same row, one gap apart, or at the left
    margin of a new row, below [a] by the gap or more. *)
Definition nextOnShelf (sheet : SheetConfig) (a b : Footprint) : Prop :=
  (bottom b + up b == bottom a + up a /\ left b == left a + across a + gap sheet) \/
  (left b == margin sheet /\ bottom b + up b + gap sheet <= bottom a).

(** The last element of a list, if any. *)
Definition lastOf {A : Type} (l : list A) : option A :=
  last (map Some l) None.

(** The invariant of the main loop behind the shelf order: the cursor
    stands right of the last label of the sheet in hand, at its top, and the
    row is at least as high as that label. *)
Record Shelved (sheet : SheetConfig) (c : Dxf.Cursor) : Prop := {
  shv_sheets :
    Forall (fun sh => consecutive (nextOnShelf sheet) (map footprint (Dxf.labels sh)))
           (Dxf.sheets c);
  shv_current :
    consecutive (nextOnShelf sheet) (map footprint (Dxf.labels (Dxf.currentSheet c)));
  shv_last :
    forall p, lastOf (Dxf.labels (Dxf.currentSheet c)) = Some p ->
      Dxf.currentX c == Dxf.x p + labelLengthMm (Dxf.setup p) + gap sheet /\
      Dxf.currentY c == Dxf.y p + labelHeightMm (Dxf.setup p) /\
      labelHeightMm (Dxf.setup p) <= Dxf.rowHeight c;
  shv_height : 0 <= Dxf.rowHeight c
}.

(** A sheet with a margin and a gap, and labels of three sizes for it. *)
Definition marginSheet : SheetConfig :=
  {| width := 100; height := 60; margin := 5; gap := 2 |}.

Definition threeSizes : list LabelSetup :=
  [plainLabel 3 40 10; plainLabel 2 30 20; plainLabel 4 25 15].

Section GroupVocabulary.

Context `{NumberText}.

(** The setup belongs to the material group of the key. *)
Definition hasKey (key : string) (s : LabelSetup) : bool :=
  String.eqb (getGroupKey s) key.

(** The keys of the setups, each once, in the order of first occurrence;
    [seen] holds the keys met before. *)
Fixpoint firstKeys (seen : list string) (setups : list LabelSetup) : list string :=
  match setups with
  | s :: rest =>
      let key := getGroupKey s in
      if existsb (String.eqb key) seen then firstKeys seen rest
      else key :: firstKeys (key :: seen) rest
  | [] => []
  end.

(** The groups as a stable partition: for each key, the setups of that key
    in input order. *)
Definition partitionByKey (setups : list LabelSetup) : list (string * list LabelSetup) :=
  map (fun key => (key, filter (hasKey key) setups)) (firstKeys [] setups).

(** The file name without its extension. *)
Definition fileStem (key : string) (page : nat) : string :=
  fileName key page EmptyString.

End GroupVocabulary.

(** A third group next to those of [twoGroups] that differs from the first
    in its style only. *)
Definition glossyLabel : LabelSetup :=
  {| name := None;
     labelLengthMm := 20; labelHeightMm := 7; labelThicknessMm := 0.8;
     labelColourBackground := "White"; textColour := "Black";
     labelQuantity := 5; style := "Glossy";
     noOfHoles := 0; holeSizeMm := 0; holeDistanceMm := 0;
     holeType := None; holeLengthMm := None; holeHeightMm := None;
     lines := [] |}.

(** Setups with a negative quantity, and two setups that differ in a style
    other than "Non Adhesive". *)
Definition negativeQuantities : list LabelSetup :=
  [plainLabel (-1) 20 7; plainLabel (-3) 50 20].

Definition twoStyles : list LabelSetup := [oneLabel; glossyLabel].

(** Line data with the same texts, the heights of the first at most those
    of the second. *)
Definition noTallerThan (a b : list (string * Q)) : Prop :=
  Forall2 (fun la lb => fst la = fst lb /\ snd la <= snd lb) a b.

(** A line whose size, as the exports read it ([textSizeMm || 2]), is at
    least the floor 0.5 of the text fit. *)
Definition readableSize (line : LabelLine) : Prop :=
  0.5 <= orElse (textSizeMm line) 2.

(** ** Vocabulary of the traced outlines and of the colours *)

(** The number of points that the walker appends for a command of a given
    letter: one for a move, a line or a close, twelve for a curve. *)
Definition pointsOfLetter (letter : ascii) : nat :=
  if existsb (Ascii.eqb letter) (list_ascii_of_string "MmLlHhVvZz") then 1
  else if existsb (Ascii.eqb letter) (list_ascii_of_string "Cc") then 12
  else 0.

Definition pointsOf (cmd : Trace.PathCommand) : nat := pointsOfLetter (Trace.type cmd).

Definition pointCount (polylines : list (list Trace.Point)) : nat :=
  List.length (List.concat polylines).

Definition isMove (cmd : Trace.PathCommand) : bool :=
  Trace.typeIs cmd "M" || Trace.typeIs cmd "m".

(** The commands at which a polyline starts: the first command and every
    later move. *)
Definition polylineStarts (commands : list Trace.PathCommand) : nat :=
  match commands with
  | [] => 0
  | _ :: rest => S (List.length (filter isMove rest))
  end.

(** The image of a point in the horizontal line at half the height. *)
Definition mirror (height : Q) (p : Trace.Point) : Trace.Point :=
  (fst p, jsSub (Fin height) (snd p)).

(** A curve command. *)
Definition isCurve (cmd : Trace.PathCommand) : bool :=
  Trace.typeIs cmd "C" || Trace.typeIs cmd "c".

(** The pen of the flipped walk beside the pen of the plain walk: the same
    position, and the mirrored points. *)
Record Reflected (h : Q) (p q : Trace.Pen) : Prop := {
  reflected_polylines :
    Trace.polylines p = map (map (mirror h)) (Trace.polylines q);
  reflected_current :
    Trace.currentPolyline p = map (mirror h) (Trace.currentPolyline q);
  reflected_x : Trace.currentX p = Trace.currentX q;
  reflected_y : Trace.currentY p = Trace.currentY q;
  reflected_startX : Trace.startX p = Trace.startX q;
  reflected_startY : Trace.startY p = Trace.startY q
}.

(** A path of moves, lines and closes. *)
Definition squarePath : string := "M0 0 L10 0 L10 10 L0 10 Z".

(** A colour component that [rgb] of the document library accepts. *)
Definition isFraction (q : Q) : Prop := 0 <= q /\ q <= 1.

Definition fractions (c : PdfColour.Rgb) : Prop :=
  isFraction (PdfColour.r c) /\ isFraction (PdfColour.g c) /\ isFraction (PdfColour.b c).

(** A string that [trimStart] leaves alone. *)
Definition startsBlack (s : string) : bool :=
  match s with
  | String c _ => negb (isWhiteSpace c)
  | EmptyString => true
  end.

(** ** Vocabulary of the machine arithmetic *)

(** ** Measures on which the packers compute exactly *)

(** A measure on the grid of step [2^scale]: a whole number of steps
    between 0 and [2^50].  For a scale between -1074 and 970 it is a
    binary64 number, and so is every sum and difference that the packers
    form of such measures. *)
Definition measure (scale : Z) (q : Q) : Prop :=
  exists k : Z, (0 <= k <= 2 ^ 50)%Z /\ q == inject_Z k * Binary64.pow2 scale.

Definition exactSheet (scale : Z) (sheet : SheetConfig) : Prop :=
  (-1074 <= scale <= 970)%Z /\
  measure scale (width sheet) /\ measure scale (height sheet) /\
  measure scale (margin sheet) /\ measure scale (gap sheet).

Definition exactSetup (scale : Z) (s : LabelSetup) : Prop :=
  measure scale (labelLengthMm s) /\ measure scale (labelHeightMm s).

(** A number of the grid between [lo] and [hi] steps. *)
Definition onGrid (scale lo hi : Z) (q : Q) : Prop :=
  exists k : Z, (lo <= k <= hi)%Z /\ q == inject_Z k * Binary64.pow2 scale.

(** Labels, sheets and cursors that hold the same numbers. *)
Definition sameLabel (p q : Dxf.PlacedLabel) : Prop :=
  Dxf.setup p = Dxf.setup q /\ Dxf.x p == Dxf.x q /\ Dxf.y p == Dxf.y q.

Definition sameSheet (a b : Dxf.DxfSheet) : Prop :=
  Dxf.pageNumber a = Dxf.pageNumber b /\ Forall2 sameLabel (Dxf.labels a) (Dxf.labels b).

(** The cursor of the machine packer beside the cursor of the exact packer
    at the same point of the loop: they hold the same numbers, and these
    are grid numbers, at most [xHigh] steps across and at least [yLow]
    steps up. *)
Record Exact (scale xHigh yLow : Z) (machine exact : Dxf.Cursor) : Prop := {
  exact_sheets : Forall2 sameSheet (Dxf.sheets machine) (Dxf.sheets exact);
  exact_current : sameSheet (Dxf.currentSheet machine) (Dxf.currentSheet exact);
  exact_x : Dxf.currentX machine == Dxf.currentX exact;
  exact_y : Dxf.currentY machine == Dxf.currentY exact;
  exact_row : Dxf.rowHeight machine == Dxf.rowHeight exact;
  grid_x : onGrid scale 0 xHigh (Dxf.currentX exact);
  grid_y : onGrid scale yLow (2 ^ 50) (Dxf.currentY exact);
  grid_row : onGrid scale 0 (2 ^ 50) (Dxf.rowHeight exact)
}.

(** Footprints with the same numbers. *)
Definition sameFootprint (f g : Footprint) : Prop :=
  left f == left g /\ bottom f == bottom g /\ across f == across g /\ up f == up g.


(** A sheet so wide, and a label so long, that the advance of the cursor by
    a label of length 1 is rounded away. *)
Definition wideSheet : SheetConfig :=
  {| width := 100000000000000000; height := 300; margin := 0; gap := 0 |}.

Definition longAndShort : list LabelSetup :=
  [plainLabel 1 9007199254740992 7; plainLabel 3 1 7].

(** The unit roundoff of binary64 and the tolerance of the text fit. *)
Definition unitRoundoff : Q := Binary64.pow2 (-53).
Definition fitTolerance : Q := Binary64.pow2 (-48).

(** [a] is [b] up to the tolerance, relative to [b]. *)
Definition within (tolerance a b : Q) : Prop := Qabs (a - b) <= tolerance * b.

(** A binary64 number: fewer than 54 bits at a place of binary64. *)
Definition binary64 (q : Q) : Prop :=
  exists m e : Z,
    (Z.abs m < 2 ^ 53)%Z /\ (-1074 <= e <= 970)%Z /\ q == inject_Z m * Binary64.pow2 e.

(** The inputs of the text fit for which the machine result is compared
    with the exact one: a text that is not empty, binary64 numbers, a
    desired height of at least the floor 0.5, and magnitudes up to [2^500],
    which keep every intermediate result finite. *)
Definition fitInput (content : string) (maxWidth desiredHeight padding : Q) : Prop :=
  content <> EmptyString /\
  (Z.of_nat (String.length content) < 2 ^ 53)%Z /\
  binary64 maxWidth /\ binary64 desiredHeight /\ binary64 padding /\
  1 # 2 <= desiredHeight /\ desiredHeight <= Binary64.pow2 500 /\
  Qabs maxWidth <= Binary64.pow2 500 /\ Qabs padding <= Binary64.pow2 500.

(** * Proofs *)

(** ** Comparisons *)

Lemma Qlt_bool_iff (a b : Q) : Qlt_bool a b = true <-> a < b.
Proof.
  unfold Qlt_bool. rewrite negb_true_iff.
  destruct (Qle_bool b a) eqn:E.
  - apply Qle_bool_iff in E. split; [discriminate | intros; lra].
  - split; [intros _ | reflexivity].
    apply Qnot_le_lt. intro L. apply Qle_bool_iff in L. congruence.
Qed.

Lemma Qlt_bool_spec (a b : Q) : reflect (a < b) (Qlt_bool a b).
Proof. apply iff_reflect. symmetry. apply Qlt_bool_iff. Qed.

Lemma Qle_bool_spec (a b : Q) : reflect (a <= b) (Qle_bool a b).
Proof. apply iff_reflect. symmetry. apply Qle_bool_iff. Qed.

Lemma Qeq_bool_spec (a b : Q) : reflect (a == b) (Qeq_bool a b).
Proof. apply iff_reflect. symmetry. apply Qeq_bool_iff. Qed.

(** Splits on the next comparison of the goal and records its outcome. *)
Ltac test_number :=
  match goal with
  | |- context [Qlt_bool ?a ?b] => destruct (Qlt_bool_spec a b)
  | |- context [Qle_bool ?a ?b] => destruct (Qle_bool_spec a b)
  | |- context [Qeq_bool ?a ?b] => destruct (Qeq_bool_spec a b)
  end.

Lemma Math_max_l (a b : Q) : a <= Math_max a b.
Proof. unfold Math_max. test_number; lra. Qed.

Lemma Math_max_r (a b : Q) : b <= Math_max a b.
Proof. unfold Math_max. test_number; lra. Qed.

Lemma Math_max_case (a b : Q) : Math_max a b = a \/ Math_max a b = b.
Proof. unfold Math_max. destruct (Qle_bool a b); auto. Qed.

(** ** Loops as folds *)

Lemma fold_left_invariant {A B : Type} (f : A -> B -> A) (P : A -> Prop)
    (Item : B -> Prop) (l : list B) (a : A) :
  P a -> Forall Item l -> (forall a b, P a -> Item b -> P (f a b)) ->
  P (fold_left f l a).
Proof.
  intros Ha Hl Hstep. revert a Ha.
  induction Hl as [| b l Hb _ IH]; intros a Ha; simpl; auto.
Qed.

Lemma list_sum_snoc (l : list nat) (n : nat) :
  list_sum (l ++ [n]) = (list_sum l + n)%nat.
Proof. rewrite list_sum_app. simpl. lia. Qed.

(** ** The two packers agree *)

Lemma seedRow_toPdf (h : Q) (c : Dxf.Cursor) :
  cursorToPdf (Dxf.seedRow h c) = Pdf.seedRow h (cursorToPdf c).
Proof.
  unfold Dxf.seedRow, Pdf.seedRow. simpl.
  destruct (Qeq_bool (Dxf.rowHeight c) 0); reflexivity.
Qed.

Lemma wrapRow_toPdf (sheet : SheetConfig) (w h : Q) (c : Dxf.Cursor) :
  cursorToPdf (Dxf.wrapRow sheet w h c) = Pdf.wrapRow sheet w h (cursorToPdf c).
Proof.
  unfold Dxf.wrapRow, Pdf.wrapRow. simpl.
  destruct (Qlt_bool _ _); reflexivity.
Qed.

Lemma newSheet_toPdf (sheet : SheetConfig) (h : Q) (c : Dxf.Cursor) :
  cursorToPdf (Dxf.newSheet sheet h c) = Pdf.newSheet sheet h (cursorToPdf c).
Proof.
  unfold Dxf.newSheet, Pdf.newSheet. simpl.
  destruct (Qlt_bool _ _); [| reflexivity].
  unfold cursorToPdf; simpl.
  destruct (Dxf.labels (Dxf.currentSheet c)) eqn:E; simpl;
    rewrite ?map_app; simpl; rewrite ?E; reflexivity.
Qed.

Lemma pushLabel_toPdf (sheet : SheetConfig) (label : LabelSetup) (c : Dxf.Cursor) :
  cursorToPdf (Dxf.pushLabel sheet label c) = Pdf.pushLabel sheet label (cursorToPdf c).
Proof.
  unfold Dxf.pushLabel, Pdf.pushLabel, cursorToPdf. simpl.
  rewrite map_app. reflexivity.
Qed.

Lemma place_toPdf (sheet : SheetConfig) (c : Dxf.Cursor) (label : LabelSetup) :
  cursorToPdf (Dxf.place sheet c label) = Pdf.place sheet (cursorToPdf c) label.
Proof.
  unfold Dxf.place, Pdf.place.
  rewrite pushLabel_toPdf, newSheet_toPdf, wrapRow_toPdf, seedRow_toPdf.
  reflexivity.
Qed.

Lemma fold_place_toPdf (sheet : SheetConfig) (ls : list LabelSetup) (c : Dxf.Cursor) :
  cursorToPdf (fold_left (Dxf.place sheet) ls c)
  = fold_left (Pdf.place sheet) ls (cursorToPdf c).
Proof.
  revert c. induction ls as [| l ls IH]; intros c; simpl; [reflexivity |].
  rewrite IH, place_toPdf. reflexivity.
Qed.

Lemma arrange_toPdf (setups : list LabelSetup) (sheet : SheetConfig) :
  Pdf.arrangeLabelsOnSheets setups sheet
  = map (fun sh => map toPdf (Dxf.labels sh)) (Dxf.arrangeLabelsOnSheets setups sheet).
Proof.
  unfold Pdf.arrangeLabelsOnSheets, Dxf.arrangeLabelsOnSheets.
  change (Pdf.start sheet) with (cursorToPdf (Dxf.start sheet)).
  rewrite <- fold_place_toPdf.
  generalize (fold_left (Dxf.place sheet) (expandQuantities setups) (Dxf.start sheet)).
  intros [shs [pn ls] cx cy rh]. unfold Pdf.finish, Dxf.finish, cursorToPdf; simpl.
  destruct ls; simpl; rewrite ?map_app; reflexivity.
Qed.

(** ** The packer: sheets are never empty, and every request is placed *)

Lemma place_sheets_nonempty (sheet : SheetConfig) (c : Dxf.Cursor) (label : LabelSetup) :
  Forall (fun sh => Dxf.labels sh <> []) (Dxf.sheets c) ->
  Forall (fun sh => Dxf.labels sh <> []) (Dxf.sheets (Dxf.place sheet c label)).
Proof.
  intros Hc. unfold Dxf.place, Dxf.pushLabel; simpl.
  unfold Dxf.newSheet.
  destruct (Qlt_bool _ _); simpl.
  - unfold Dxf.wrapRow. destruct (Qlt_bool _ _); simpl;
      unfold Dxf.seedRow; destruct (Qeq_bool _ _); simpl;
      destruct (Dxf.labels (Dxf.currentSheet c)) eqn:E; auto;
      apply Forall_app; split; auto; constructor; auto; congruence.
  - unfold Dxf.wrapRow. destruct (Qlt_bool _ _); simpl;
      unfold Dxf.seedRow; destruct (Qeq_bool _ _); simpl; auto.
Qed.

Lemma finish_nonempty (c : Dxf.Cursor) :
  Forall (fun sh => Dxf.labels sh <> []) (Dxf.sheets c) ->
  Forall (fun sh => Dxf.labels sh <> []) (Dxf.finish c).
Proof.
  intros Hc. unfold Dxf.finish.
  destruct (Dxf.labels (Dxf.currentSheet c)) eqn:E; auto.
  apply Forall_app; split; auto. constructor; auto. congruence.
Qed.

Lemma arrange_nonempty (setups : list LabelSetup) (sheet : SheetConfig) :
  Forall (fun sh => Dxf.labels sh <> []) (Dxf.arrangeLabelsOnSheets setups sheet).
Proof.
  unfold Dxf.arrangeLabelsOnSheets. apply finish_nonempty.
  apply fold_left_invariant with (Item := fun _ => True).
  - constructor.
  - apply Forall_forall; auto.
  - intros a b Ha _. apply place_sheets_nonempty, Ha.
Qed.

(** C10.  Every sheet that either packer returns holds at least one placed
    label, and an empty list of setups gives no sheet at all. *)
Theorem packer_returns_no_empty_sheet (setups : list LabelSetup) (sheet : SheetConfig) :
  Forall (fun sh => Dxf.labels sh <> []) (Dxf.arrangeLabelsOnSheets setups sheet) /\
  Forall (fun sh => sh <> []) (Pdf.arrangeLabelsOnSheets setups sheet) /\
  Dxf.arrangeLabelsOnSheets [] sheet = [] /\
  Pdf.arrangeLabelsOnSheets [] sheet = [].
Proof.
  pose proof (arrange_nonempty setups sheet) as Hd.
  repeat split; try reflexivity; auto.
  rewrite arrange_toPdf. apply Forall_map.
  eapply Forall_impl; [| exact Hd]. simpl.
  intros sh Hsh Hempty. apply Hsh.
  destruct (Dxf.labels sh); [reflexivity | discriminate].
Qed.

Lemma totalPlaced_snoc (shs : list Dxf.DxfSheet) (sh : Dxf.DxfSheet) :
  totalPlaced (shs ++ [sh]) = (totalPlaced shs + List.length (Dxf.labels sh))%nat.
Proof. unfold totalPlaced. rewrite map_app. simpl. apply list_sum_snoc. Qed.

Lemma seedRow_placed (h : Q) (c : Dxf.Cursor) :
  placedSoFar (Dxf.seedRow h c) = placedSoFar c.
Proof. unfold Dxf.seedRow. destruct (Qeq_bool _ _); reflexivity. Qed.

Lemma wrapRow_placed (sheet : SheetConfig) (w h : Q) (c : Dxf.Cursor) :
  placedSoFar (Dxf.wrapRow sheet w h c) = placedSoFar c.
Proof. unfold Dxf.wrapRow. destruct (Qlt_bool _ _); reflexivity. Qed.

Lemma newSheet_placed (sheet : SheetConfig) (h : Q) (c : Dxf.Cursor) :
  placedSoFar (Dxf.newSheet sheet h c) = placedSoFar c.
Proof.
  unfold Dxf.newSheet. destruct (Qlt_bool _ _); [| reflexivity].
  unfold placedSoFar; simpl.
  destruct (Dxf.labels (Dxf.currentSheet c)) eqn:E; simpl.
  - reflexivity.
  - rewrite totalPlaced_snoc, E. simpl. lia.
Qed.

Lemma pushLabel_placed (sheet : SheetConfig) (label : LabelSetup) (c : Dxf.Cursor) :
  placedSoFar (Dxf.pushLabel sheet label c) = S (placedSoFar c).
Proof.
  unfold placedSoFar, Dxf.pushLabel; simpl. rewrite length_app. simpl. lia.
Qed.

Lemma place_placed (sheet : SheetConfig) (c : Dxf.Cursor) (label : LabelSetup) :
  placedSoFar (Dxf.place sheet c label) = S (placedSoFar c).
Proof.
  unfold Dxf.place.
  rewrite pushLabel_placed, newSheet_placed, wrapRow_placed, seedRow_placed.
  reflexivity.
Qed.

Lemma fold_place_placed (sheet : SheetConfig) (ls : list LabelSetup) (c : Dxf.Cursor) :
  placedSoFar (fold_left (Dxf.place sheet) ls c) = (placedSoFar c + List.length ls)%nat.
Proof.
  revert c. induction ls as [| l ls IH]; intros c; simpl; [lia |].
  rewrite IH, place_placed. lia.
Qed.

Lemma finish_placed (c : Dxf.Cursor) : totalPlaced (Dxf.finish c) = placedSoFar c.
Proof.
  unfold Dxf.finish, placedSoFar.
  destruct (Dxf.labels (Dxf.currentSheet c)) eqn:E; simpl; [lia |].
  rewrite totalPlaced_snoc, E. reflexivity.
Qed.

(** Every request of the expanded list is placed exactly once. *)
Lemma arrange_places_all (setups : list LabelSetup) (sheet : SheetConfig) :
  totalPlaced (Dxf.arrangeLabelsOnSheets setups sheet)
  = List.length (expandQuantities setups).
Proof.
  unfold Dxf.arrangeLabelsOnSheets.
  rewrite finish_placed, fold_place_placed. reflexivity.
Qed.

Lemma totalPlacedPdf_toPdf (shs : list Dxf.DxfSheet) :
  totalPlacedPdf (map (fun sh => map toPdf (Dxf.labels sh)) shs) = totalPlaced shs.
Proof.
  unfold totalPlacedPdf, totalPlaced. rewrite map_map. f_equal.
  apply map_ext. intros sh. apply length_map.
Qed.

Lemma expandQuantities_length (setups : list LabelSetup) :
  List.length (expandQuantities setups)
  = list_sum (map (fun s => roundsBelow (orElse (labelQuantity s) 1)) setups).
Proof.
  unfold expandQuantities.
  induction setups as [| s setups IH]; simpl; [reflexivity |].
  rewrite length_app, repeat_length, IH. reflexivity.
Qed.

Lemma count_is_whole (q : Q) :
  isCount q = true -> exists n : nat, q == inject_Z (Z.of_nat n).
Proof.
  unfold isCount. rewrite andb_true_iff, Qle_bool_iff, Qeq_bool_iff.
  intros [Hpos Hwhole]. exists (Z.to_nat (Qfloor q)).
  rewrite Z2Nat.id; [exact Hwhole |].
  change 0%Z with (Qfloor 0). apply Qfloor_resp_le, Hpos.
Qed.

Lemma roundsBelow_count (n : nat) (q : Q) :
  q == inject_Z (Z.of_nat n) -> roundsBelow q = n.
Proof.
  intros Hq. unfold roundsBelow. rewrite (Qceiling_comp _ _ Hq), Qceiling_Z.
  apply Nat2Z.id.
Qed.

(** A quantity that is a count is read as itself, except that 0 is read
    as 1. *)
Lemma read_quantity_count (q : Q) :
  isCount q = true ->
  inject_Z (Z.of_nat (roundsBelow (orElse q 1))) == orElse q 1.
Proof.
  intros Hq. destruct (count_is_whole q Hq) as [n Hn].
  unfold orElse, truthy. destruct (Qeq_bool_spec q 0) as [Hz | Hnz]; simpl.
  - reflexivity.
  - rewrite (roundsBelow_count n q Hn). symmetry. exact Hn.
Qed.

Lemma sum_read_quantities (setups : list LabelSetup) :
  forallb (fun s => isCount (labelQuantity s)) setups = true ->
  inject_Z (Z.of_nat (list_sum (map (fun s => roundsBelow (orElse (labelQuantity s) 1))
                                    setups)))
  == sumReadQuantities setups.
Proof.
  induction setups as [| s setups IH]; simpl; intros Hall.
  - reflexivity.
  - apply andb_true_iff in Hall. destruct Hall as [Hs Hrest].
    rewrite Nat2Z.inj_add, inject_Z_plus, IH by exact Hrest.
    rewrite read_quantity_count by exact Hs. reflexivity.
Qed.

(** C1, as the code has it.  Both packers place as many labels as the
    expansion loop makes requests: for each setup the rounds of
    [for (i = 0; i < (labelQuantity || 1); i++)].  When every quantity is a
    count, that is the sum of the quantities with 0 read as 1. *)
Theorem packing_conserves_read_quantities (setups : list LabelSetup) (sheet : SheetConfig) :
  let requests :=
    list_sum (map (fun s => roundsBelow (orElse (labelQuantity s) 1)) setups) in
  totalPlaced (Dxf.arrangeLabelsOnSheets setups sheet) = requests /\
  totalPlacedPdf (Pdf.arrangeLabelsOnSheets setups sheet) = requests /\
  (forallb (fun s => isCount (labelQuantity s)) setups = true ->
   inject_Z (Z.of_nat (totalPlaced (Dxf.arrangeLabelsOnSheets setups sheet)))
     == sumReadQuantities setups /\
   inject_Z (Z.of_nat (totalPlacedPdf (Pdf.arrangeLabelsOnSheets setups sheet)))
     == sumReadQuantities setups).
Proof.
  intros requests.
  assert (Hd : totalPlaced (Dxf.arrangeLabelsOnSheets setups sheet) = requests).
  { rewrite arrange_places_all. apply expandQuantities_length. }
  assert (Hp : totalPlacedPdf (Pdf.arrangeLabelsOnSheets setups sheet) = requests).
  { rewrite arrange_toPdf, totalPlacedPdf_toPdf. exact Hd. }
  repeat split; auto.
  - rewrite Hd. apply sum_read_quantities. assumption.
  - rewrite Hp. apply sum_read_quantities. assumption.
Qed.

(** At three setups of quantities 2, 0 and 3, five plus one labels are
    placed. *)
Lemma packing_conserves_read_quantities_witness :
  forallb (fun s => isCount (labelQuantity s)) mixedQuantities = true /\
  inject_Z (Z.of_nat (totalPlaced (Dxf.arrangeLabelsOnSheets mixedQuantities DEFAULT_SHEET)))
    == 6 /\
  inject_Z (Z.of_nat (totalPlacedPdf (Pdf.arrangeLabelsOnSheets mixedQuantities DEFAULT_SHEET)))
    == 6.
Proof.
  assert (Hc : forallb (fun s => isCount (labelQuantity s)) mixedQuantities = true)
    by reflexivity.
  split; [exact Hc |].
  destruct (packing_conserves_read_quantities mixedQuantities DEFAULT_SHEET) as [_ [_ H]].
  destruct (H Hc) as [Hd Hp].
  split; [rewrite Hd | rewrite Hp]; reflexivity.
Defined.

(** C1 as stated fails: one setup of quantity 0 is packed as one label,
    while the quantities sum to 0. *)
Lemma conservation_fails_at_quantity_zero :
  zeroQuantity <> [] /\
  totalPlaced (Dxf.arrangeLabelsOnSheets zeroQuantity DEFAULT_SHEET) = 1%nat /\
  ~ inject_Z (Z.of_nat (totalPlaced (Dxf.arrangeLabelsOnSheets zeroQuantity DEFAULT_SHEET)))
      == sumQuantities zeroQuantity.
Proof.
  split; [discriminate |]. split; [reflexivity |].
  vm_compute. discriminate.
Qed.

(** ** The packer: labels of a sheet do not overlap *)

Lemma ForallOrdPairs_snoc {A : Type} (R : A -> A -> Prop) (l : list A) (a : A) :
  ForallOrdPairs R l -> Forall (fun b => R b a) l -> ForallOrdPairs R (l ++ [a]).
Proof.
  induction 1 as [| b l Hb Hl IH]; simpl; intros Ha.
  - constructor; constructor.
  - inversion Ha; subst. constructor.
    + apply Forall_app; split; auto.
    + apply IH; assumption.
Qed.

Lemma start_separated (sheet : SheetConfig) : Separated (Dxf.start sheet).
Proof. constructor; simpl; try constructor. lra. Qed.

Lemma seedRow_separated (h : Q) (c : Dxf.Cursor) :
  0 <= h -> Separated c -> Separated (Dxf.seedRow h c).
Proof.
  intros Hh [Hs Hc Hr Hrh]. unfold Dxf.seedRow.
  destruct (Qeq_bool_spec (Dxf.rowHeight c) 0) as [Hz | _];
    constructor; simpl; auto.
  eapply Forall_impl; [| exact Hr].
  unfold rowBound; simpl. intros p [Hab | [Hx Hy]]; [left | right]; auto.
  split; [exact Hx | lra].
Qed.

Lemma wrapRow_separated (sheet : SheetConfig) (w h : Q) (c : Dxf.Cursor) :
  0 <= gap sheet -> 0 <= h -> Separated c -> Separated (Dxf.wrapRow sheet w h c).
Proof.
  intros Hg Hh [Hs Hc Hr Hrh]. unfold Dxf.wrapRow.
  destruct (Qlt_bool _ _); constructor; simpl; auto.
  eapply Forall_impl; [| exact Hr].
  unfold rowBound; simpl. intros p [Hab | [Hx Hy]]; left; lra.
Qed.

Lemma newSheet_separated (sheet : SheetConfig) (h : Q) (c : Dxf.Cursor) :
  0 <= h -> Separated c -> Separated (Dxf.newSheet sheet h c).
Proof.
  intros Hh [Hs Hc Hr Hrh]. unfold Dxf.newSheet.
  destruct (Qlt_bool _ _); constructor; simpl; auto; try constructor.
  destruct (Dxf.labels (Dxf.currentSheet c)) eqn:E; auto.
  apply Forall_app; split; auto. constructor; auto. rewrite E. exact Hc.
Qed.

Lemma pushLabel_separated (sheet : SheetConfig) (label : LabelSetup) (c : Dxf.Cursor) :
  0 <= gap sheet -> properSize label ->
  Separated c -> Separated (Dxf.pushLabel sheet label c).
Proof.
  intros Hg [Hw Hh] [Hs Hc Hr Hrh]. unfold Dxf.pushLabel.
  constructor; simpl; auto.
  - rewrite map_app. simpl. apply ForallOrdPairs_snoc; [exact Hc |].
    apply Forall_map. eapply Forall_impl; [| exact Hr].
    unfold rowBound, apart, footprint; simpl.
    intros p [Hab | [Hx Hy]]; [right; right; right; lra | left; lra].
  - apply Forall_app; split.
    + eapply Forall_impl; [| exact Hr].
      pose proof (Math_max_l (Dxf.rowHeight c) (labelHeightMm label)).
      unfold rowBound; simpl. intros p [Hab | [Hx Hy]]; [left | right]; auto.
      split; lra.
    + constructor; [| constructor].
      pose proof (Math_max_r (Dxf.rowHeight c) (labelHeightMm label)).
      unfold rowBound; simpl. right. split; lra.
  - pose proof (Math_max_l (Dxf.rowHeight c) (labelHeightMm label)). lra.
Qed.

Lemma place_separated (sheet : SheetConfig) (c : Dxf.Cursor) (label : LabelSetup) :
  0 <= gap sheet -> properSize label ->
  Separated c -> Separated (Dxf.place sheet c label).
Proof.
  intros Hg Hl Hc. pose proof Hl as [_ Hh]. unfold Dxf.place.
  apply pushLabel_separated; auto.
  apply newSheet_separated; auto.
  apply wrapRow_separated; auto.
  apply seedRow_separated; auto.
Qed.

Lemma finish_separated (c : Dxf.Cursor) :
  Separated c ->
  Forall (fun sh => pairwiseApart (map footprint (Dxf.labels sh))) (Dxf.finish c).
Proof.
  intros [Hs Hc _ _]. unfold Dxf.finish.
  destruct (Dxf.labels (Dxf.currentSheet c)) eqn:E; auto.
  apply Forall_app; split; auto. constructor; auto. rewrite E. exact Hc.
Qed.

Lemma expandQuantities_Forall (P : LabelSetup -> Prop) (setups : list LabelSetup) :
  Forall P setups -> Forall P (expandQuantities setups).
Proof.
  intros Hall. unfold expandQuantities. apply Forall_flat_map.
  eapply Forall_impl; [| exact Hall]. simpl.
  intros s Hs. apply Forall_forall. intros s' Hin.
  apply repeat_spec in Hin. subst. exact Hs.
Qed.

Lemma footprint_toPdf (ls : list Dxf.PlacedLabel) :
  map footprintPdf (map toPdf ls) = map footprint ls.
Proof. rewrite map_map. reflexivity. Qed.

(** The exact packers: when the gap is not negative and no setup has a
    negative length or height, any two labels at different places of a
    returned sheet are apart. *)
Lemma exact_packer_separates (setups : list LabelSetup) (sheet : SheetConfig) :
  0 <= gap sheet ->
  Forall properSize setups ->
  Forall (fun sh => pairwiseApart (map footprint (Dxf.labels sh)))
         (Dxf.arrangeLabelsOnSheets setups sheet) /\
  Forall (fun sh => pairwiseApart (map footprintPdf sh))
         (Pdf.arrangeLabelsOnSheets setups sheet).
Proof.
  intros Hg Hsizes.
  assert (Hd : Forall (fun sh => pairwiseApart (map footprint (Dxf.labels sh)))
                      (Dxf.arrangeLabelsOnSheets setups sheet)).
  { unfold Dxf.arrangeLabelsOnSheets. apply finish_separated.
    apply fold_left_invariant with (Item := properSize).
    - apply start_separated.
    - apply expandQuantities_Forall, Hsizes.
    - intros c l Hc Hl. apply place_separated; assumption. }
  split; [exact Hd |].
  rewrite arrange_toPdf. apply Forall_map.
  eapply Forall_impl; [| exact Hd]. simpl.
  intros sh Hsh. rewrite footprint_toPdf. exact Hsh.
Qed.

(** ** The packer: 20 x 7 labels on the default sheet *)

Lemma inject_Z_le (a b : Z) : (a <= b)%Z -> inject_Z a <= inject_Z b.
Proof. intros Hab. rewrite <- Zle_Qle. exact Hab. Qed.

Lemma inject_Z_minus (a b : Z) : inject_Z (a - b) = inject_Z a - inject_Z b.
Proof. unfold Z.sub, Qminus. rewrite inject_Z_plus, inject_Z_opp. reflexivity. Qed.

Lemma start_filling : filling 0 (Dxf.start DEFAULT_SHEET).
Proof.
  unfold filling; simpl.
  split; [reflexivity |]. split; [reflexivity |]. split; [reflexivity |].
  split; [constructor |].
  split; [left; split; reflexivity |].
  exists 0%Z, 0%Z. repeat split; try lia; reflexivity.
Qed.

(** Reduces the projections of the cursor records only. *)
Ltac cursor_fields :=
  cbn [Dxf.sheets Dxf.currentSheet Dxf.labels Dxf.pageNumber
       Dxf.currentX Dxf.currentY Dxf.rowHeight
       width height margin gap DEFAULT_SHEET] in *.

Lemma place_filling (k : nat) (c : Dxf.Cursor) (label : LabelSetup) :
  (k < 1260)%nat -> smallLabel label -> filling k c ->
  filling (S k) (Dxf.place DEFAULT_SHEET c label).
Proof.
  intros Hk [Hw Hh] (Hs & Hpn & Hlen & Hslots & Hrh & row & col & Hrow & Hcol & Hkk & Hx & Hy).
  pose proof (inject_Z_le 0 row Hrow) as Hrow0.
  pose proof (inject_Z_le 0 col (proj1 Hcol)) as Hcol0.
  pose proof (inject_Z_le col 30 (proj2 Hcol)) as Hcol30.
  change (inject_Z 0) with 0 in Hrow0, Hcol0. change (inject_Z 30) with 30 in Hcol30.
  unfold Dxf.place.
  (* the row height after seeding *)
  set (c1 := Dxf.seedRow (labelHeightMm label) c).
  assert (H1 : Dxf.sheets c1 = Dxf.sheets c /\ Dxf.currentSheet c1 = Dxf.currentSheet c /\
               Dxf.currentX c1 = Dxf.currentX c /\ Dxf.currentY c1 = Dxf.currentY c /\
               Dxf.rowHeight c1 == 7).
  { unfold c1, Dxf.seedRow. test_number; cursor_fields; repeat split; auto.
    destruct Hrh as [[_ Hz] | H7]; [contradiction | exact H7]. }
  destruct H1 as (Hs1 & Hcs1 & Hx1 & Hy1 & Hrh1). clearbody c1.
  destruct (Z_le_gt_dec col 29) as [Hroom | Hfull].
  - (* the row has room *)
    pose proof (inject_Z_le col 29 Hroom) as Hcol29. change (inject_Z 29) with 29 in Hcol29.
    assert (Hrow41 : (row <= 41)%Z) by lia.
    pose proof (inject_Z_le row 41 Hrow41) as Hrow41q. change (inject_Z 41) with 41 in Hrow41q.
    unfold Dxf.wrapRow. test_number; [cursor_fields; rewrite Hx1 in *; lra |].
    unfold Dxf.newSheet. test_number; [cursor_fields; rewrite Hy1 in *; lra |].
    unfold filling, Dxf.pushLabel; cursor_fields. rewrite Hs1, Hcs1, Hx1, Hy1.
    split; [assumption |]. split; [assumption |].
    split; [rewrite length_app, Hlen; simpl; lia |].
    split; [| split].
    + rewrite seq_S. apply Forall2_app; [exact Hslots |].
      constructor; [| constructor]. unfold atSlot; cbn [Dxf.x Dxf.y Nat.add].
      assert (Hm : (Z.of_nat k mod 30 = col)%Z)
        by (symmetry; apply (Z.mod_unique _ _ row); lia).
      assert (Hd : (Z.of_nat k / 30 = row)%Z)
        by (symmetry; apply (Z.div_unique _ _ row col); lia).
      rewrite Hm, Hd, !inject_Z_mult, inject_Z_minus, inject_Z_mult, inject_Z_plus.
      change (inject_Z 20) with 20. change (inject_Z 300) with 300.
      change (inject_Z 7) with 7. change (inject_Z 1) with 1.
      split; lra.
    + right. unfold Math_max. test_number; lra.
    + exists row, (col + 1)%Z.
      split; [assumption |]. split; [lia |]. split; [lia |].
      rewrite inject_Z_plus. change (inject_Z 1) with 1. split; lra.
  - (* the row is full: the label opens the next row *)
    assert (Hc30 : col = 30%Z) by lia. subst col.
    assert (Hrow40 : (row <= 40)%Z) by lia.
    pose proof (inject_Z_le row 40 Hrow40) as Hrow40q. change (inject_Z 40) with 40 in Hrow40q.
    change (inject_Z 30) with 30 in Hx.
    unfold Dxf.wrapRow. test_number; [| cursor_fields; rewrite Hx1 in *; lra].
    unfold Dxf.newSheet. test_number; [cursor_fields; rewrite Hy1 in *; lra |].
    unfold filling, Dxf.pushLabel; cursor_fields. rewrite Hs1, Hcs1, Hy1.
    split; [assumption |]. split; [assumption |].
    split; [rewrite length_app, Hlen; simpl; lia |].
    split; [| split].
    + rewrite seq_S. apply Forall2_app; [exact Hslots |].
      constructor; [| constructor]. unfold atSlot; cbn [Dxf.x Dxf.y Nat.add].
      assert (Hm : (Z.of_nat k mod 30 = 0)%Z)
        by (symmetry; apply (Z.mod_unique _ _ (row + 1)); lia).
      assert (Hd : (Z.of_nat k / 30 = row + 1)%Z)
        by (symmetry; apply (Z.div_unique _ _ (row + 1) 0); lia).
      rewrite Hm, Hd. change (inject_Z (20 * 0)) with 0.
      rewrite inject_Z_minus, inject_Z_mult, !inject_Z_plus.
      change (inject_Z 300) with 300.
      change (inject_Z 7) with 7. change (inject_Z 1) with 1.
      split; lra.
    + right. unfold Math_max. test_number; lra.
    + exists (row + 1)%Z, 1%Z.
      split; [lia |]. split; [lia |]. split; [lia |].
      rewrite inject_Z_plus. change (inject_Z 1) with 1. split; lra.
Qed.

Lemma fold_place_filling (ls : list LabelSetup) (k : nat) (c : Dxf.Cursor) :
  (k + List.length ls <= 1260)%nat -> Forall smallLabel ls -> filling k c ->
  filling (k + List.length ls) (fold_left (Dxf.place DEFAULT_SHEET) ls c).
Proof.
  revert k c. induction ls as [| l ls IH]; intros k c Hk Hall Hc; simpl in *.
  - rewrite Nat.add_0_r. exact Hc.
  - inversion Hall; subst.
    replace (k + S (List.length ls))%nat with (S k + List.length ls)%nat by lia.
    apply IH; [lia | assumption |].
    apply place_filling; [lia | assumption | assumption].
Qed.

Lemma positive_count_read (s : LabelSetup) :
  positiveCount s -> orElse (labelQuantity s) 1 = labelQuantity s.
Proof.
  intros [_ Hpos]. unfold orElse, truthy.
  destruct (Qeq_bool_spec (labelQuantity s) 0) as [Hz | _]; [lra | reflexivity].
Qed.

Lemma positive_counts_sum (setups : list LabelSetup) :
  Forall positiveCount setups -> sumReadQuantities setups == sumQuantities setups.
Proof.
  induction 1 as [| s setups Hs _ IH]; simpl; [reflexivity |].
  rewrite (positive_count_read s Hs), IH. reflexivity.
Qed.

Lemma positive_counts_isCount (setups : list LabelSetup) :
  Forall positiveCount setups ->
  forallb (fun s => isCount (labelQuantity s)) setups = true.
Proof.
  intros Hall. apply forallb_forall. intros s Hin.
  rewrite Forall_forall in Hall. apply (Hall s Hin).
Qed.

Lemma positive_count_rounds (s : LabelSetup) :
  positiveCount s -> (1 <= roundsBelow (orElse (labelQuantity s) 1))%nat.
Proof.
  intros Hs. rewrite (positive_count_read s Hs). destruct Hs as [Hc Hpos].
  destruct (count_is_whole _ Hc) as [n Hn].
  rewrite (roundsBelow_count n _ Hn).
  destruct n; [| lia]. change (inject_Z (Z.of_nat 0)) with 0 in Hn. lra.
Qed.

(** More than 1260 small labels do not fit: the 1261st opens a second
    sheet. *)
Lemma one_too_many_opens_second_sheet :
  map (fun sh => (Dxf.pageNumber sh, List.length (Dxf.labels sh)))
      (Dxf.arrangeLabelsOnSheets oneTooMany DEFAULT_SHEET)
  = [(1%nat, 1260%nat); (2%nat, 1%nat)].
Proof. vm_compute. reflexivity. Qed.

(** C3, as the code has it.  Setups that are all 20 x 7, whose quantities
    are counts other than 0 and sum to at most 1260, are packed on the
    default sheet (600 x 300, margin 0, gap 0) as exactly one sheet, page 1,
    which holds every label: label [j] stands in column [j mod 30] of row
    [j / 30], so a row holds 30 labels and the 42 rows hold 1260. *)
Theorem small_labels_fit_one_sheet (setups : list LabelSetup) :
  setups <> [] ->
  Forall smallLabel setups ->
  Forall positiveCount setups ->
  sumQuantities setups <= 1260 ->
  exists sh : Dxf.DxfSheet,
    Dxf.arrangeLabelsOnSheets setups DEFAULT_SHEET = [sh] /\
    Dxf.pageNumber sh = 1%nat /\
    inject_Z (Z.of_nat (List.length (Dxf.labels sh))) == sumQuantities setups /\
    Forall2 atSlot (seq 0 (List.length (Dxf.labels sh))) (Dxf.labels sh) /\
    Pdf.arrangeLabelsOnSheets setups DEFAULT_SHEET = [map toPdf (Dxf.labels sh)].
Proof.
  intros Hne Hsmall Hpos Hsum.
  set (n := List.length (expandQuantities setups)).
  assert (Hn : inject_Z (Z.of_nat n) == sumQuantities setups).
  { unfold n. rewrite expandQuantities_length.
    rewrite sum_read_quantities by (apply positive_counts_isCount, Hpos).
    apply positive_counts_sum, Hpos. }
  assert (Hle : (n <= 1260)%nat).
  { apply Nat2Z.inj_le. rewrite Zle_Qle, Hn. exact Hsum. }
  assert (Hge : (1 <= n)%nat).
  { unfold n. rewrite expandQuantities_length.
    destruct setups as [| s setups]; [congruence |].
    inversion Hpos; subst. simpl.
    pose proof (positive_count_rounds s ltac:(assumption)). lia. }
  pose proof (fold_place_filling (expandQuantities setups) 0 (Dxf.start DEFAULT_SHEET)
                Hle (expandQuantities_Forall _ _ Hsmall) start_filling) as Hfill.
  simpl in Hfill. fold n in Hfill.
  destruct Hfill as (Hs & Hpn & Hlen & Hslots & _).
  assert (Hd : Dxf.arrangeLabelsOnSheets setups DEFAULT_SHEET
               = [Dxf.currentSheet (fold_left (Dxf.place DEFAULT_SHEET)
                                       (expandQuantities setups)
                                       (Dxf.start DEFAULT_SHEET))]).
  { unfold Dxf.arrangeLabelsOnSheets, Dxf.finish. rewrite Hs.
    destruct (Dxf.labels _) eqn:E; [simpl in Hlen; lia | reflexivity]. }
  eexists. split; [exact Hd |].
  split; [exact Hpn |]. rewrite Hlen.
  split; [exact Hn |]. split; [exact Hslots |].
  rewrite arrange_toPdf, Hd. reflexivity.
Qed.

Lemma fullSheet_small : Forall smallLabel fullSheet.
Proof. repeat constructor; reflexivity. Defined.

Lemma fullSheet_positive : Forall positiveCount fullSheet.
Proof. repeat constructor; reflexivity. Defined.

Lemma fullSheet_sum : sumQuantities fullSheet <= 1260.
Proof. vm_compute. discriminate. Defined.

Lemma fullSheet_nonempty : fullSheet <> [].
Proof. discriminate. Defined.

(** Quantities 400, 500 and 360 of 20 x 7 labels: one sheet. *)
Lemma small_labels_fit_one_sheet_witness :
  fullSheet <> [] /\
  Forall smallLabel fullSheet /\
  Forall positiveCount fullSheet /\
  sumQuantities fullSheet <= 1260 /\
  exists sh : Dxf.DxfSheet,
    Dxf.arrangeLabelsOnSheets fullSheet DEFAULT_SHEET = [sh] /\
    Dxf.pageNumber sh = 1%nat /\
    inject_Z (Z.of_nat (List.length (Dxf.labels sh))) == sumQuantities fullSheet /\
    Forall2 atSlot (seq 0 (List.length (Dxf.labels sh))) (Dxf.labels sh) /\
    Pdf.arrangeLabelsOnSheets fullSheet DEFAULT_SHEET = [map toPdf (Dxf.labels sh)].
Proof.
  split; [exact fullSheet_nonempty |].
  split; [exact fullSheet_small |].
  split; [exact fullSheet_positive |].
  split; [exact fullSheet_sum |].
  exact (small_labels_fit_one_sheet fullSheet fullSheet_nonempty fullSheet_small
           fullSheet_positive fullSheet_sum).
Defined.

(** C3 as stated fails: the quantities 1260 and 0 of 20 x 7 labels sum to
    1260, yet 1261 labels are placed and the last one is on a second
    sheet. *)
Lemma one_sheet_fails_with_quantity_zero :
  Forall smallLabel fullSheetAndZero /\
  sumQuantities fullSheetAndZero <= 1260 /\
  map (fun sh => (Dxf.pageNumber sh, List.length (Dxf.labels sh)))
      (Dxf.arrangeLabelsOnSheets fullSheetAndZero DEFAULT_SHEET)
  = [(1%nat, 1260%nat); (2%nat, 1%nat)] /\
  ~ exists sh : Dxf.DxfSheet,
      Dxf.arrangeLabelsOnSheets fullSheetAndZero DEFAULT_SHEET = [sh].
Proof.
  assert (Hlen : List.length (Dxf.arrangeLabelsOnSheets fullSheetAndZero DEFAULT_SHEET)
                 = 2%nat) by (vm_compute; reflexivity).
  split; [repeat constructor; reflexivity |].
  split; [vm_compute; discriminate |].
  split; [vm_compute; reflexivity |].
  intros [sh Hsh]. rewrite Hsh in Hlen. discriminate Hlen.
Qed.

(** ** The text fit *)

Lemma Math_max_comp (a b b' : Q) : b == b' -> Math_max a b == Math_max a b'.
Proof.
  intros Hb. unfold Math_max. rewrite Hb.
  destruct (Qle_bool a b'); [exact Hb | reflexivity].
Qed.

Lemma valid_line_length (line : LabelLine) :
  DxfExport.isValidLine line = true ->
  0 < inject_Z (Z.of_nat (String.length (text line))).
Proof.
  unfold DxfExport.isValidLine. destruct (text line); simpl; [discriminate |].
  intros _. rewrite <- (Zlt_Qlt 0). lia.
Qed.

(** ** The hole plan *)

Lemma samePoints_refl (l : list (Q * Q)) : samePoints l l.
Proof. induction l; constructor; auto. split; reflexivity. Qed.










(** ** The path parser *)

Section Tokens.

Import Trace.
Local Open Scope string_scope.

Lemma argumentRun_app (pre rest : string) :
  atCommand rest = true -> argumentRun (pre ++ rest) = argumentRun pre.
Proof.
  intros Hrest. induction pre as [| a pre IH]; simpl.
  - destruct rest as [| c r]; simpl in *; [reflexivity |]. rewrite Hrest. reflexivity.
  - destruct (isCommandLetter a); [reflexivity |]. rewrite IH. reflexivity.
Qed.

Lemma matches_app (pre rest : string) :
  atCommand rest = true -> matches (pre ++ rest) = (matches pre ++ matches rest)%list.
Proof.
  intros Hrest. induction pre as [| a pre IH]; simpl; [reflexivity |].
  rewrite IH, (argumentRun_app pre rest Hrest).
  destruct (isCommandLetter a); reflexivity.
Qed.

Lemma matches_commandFree (run : string) : commandFree run = true -> matches run = [].
Proof.
  induction run as [| a run IH]; simpl; [reflexivity |].
  destruct (isCommandLetter a); simpl; [discriminate | exact IH].
Qed.

Lemma parseSvgPath_app (pre rest : string) :
  atCommand rest = true ->
  parseSvgPath (pre ++ rest) = (parseSvgPath pre ++ parseSvgPath rest)%list.
Proof.
  intros Hrest. unfold parseSvgPath.
  rewrite (matches_app pre rest Hrest). apply flat_map_app.
Qed.

(** The letters without a case: a command letter, and no command. *)
Lemma skipped_letter (c : ascii) :
  isSkippedLetter c = true ->
  isCommandLetter c = true /\ forall args, commandsOf c args = [].
Proof.
  unfold isSkippedLetter. simpl. rewrite !orb_true_iff.
  intros H.
  repeat match goal with
         | H : _ \/ _ |- _ => destruct H as [H | H]
         | H : Ascii.eqb _ _ = true |- _ => apply Ascii.eqb_eq in H; subst c
         end;
    try discriminate; split; reflexivity.
Qed.

End Tokens.

(** C6, as the code has it.  A letter of [S s Q q T t A a], the command
    letters that the tokenizer knows and the parser has no case for, is
    dropped with its argument run: the commands are those of the path
    without the letter and its run.  ([run] is the whole argument run when
    it holds no command letter and is followed by a command letter or by
    the end of the path.) *)
Theorem skipped_letters_are_ignored (pre run post : string) (c : ascii) :
  isSkippedLetter c = true ->
  commandFree run = true ->
  atCommand post = true ->
  Trace.parseSvgPath (pre ++ String c run ++ post)%string
  = Trace.parseSvgPath (pre ++ post)%string.
Proof.
  intros Hc Hrun Hpost.
  destruct (skipped_letter c Hc) as [Hletter Hnone].
  rewrite (parseSvgPath_app pre (String c run ++ post)) by exact Hletter.
  rewrite (parseSvgPath_app pre post Hpost). f_equal.
  change (String c run ++ post)%string with (String c EmptyString ++ (run ++ post))%string.
  unfold Trace.parseSvgPath at 1. simpl.
  rewrite Hletter. simpl. rewrite Hnone. simpl.
  rewrite (matches_app run post Hpost), (matches_commandFree run Hrun). reflexivity.
Qed.

Lemma skipped_letters_are_ignored_witness :
  isSkippedLetter "S" = true /\
  commandFree "5,5 3 4 " = true /\
  atCommand "L1,1" = true /\
  Trace.parseSvgPath "M0,0 S5,5 3 4 L1,1" = Trace.parseSvgPath "M0,0 L1,1".
Proof.
  split; [reflexivity |]. split; [reflexivity |]. split; [reflexivity |].
  exact (skipped_letters_are_ignored "M0,0 " "5,5 3 4 " "L1,1" "S"
           eq_refl eq_refl eq_refl).
Defined.

(** C6 as stated fails: [X] is outside the supported set, but it is not a
    command letter of the tokenizer either.  It stays in the argument run of
    the move before it, where [X5] is read as [NaN], and a second move is
    emitted. *)
Lemma unknown_letter_is_not_ignored :
  map (fun cmd => (Trace.type cmd, Trace.x cmd, Trace.y cmd))
      (Trace.parseSvgPath "M0,0 X5,5 L1,1")
  = [ ("M"%char, Fin 0, Fin 0); ("M"%char, NaN, Fin 5); ("L"%char, Fin 1, Fin 1) ] /\
  map (fun cmd => (Trace.type cmd, Trace.x cmd, Trace.y cmd))
      (Trace.parseSvgPath "M0,0 L1,1")
  = [ ("M"%char, Fin 0, Fin 0); ("L"%char, Fin 1, Fin 1) ] /\
  Trace.parseSvgPath "M0,0 X5,5 L1,1" <> Trace.parseSvgPath "M0,0 L1,1".
Proof.
  split; [reflexivity |]. split; [reflexivity |].
  intros Heq. apply (f_equal (@List.length _)) in Heq.
  vm_compute in Heq. discriminate Heq.
Qed.

(** ** The path walker and the curve flattener *)

(** C7.  The path ["M0,0 L10,0 L10,10 Z"] gives exactly one polyline of the
    four points (0,0), (10,0), (10,10), (0,0), each with its y coordinate
    flipped as configured: unchanged without the flip, [height - y] with it
    (the height left out is 0).  The close command appends the start point
    to the polyline in hand and leaves the finished polylines as they are;
    the end of the commands flushes the polyline in hand. *)
Theorem square_path_gives_one_polyline (flipY : bool) (height : Q) :
  Trace.svgPathToPolylinePoints "M0,0 L10,0 L10,10 Z" (Some flipY) (Some (Fin height))
  = [ map (fun p => (Fin (fst p), Trace.transformY flipY (Fin height) (Fin (snd p))))
          [ (0, 0); (10, 0); (10, 10); (0, 0) ] ] /\
  Trace.svgPathToPolylinePoints "M0,0 L10,0 L10,10 Z" (Some false) None
  = [ [ (Fin 0, Fin 0); (Fin 10, Fin 0); (Fin 10, Fin 10); (Fin 0, Fin 0) ] ] /\
  Trace.svgPathToPolylinePoints "M0,0 L10,0 L10,10 Z" (Some true) (Some (Fin height))
  = [ [ (Fin 0, Fin (height - 0)); (Fin 10, Fin (height - 0));
        (Fin 10, Fin (height - 10)); (Fin 0, Fin (height - 0)) ] ] /\
  Trace.svgPathToPolylinePoints "M0,0 L10,0 L10,10 Z" None None
  = Trace.svgPathToPolylinePoints "M0,0 L10,0 L10,10 Z" (Some true) (Some (Fin 0)) /\
  (forall (h : jsnum) (p : Trace.Pen),
     closesInPlace flipY h p "Z" /\ closesInPlace flipY h p "z").
Proof.
  split; [destruct flipY; reflexivity |].
  split; [reflexivity |].
  split; [reflexivity |].
  split; [reflexivity |].
  intros h p. split; split; reflexivity.
Qed.

Lemma sameNumber_refl (a : jsnum) : sameNumber a a.
Proof. destruct a; simpl; reflexivity. Qed.

Lemma Forall2_map_seq {A : Type} (R : A -> A -> Prop) (f g : nat -> A) (a n : nat) :
  (forall i, (a <= i < a + n)%nat -> R (f i) (g i)) ->
  Forall2 R (map f (seq a n)) (map g (seq a n)).
Proof.
  revert a. induction n as [| n IH]; intros a Hfg; simpl; constructor.
  - apply Hfg. lia.
  - apply IH. intros i Hi. apply Hfg. lia.
Qed.

(** On finite control points the loop body is the blending polynomial. *)
Lemma bezierAt_finite (p0 p1 p2 p3 : Q * Q) (t : Q) :
  samePoint (Trace.bezierAt (finitePoint p0) (finitePoint p1) (finitePoint p2)
                            (finitePoint p3) t)
            (finitePoint (cubicPoint p0 p1 p2 p3 t)).
Proof.
  unfold samePoint, Trace.bezierAt, finitePoint, cubicPoint, cubicBlend; simpl.
  split; ring.
Qed.

Lemma sampleBezier_rounds (n : positive) :
  Z.to_nat (Qfloor (inject_Z (Z.pos n))) = Pos.to_nat n.
Proof. rewrite Qfloor_Z. reflexivity. Qed.

Lemma bezierAt_end (p0 p1 p2 p3 : Q * Q) (t : Q) :
  t == 1 ->
  samePoint (Trace.bezierAt (finitePoint p0) (finitePoint p1) (finitePoint p2)
                            (finitePoint p3) t)
            (finitePoint p3).
Proof.
  intros Ht. unfold samePoint, Trace.bezierAt, finitePoint; simpl.
  split; rewrite Ht; ring.
Qed.

(** C8, as the code has it.  For finite control points and a whole number
    [n >= 1] of segments, [sampleBezier] returns exactly [n] points, the
    [i]-th being the cubic blending polynomial at [t = i / n] for
    [i = 1 .. n]: the start point is not among them and the last one is
    [p3].  A segments count left out is 10; the walker passes 12 for both
    of its curve commands. *)
Theorem flattener_samples_uniform_steps (p0 p1 p2 p3 : Q * Q) (n : positive) :
  let segments := inject_Z (Z.pos n) in
  let points :=
    Trace.sampleBezier (finitePoint p0) (finitePoint p1) (finitePoint p2)
                       (finitePoint p3) (Some segments) in
  List.length points = Pos.to_nat n /\
  samePolyline points
    (map (fun i => finitePoint (cubicPoint p0 p1 p2 p3 (inject_Z (Z.of_nat i) / segments)))
         (seq 1 (Pos.to_nat n))) /\
  samePoint (last points (finitePoint p0)) (finitePoint p3) /\
  (forall q0 q1 q2 q3 : Trace.Point,
     Trace.sampleBezier q0 q1 q2 q3 None = Trace.sampleBezier q0 q1 q2 q3 (Some 10)) /\
  (forall (flipY : bool) (h : jsnum) (p : Trace.Pen) (c1x c1y c2x c2y nx ny : jsnum),
     Trace.currentPolyline (Trace.curveTo flipY h p c1x c1y c2x c2y nx ny)
     = Trace.currentPolyline p
         ++ Trace.sampleBezier
              (Trace.currentX p, Trace.transformY flipY h (Trace.currentY p))
              (c1x, Trace.transformY flipY h c1y)
              (c2x, Trace.transformY flipY h c2y)
              (nx, Trace.transformY flipY h ny)
              (Some 12)).
Proof.
  intros segments points.
  assert (Hpoints :
    points = map (fun i => Trace.bezierAt (finitePoint p0) (finitePoint p1)
                             (finitePoint p2) (finitePoint p3)
                             (inject_Z (Z.of_nat i) / segments))
                 (seq 1 (Pos.to_nat n))).
  { unfold points, Trace.sampleBezier. fold segments.
    unfold segments at 2. rewrite sampleBezier_rounds. reflexivity. }
  split; [rewrite Hpoints, length_map, length_seq; reflexivity |].
  split.
  { rewrite Hpoints. apply Forall2_map_seq. intros i _. apply bezierAt_finite. }
  split.
  { rewrite Hpoints.
    destruct (Pos.to_nat n) as [| m] eqn:Hm; [pose proof (Pos2Nat.is_pos n); lia |].
    rewrite seq_S, map_app. cbn [map]. rewrite last_last. cbn [Nat.add].
    apply bezierAt_end.
    unfold segments. rewrite <- Hm, positive_nat_Z. field.
    intros Hz. apply (proj1 (inject_Z_injective _ 0)) in Hz. discriminate Hz. }
  split; reflexivity.
Qed.

(** C8 as stated fails in its last part: without a segments count the
    flattener returns 10 points, not 12. *)
Lemma flattener_default_is_ten :
  List.length (Trace.sampleBezier (Fin 0, Fin 0) (Fin 0, Fin 12) (Fin 12, Fin 12)
                                  (Fin 12, Fin 0) None) = 10%nat /\
  List.length (Trace.sampleBezier (Fin 0, Fin 0) (Fin 0, Fin 12) (Fin 12, Fin 12)
                                  (Fin 12, Fin 0) None) <> 12%nat.
Proof. split; [reflexivity | discriminate]. Qed.

(** ** File names *)

Section FileNameFacts.

Context `{NumberText}.
Local Open Scope string_scope.

Lemma splitOn_noBar (a : string) : noBar a = true -> splitOn "|" a = [a].
Proof.
  induction a as [| c a IH]; simpl; [reflexivity |].
  intros Hc. apply andb_true_iff in Hc. destruct Hc as [Hc Ha].
  apply negb_true_iff in Hc. rewrite Hc, (IH Ha). reflexivity.
Qed.

Lemma splitOn_piece (a rest : string) :
  noBar a = true -> splitOn "|" (a ++ String "|" rest) = a :: splitOn "|" rest.
Proof.
  induction a as [| c a IH]; simpl; [reflexivity |].
  intros Hc. apply andb_true_iff in Hc. destruct Hc as [Hc Ha].
  apply negb_true_iff in Hc. rewrite Hc, (IH Ha). reflexivity.
Qed.

Lemma key_pieces (s : LabelSetup) :
  keyReadsBack s ->
  splitOn "|" (getGroupKey s)
  = [ orElseStr (textColour s) "Black";
      orElseStr (labelColourBackground s) "White";
      numberToString (orElse (labelThicknessMm s) 0.8);
      orElseStr (style s) "Adhesive" ].
Proof.
  intros (Ht & Hb & Hn & Hs & _). unfold getGroupKey.
  change ("|" ++ ?x) with (String "|" x).
  rewrite (splitOn_piece _ _ Ht).
  change ("|" ++ ?x) with (String "|" x).
  rewrite (splitOn_piece _ _ Hb).
  change ("|" ++ ?x) with (String "|" x).
  rewrite (splitOn_piece _ _ Hn), (splitOn_noBar _ Hs). reflexivity.
Qed.

Lemma style_default (st : string) :
  String.eqb (orElseStr st "Adhesive") "Non Adhesive" = String.eqb st "Non Adhesive".
Proof. destruct st; reflexivity. Qed.

Lemma fileName_nameOf (s : LabelSetup) (page : nat) (extension : string) :
  keyReadsBack s -> fileName (getGroupKey s) page extension = nameOf s page extension.
Proof.
  intros Hs. unfold fileName. rewrite (key_pieces s Hs). cbn [nth].
  destruct Hs as (_ & _ & _ & _ & Hprint).
  rewrite Hprint, style_default. reflexivity.
Qed.

Lemma pushTo_groups (P : LabelSetup -> Prop) (s : LabelSetup) (groups : Groups) :
  P s -> Forall (groupOf P) groups -> Forall (groupOf P) (pushTo (getGroupKey s) s groups).
Proof.
  intros Hs Hall. unfold pushTo. apply Forall_map.
  eapply Forall_impl; [| exact Hall]. simpl.
  intros [key gs] [Hne Hgs]; simpl in *.
  destruct (String.eqb_spec key (getGroupKey s)) as [Hk | _]; [| split; assumption].
  split; simpl.
  - destruct gs; discriminate.
  - apply Forall_app; split; [exact Hgs |]. constructor; [| constructor]. auto.
Qed.

Lemma addSetup_groups (P : LabelSetup -> Prop) (s : LabelSetup) (groups : Groups) :
  P s -> Forall (groupOf P) groups -> Forall (groupOf P) (addSetup groups s).
Proof.
  intros Hs Hall. unfold addSetup.
  destruct (has (getGroupKey s) groups); [apply pushTo_groups; assumption |].
  unfold pushTo. rewrite map_app. apply Forall_app; split.
  - apply (pushTo_groups P s groups Hs Hall).
  - simpl. rewrite String.eqb_refl. constructor; [| constructor].
    split; simpl; [discriminate |]. constructor; [| constructor]. auto.
Qed.

Lemma groupSetups_groups (P : LabelSetup -> Prop) (setups : list LabelSetup) :
  Forall P setups -> Forall (groupOf P) (groupSetups setups).
Proof.
  intros Hall. unfold groupSetups.
  apply fold_left_invariant with (Item := P); [constructor | exact Hall |].
  intros groups s Hg Hs. apply addSetup_groups; assumption.
Qed.

Lemma group_fileName (g : string * list LabelSetup) (extension : string) (pages : nat) :
  groupOf keyReadsBack g ->
  map (fun page => fileName (fst g) page extension) (seq 1 pages)
  = groupNames extension g pages.
Proof.
  intros [Hne Hall]. unfold groupNames.
  destruct (snd g) as [| s gs]; [congruence |].
  inversion Hall as [| s' gs' [Hs Hkey] _]; subst.
  apply map_ext. intros page. rewrite <- Hkey. apply fileName_nameOf, Hs.
Qed.

End FileNameFacts.

Lemma numbered_snoc (c : Dxf.Cursor) :
  numbered c ->
  map Dxf.pageNumber (Dxf.sheets c ++ [Dxf.currentSheet c])
  = seq 1 (List.length (Dxf.sheets c ++ [Dxf.currentSheet c])).
Proof.
  intros [Hs Hc]. rewrite map_app, length_app, Hs. simpl.
  rewrite Hc, Nat.add_1_r, seq_S. reflexivity.
Qed.

Lemma place_numbered (sheet : SheetConfig) (c : Dxf.Cursor) (label : LabelSetup) :
  numbered c -> numbered (Dxf.place sheet c label).
Proof.
  intros Hc. unfold Dxf.place.
  set (c1 := Dxf.wrapRow sheet _ _ _).
  assert (H1 : numbered c1).
  { unfold c1, Dxf.wrapRow, Dxf.seedRow.
    destruct (Qeq_bool _ _); simpl; destruct (Qlt_bool _ _); exact Hc. }
  clearbody c1. unfold Dxf.pushLabel, Dxf.newSheet.
  destruct (Qlt_bool _ _); [| exact H1].
  unfold numbered; simpl.
  destruct (Dxf.labels (Dxf.currentSheet c1)); [destruct H1; auto |].
  split; [apply numbered_snoc, H1 | reflexivity].
Qed.

(** The page number of a returned sheet is its place in the result. *)
Lemma arrange_numbered (setups : list LabelSetup) (sheet : SheetConfig) :
  map Dxf.pageNumber (Dxf.arrangeLabelsOnSheets setups sheet)
  = seq 1 (List.length (Dxf.arrangeLabelsOnSheets setups sheet)).
Proof.
  unfold Dxf.arrangeLabelsOnSheets.
  assert (Hn : numbered (fold_left (Dxf.place sheet) (expandQuantities setups)
                                   (Dxf.start sheet))).
  { apply fold_left_invariant with (Item := fun _ => True).
    - split; reflexivity.
    - apply Forall_forall; auto.
    - intros c l Hc _. apply place_numbered, Hc. }
  unfold Dxf.finish. destruct (Dxf.labels _); [apply Hn | apply numbered_snoc, Hn].
Qed.

Section FileNameTheorem.

Context `{NumberText}.

Lemma dxf_group_names (key : string) (group : list LabelSetup) (cfg : SheetConfig) :
  map dxfFilename
      (map (fun sheet => {| dxfFilename := fileName key (Dxf.pageNumber sheet) ".dxf";
                            dxfContent := sheet |})
           (Dxf.arrangeLabelsOnSheets group cfg))
  = map (fun page => fileName key page ".dxf")
        (seq 1 (List.length (Dxf.arrangeLabelsOnSheets group cfg))).
Proof.
  rewrite map_map. simpl. rewrite <- arrange_numbered, map_map. reflexivity.
Qed.

Lemma pdf_group_names (key : string) (group : list LabelSetup) (cfg : SheetConfig) :
  map pdfFilename
      (map (fun i => {| pdfFilename := fileName key (i + 1) ".pdf";
                        pdfContent := nth i (Pdf.arrangeLabelsOnSheets group cfg) [] |})
           (seq 0 (List.length (Pdf.arrangeLabelsOnSheets group cfg))))
  = map (fun page => fileName key page ".pdf")
        (seq 1 (List.length (Pdf.arrangeLabelsOnSheets group cfg))).
Proof.
  rewrite map_map. simpl. rewrite <- seq_shift, map_map.
  apply map_ext. intros i. rewrite Nat.add_1_r. reflexivity.
Qed.

Lemma flat_map_groups {A : Type} (f g : string * list LabelSetup -> list A)
    (P : string * list LabelSetup -> Prop) (groups : Groups) :
  Forall P groups -> (forall x, P x -> f x = g x) ->
  flat_map f groups = flat_map g groups.
Proof.
  intros Hall Hfg. induction Hall as [| x l Hx _ IH]; simpl; [reflexivity |].
  rewrite (Hfg x Hx), IH. reflexivity.
Qed.

(** C9, as the code has it.  When the colours, the style and the printed
    thickness of every setup hold no bar (and the printed thickness reads
    back as itself), the names of the generated files are, group after group
    in the order in which the groups first occur,
    ["MLA <textColour> on <bgColour> <thickness>mm<styleSuffix> <page>"]
    plus [".dxf"] or [".pdf"], where the suffix is [" Non AD"] exactly for
    the style ["Non Adhesive"], and the pages of each group run 1, 2, ...,
    written with at least two digits.  An empty text colour, background or
    thickness 0 is read as Black, White, 0.8.  Every group is a non-empty
    list of setups of the input that share its key. *)
Theorem file_names_per_group (setups : list LabelSetup) (cfg : SheetConfig) :
  Forall keyReadsBack setups ->
  map dxfFilename (generateDxfFiles setups cfg)
  = flat_map (fun g => groupNames ".dxf" g
                         (List.length (Dxf.arrangeLabelsOnSheets (snd g) cfg)))
             (groupSetups setups) /\
  map pdfFilename (generatePdfFiles setups cfg)
  = flat_map (fun g => groupNames ".pdf" g
                         (List.length (Pdf.arrangeLabelsOnSheets (snd g) cfg)))
             (groupSetups setups) /\
  Forall (groupOf (fun s => In s setups)) (groupSetups setups).
Proof.
  intros Hkeys.
  pose proof (groupSetups_groups keyReadsBack setups Hkeys) as Hgroups.
  split; [| split].
  - unfold generateDxfFiles. rewrite flat_map_concat_map, concat_map, map_map.
    rewrite <- flat_map_concat_map.
    apply flat_map_groups with (P := groupOf keyReadsBack); [exact Hgroups |].
    intros [key group] Hg. rewrite dxf_group_names.
    apply (group_fileName (key, group)), Hg.
  - unfold generatePdfFiles. rewrite flat_map_concat_map, concat_map, map_map.
    rewrite <- flat_map_concat_map.
    apply flat_map_groups with (P := groupOf keyReadsBack); [exact Hgroups |].
    intros [key group] Hg. rewrite pdf_group_names.
    apply (group_fileName (key, group)), Hg.
  - apply groupSetups_groups. apply Forall_forall. auto.
Qed.

End FileNameTheorem.

Lemma twoGroups_keys : Forall (@keyReadsBack decimalText) twoGroups.
Proof. repeat constructor. Defined.

(** Two groups, with two sheets and one sheet: the pages restart at 1. *)
Lemma file_names_per_group_witness :
  Forall (@keyReadsBack decimalText) twoGroups /\
  map dxfFilename (@generateDxfFiles decimalText twoGroups DEFAULT_SHEET)
  = flat_map (fun g => @groupNames decimalText ".dxf" g
                         (List.length (Dxf.arrangeLabelsOnSheets (snd g) DEFAULT_SHEET)))
             (@groupSetups decimalText twoGroups) /\
  map dxfFilename (@generateDxfFiles decimalText twoGroups DEFAULT_SHEET)
  = [ "MLA Black on White 0.8mm 01.dxf"; "MLA Black on White 0.8mm 02.dxf";
      "MLA Black on Yellow 1.6mm Non AD 01.dxf" ]%string /\
  map pdfFilename (@generatePdfFiles decimalText twoGroups DEFAULT_SHEET)
  = [ "MLA Black on White 0.8mm 01.pdf"; "MLA Black on White 0.8mm 02.pdf";
      "MLA Black on Yellow 1.6mm Non AD 01.pdf" ]%string.
Proof.
  split; [exact twoGroups_keys |].
  split; [exact (proj1 (@file_names_per_group decimalText twoGroups DEFAULT_SHEET
                          twoGroups_keys)) |].
  split; vm_compute; reflexivity.
Defined.

(** C9 as stated fails: the name of the only file for one white adhesive
    label starts with "MLA " and has "mm" after the thickness. *)
Lemma file_name_has_prefix_and_unit :
  map dxfFilename (@generateDxfFiles decimalText [oneLabel] DEFAULT_SHEET)
  = [ "MLA Black on White 0.8mm 01.dxf"%string ] /\
  @specName decimalText oneLabel 1 ".dxf" = "Black on White 0.8 01.dxf"%string /\
  map dxfFilename (@generateDxfFiles decimalText [oneLabel] DEFAULT_SHEET)
  <> [ @specName decimalText oneLabel 1 ".dxf" ].
Proof.
  split; [vm_compute; reflexivity |]. split; [vm_compute; reflexivity |].
  vm_compute. discriminate.
Qed.

(** * Further properties of the sources *)

(** ** The packer: order, margins, shelves *)

Lemma placedSetups_snoc (shs : list Dxf.DxfSheet) (sh : Dxf.DxfSheet) :
  placedSetups (shs ++ [sh]) = placedSetups shs ++ map Dxf.setup (Dxf.labels sh).
Proof. unfold placedSetups. rewrite flat_map_app. simpl. rewrite app_nil_r. reflexivity. Qed.

Lemma place_served (sheet : SheetConfig) (c : Dxf.Cursor) (label : LabelSetup) :
  served (Dxf.place sheet c label) = served c ++ [label].
Proof.
  unfold Dxf.place.
  set (c1 := Dxf.wrapRow sheet _ _ _).
  assert (H1 : served c1 = served c).
  { unfold c1, Dxf.wrapRow, Dxf.seedRow.
    destruct (Qeq_bool _ _); simpl; destruct (Qlt_bool _ _); reflexivity. }
  rewrite <- H1. clearbody c1. unfold Dxf.pushLabel, Dxf.newSheet.
  destruct (Qlt_bool _ _); unfold served; simpl.
  - destruct (Dxf.labels (Dxf.currentSheet c1)) eqn:E; simpl.
    + rewrite !app_nil_r. reflexivity.
    + rewrite placedSetups_snoc, E. reflexivity.
  - rewrite map_app, app_assoc. reflexivity.
Qed.

Lemma fold_place_served (sheet : SheetConfig) (ls : list LabelSetup) (c : Dxf.Cursor) :
  served (fold_left (Dxf.place sheet) ls c) = served c ++ ls.
Proof.
  revert c. induction ls as [| l ls IH]; intros c; simpl.
  - rewrite app_nil_r. reflexivity.
  - rewrite IH, place_served, <- app_assoc. reflexivity.
Qed.

Lemma finish_served (c : Dxf.Cursor) : placedSetups (Dxf.finish c) = served c.
Proof.
  unfold Dxf.finish, served.
  destruct (Dxf.labels (Dxf.currentSheet c)) eqn:E.
  - simpl. rewrite app_nil_r. reflexivity.
  - rewrite placedSetups_snoc, E. reflexivity.
Qed.

(** The labels come out in the order of the requests. *)
Lemma arrange_served (setups : list LabelSetup) (sheet : SheetConfig) :
  placedSetups (Dxf.arrangeLabelsOnSheets setups sheet) = expandQuantities setups.
Proof.
  unfold Dxf.arrangeLabelsOnSheets. rewrite finish_served, fold_place_served.
  reflexivity.
Qed.

Lemma placedSetupsPdf_toPdf (shs : list Dxf.DxfSheet) :
  placedSetupsPdf (map (fun sh => map toPdf (Dxf.labels sh)) shs) = placedSetups shs.
Proof.
  unfold placedSetupsPdf, placedSetups.
  induction shs as [| sh shs IH]; simpl; [reflexivity |].
  rewrite IH, map_map. reflexivity.
Qed.

(** X1.  Read sheet after sheet, the placed labels of either packer are the
    requests in their order: every setup as often as its quantity is read,
    setups in input order; nothing is dropped, repeated or reordered. *)
Theorem packer_keeps_request_order (setups : list LabelSetup) (sheet : SheetConfig) :
  placedSetups (Dxf.arrangeLabelsOnSheets setups sheet) = expandQuantities setups /\
  placedSetupsPdf (Pdf.arrangeLabelsOnSheets setups sheet) = expandQuantities setups.
Proof.
  split; [apply arrange_served |].
  rewrite arrange_toPdf, placedSetupsPdf_toPdf. apply arrange_served.
Qed.

Lemma start_bounded (sheet : SheetConfig) : Bounded sheet (Dxf.start sheet).
Proof. constructor; simpl; try constructor; lra. Qed.

Lemma place_bounded (sheet : SheetConfig) (c : Dxf.Cursor) (label : LabelSetup) :
  0 <= gap sheet -> fitsSheet sheet label ->
  Bounded sheet c -> Bounded sheet (Dxf.place sheet c label).
Proof.
  intros Hg [[Hw0 Hw] [Hh0 Hh]] Hc. unfold Dxf.place.
  (* after seeding *)
  set (c1 := Dxf.seedRow _ c).
  assert (H1 : Bounded sheet c1).
  { destruct Hc. unfold c1, Dxf.seedRow. destruct (Qeq_bool _ _); constructor; auto. }
  clearbody c1.
  (* after the wrap the label ends left of the right margin *)
  set (c2 := Dxf.wrapRow sheet _ _ c1).
  assert (H2 : Bounded sheet c2 /\
               Dxf.currentX c2 + labelLengthMm label <= width sheet - margin sheet).
  { destruct H1. unfold c2, Dxf.wrapRow. test_number; simpl.
    - split; [constructor; simpl; auto; lra | lra].
    - split; [constructor; auto | lra]. }
  destruct H2 as [H2 Hright]. clearbody c2.
  (* after the overflow the label ends above the bottom margin *)
  set (c3 := Dxf.newSheet sheet _ c2).
  assert (H3 : Bounded sheet c3 /\
               Dxf.currentX c3 + labelLengthMm label <= width sheet - margin sheet /\
               margin sheet <= Dxf.currentY c3 - labelHeightMm label).
  { destruct H2. unfold c3, Dxf.newSheet. test_number; simpl.
    - split; [| split; lra]. constructor; simpl; auto; try lra; try constructor.
      destruct (Dxf.labels (Dxf.currentSheet c2)) eqn:E; auto.
      apply Forall_app; split; auto. constructor; auto. rewrite E. assumption.
    - split; [constructor; auto | split; lra]. }
  destruct H3 as [[Hs Hcur Hx Hy Hrh] [Hright3 Hbottom]]. clearbody c3.
  unfold Dxf.pushLabel. constructor; simpl; auto.
  - rewrite map_app. apply Forall_app; split; [exact Hcur |].
    constructor; [| constructor]. unfold insideMargins, footprint; simpl.
    repeat split; lra.
  - lra.
  - pose proof (Math_max_l (Dxf.rowHeight c3) (labelHeightMm label)). lra.
Qed.

Lemma finish_bounded (sheet : SheetConfig) (c : Dxf.Cursor) :
  Bounded sheet c ->
  Forall (fun sh => Forall (insideMargins sheet) (map footprint (Dxf.labels sh)))
         (Dxf.finish c).
Proof.
  intros [Hs Hc _ _ _]. unfold Dxf.finish.
  destruct (Dxf.labels (Dxf.currentSheet c)) eqn:E; auto.
  apply Forall_app; split; auto. constructor; auto. rewrite E. exact Hc.
Qed.

(** The exact packers: when the gap is not negative and no setup is larger
    than the usable area, every label keeps the margin on all four sides. *)
Lemma exact_packer_keeps_margins (setups : list LabelSetup) (sheet : SheetConfig) :
  0 <= gap sheet ->
  Forall (fitsSheet sheet) setups ->
  Forall (fun sh => Forall (insideMargins sheet) (map footprint (Dxf.labels sh)))
         (Dxf.arrangeLabelsOnSheets setups sheet) /\
  Forall (fun sh => Forall (insideMargins sheet) (map footprintPdf sh))
         (Pdf.arrangeLabelsOnSheets setups sheet).
Proof.
  intros Hg Hfit.
  assert (Hd : Forall (fun sh => Forall (insideMargins sheet)
                                        (map footprint (Dxf.labels sh)))
                      (Dxf.arrangeLabelsOnSheets setups sheet)).
  { unfold Dxf.arrangeLabelsOnSheets. apply finish_bounded.
    apply fold_left_invariant with (Item := fitsSheet sheet).
    - apply start_bounded.
    - apply expandQuantities_Forall, Hfit.
    - intros c l Hc Hl. apply place_bounded; assumption. }
  split; [exact Hd |].
  rewrite arrange_toPdf. apply Forall_map.
  eapply Forall_impl; [| exact Hd]. simpl.
  intros sh Hsh. rewrite footprint_toPdf. exact Hsh.
Qed.

Lemma threeSizes_fit : Forall (fitsSheet marginSheet) threeSizes.
Proof. repeat constructor; simpl; lra. Defined.

Lemma lastOf_snoc {A : Type} (l : list A) (a : A) : lastOf (l ++ [a]) = Some a.
Proof. unfold lastOf. rewrite map_app. simpl. apply last_last. Qed.

Lemma lastOf_map {A B : Type} (f : A -> B) (l : list A) :
  lastOf (map f l) = option_map f (lastOf l).
Proof.
  unfold lastOf. induction l as [| a l IH]; simpl; [reflexivity |].
  destruct l as [| a' l]; simpl in *; [reflexivity | exact IH].
Qed.

Lemma consecutive_snoc {A : Type} (R : A -> A -> Prop) (l : list A) (b : A) :
  consecutive R l -> (forall a, lastOf l = Some a -> R a b) ->
  consecutive R (l ++ [b]).
Proof.
  induction l as [| a l IH]; simpl; intros Hl Hlast; [exact I |].
  destruct l as [| a' l]; simpl in *.
  - split; [apply Hlast; reflexivity | exact I].
  - destruct Hl as [Haa' Hl]. split; [exact Haa' |].
    apply IH; [exact Hl |]. intros x Hx. apply Hlast. exact Hx.
Qed.

Lemma start_shelved (sheet : SheetConfig) : Shelved sheet (Dxf.start sheet).
Proof.
  constructor; simpl; [constructor | exact I | intros p Hp; discriminate Hp | lra].
Qed.

Lemma place_shelved (sheet : SheetConfig) (c : Dxf.Cursor) (label : LabelSetup) :
  0 <= labelHeightMm label ->
  Shelved sheet c -> Shelved sheet (Dxf.place sheet c label).
Proof.
  intros Hh [Hs Hcur Hlast Hrh]. unfold Dxf.place.
  destruct c as [shs [pn ls] cx cy rh]; simpl in *.
  (* the row height after seeding is at least the height of the last label *)
  set (rh1 := Dxf.rowHeight (Dxf.seedRow (labelHeightMm label)
                {| Dxf.sheets := shs; Dxf.currentSheet := {| Dxf.pageNumber := pn;
                   Dxf.labels := ls |}; Dxf.currentX := cx; Dxf.currentY := cy;
                   Dxf.rowHeight := rh |})).
  assert (Hseed : Dxf.seedRow (labelHeightMm label)
                {| Dxf.sheets := shs; Dxf.currentSheet := {| Dxf.pageNumber := pn;
                   Dxf.labels := ls |}; Dxf.currentX := cx; Dxf.currentY := cy;
                   Dxf.rowHeight := rh |}
              = {| Dxf.sheets := shs; Dxf.currentSheet := {| Dxf.pageNumber := pn;
                   Dxf.labels := ls |}; Dxf.currentX := cx; Dxf.currentY := cy;
                   Dxf.rowHeight := rh1 |}).
  { unfold rh1, Dxf.seedRow; simpl. destruct (Qeq_bool rh 0); reflexivity. }
  assert (Hrh1 : 0 <= rh1 /\
                 forall p, lastOf ls = Some p -> labelHeightMm (Dxf.setup p) <= rh1).
  { unfold rh1, Dxf.seedRow; simpl. test_number; simpl.
    - split; [exact Hh |]. intros p Hp. destruct (Hlast p Hp) as (_ & _ & Hp3). lra.
    - split; [exact Hrh |]. intros p Hp. apply (Hlast p Hp). }
  rewrite Hseed. clearbody rh1. clear Hseed. destruct Hrh1 as [Hrh1 Hlast1].
  unfold Dxf.wrapRow; simpl. test_number; unfold Dxf.newSheet; simpl;
    test_number; unfold Dxf.pushLabel; simpl.
  - (* wrap, then a new sheet *)
    constructor; simpl.
    + destruct ls; auto. apply Forall_app; split; auto.
    + exact I.
    + intros p Hp. change (lastOf ([] ++ [?a])) with (Some a) in Hp.
      inversion Hp; subst; simpl.
      pose proof (Math_max_r (labelHeightMm label) (labelHeightMm label)).
      repeat split; try ring; lra.
    + pose proof (Math_max_l (labelHeightMm label) (labelHeightMm label)). lra.
  - (* wrap: the label opens a row below the last one *)
    constructor; simpl.
    + exact Hs.
    + rewrite map_app. apply consecutive_snoc; [exact Hcur |].
      intros a Ha. rewrite lastOf_map in Ha.
      destruct (lastOf ls) as [p |] eqn:Hp; [| discriminate].
      inversion Ha; subst a. destruct (Hlast p eq_refl) as (_ & Hy & _).
      pose proof (Hlast1 p eq_refl).
      right. unfold footprint; simpl. split; [reflexivity | lra].
    + intros p Hp. rewrite lastOf_snoc in Hp. inversion Hp; subst; simpl.
      pose proof (Math_max_r (labelHeightMm label) (labelHeightMm label)).
      repeat split; try ring; lra.
    + pose proof (Math_max_l (labelHeightMm label) (labelHeightMm label)). lra.
  - (* no wrap, but a new sheet *)
    constructor; simpl.
    + destruct ls; auto. apply Forall_app; split; auto.
    + exact I.
    + intros p Hp. change (lastOf ([] ++ [?a])) with (Some a) in Hp.
      inversion Hp; subst; simpl.
      pose proof (Math_max_r (labelHeightMm label) (labelHeightMm label)).
      repeat split; try ring; lra.
    + pose proof (Math_max_l (labelHeightMm label) (labelHeightMm label)). lra.
  - (* the label goes right of the last one *)
    constructor; simpl.
    + exact Hs.
    + rewrite map_app. apply consecutive_snoc; [exact Hcur |].
      intros a Ha. rewrite lastOf_map in Ha.
      destruct (lastOf ls) as [p |] eqn:Hp; [| discriminate].
      inversion Ha; subst a. destruct (Hlast p eq_refl) as (Hx & Hy & _).
      left. unfold footprint; simpl. split; lra.
    + intros p Hp. rewrite lastOf_snoc in Hp. inversion Hp; subst; simpl.
      pose proof (Math_max_r rh1 (labelHeightMm label)).
      repeat split; try ring; lra.
    + pose proof (Math_max_l rh1 (labelHeightMm label)). lra.
Qed.

Lemma finish_shelved (sheet : SheetConfig) (c : Dxf.Cursor) :
  Shelved sheet c ->
  Forall (fun sh => consecutive (nextOnShelf sheet) (map footprint (Dxf.labels sh)))
         (Dxf.finish c).
Proof.
  intros [Hs Hc _ _]. unfold Dxf.finish.
  destruct (Dxf.labels (Dxf.currentSheet c)) eqn:E; auto.
  apply Forall_app; split; auto. constructor; auto. rewrite E. exact Hc.
Qed.

(** The exact packers: when no setup has a negative height, each label of
    a returned sheet follows the one placed before it on the shelf. *)
Lemma exact_packer_follows_shelves (setups : list LabelSetup) (sheet : SheetConfig) :
  Forall (fun s => 0 <= labelHeightMm s) setups ->
  Forall (fun sh => consecutive (nextOnShelf sheet) (map footprint (Dxf.labels sh)))
         (Dxf.arrangeLabelsOnSheets setups sheet) /\
  Forall (fun sh => consecutive (nextOnShelf sheet) (map footprintPdf sh))
         (Pdf.arrangeLabelsOnSheets setups sheet).
Proof.
  intros Hheights.
  assert (Hd : Forall (fun sh => consecutive (nextOnShelf sheet)
                                             (map footprint (Dxf.labels sh)))
                      (Dxf.arrangeLabelsOnSheets setups sheet)).
  { unfold Dxf.arrangeLabelsOnSheets. apply finish_shelved.
    apply fold_left_invariant with (Item := fun s => 0 <= labelHeightMm s).
    - apply start_shelved.
    - apply expandQuantities_Forall, Hheights.
    - intros c l Hc Hl. apply place_shelved; assumption. }
  split; [exact Hd |].
  rewrite arrange_toPdf. apply Forall_map.
  eapply Forall_impl; [| exact Hd]. simpl.
  intros sh Hsh. rewrite footprint_toPdf. exact Hsh.
Qed.

(** ** The summary *)

Lemma fold_count_labels (sheets : list Dxf.DxfSheet) (n : nat) :
  fold_left (fun sum s => (sum + List.length (Dxf.labels s))%nat) sheets n
  = (n + totalPlaced sheets)%nat.
Proof.
  revert n. unfold totalPlaced.
  induction sheets as [| sh sheets IH]; intros n; simpl; [lia |].
  rewrite IH. lia.
Qed.

(** X4.  The summary of [getSheetSummary] is consistent with the sheets:
    the pages are numbered 1 to [totalSheets] without a gap, every entry of
    [labelsPerSheet] is at least 1, and [totalLabels] is both the sum of
    [labelsPerSheet] and the number of labels requested. *)
Theorem sheet_summary_is_consistent (setups : list LabelSetup) (sheet : SheetConfig) :
  let summary := DxfText.getSheetSummary setups sheet in
  map Dxf.pageNumber (Dxf.arrangeLabelsOnSheets setups sheet)
    = seq 1 (DxfText.totalSheets summary) /\
  List.length (DxfText.labelsPerSheet summary) = DxfText.totalSheets summary /\
  Forall (fun n => (1 <= n)%nat) (DxfText.labelsPerSheet summary) /\
  DxfText.totalLabels summary = list_sum (DxfText.labelsPerSheet summary) /\
  DxfText.totalLabels summary = List.length (expandQuantities setups).
Proof.
  unfold DxfText.getSheetSummary; simpl.
  split; [apply arrange_numbered |].
  split; [apply length_map |].
  split.
  - apply Forall_map. eapply Forall_impl; [| apply arrange_nonempty]. simpl.
    intros sh Hsh. destruct (Dxf.labels sh); [congruence | simpl; lia].
  - rewrite fold_count_labels. simpl. split; [reflexivity |].
    apply arrange_places_all.
Qed.

(** ** The material groups *)

Section GroupFacts.

Context `{NumberText}.

Lemma existsb_eqb_In (key : string) (keys : list string) :
  existsb (String.eqb key) keys = true <-> In key keys.
Proof.
  rewrite existsb_exists. split.
  - intros (k & Hin & Heq). apply String.eqb_eq in Heq. subst. exact Hin.
  - intros Hin. exists key. split; [exact Hin | apply String.eqb_refl].
Qed.

Lemma firstKeys_snoc (seen : list string) (l : list LabelSetup) (s : LabelSetup) :
  firstKeys seen (l ++ [s])
  = firstKeys seen l
    ++ (if existsb (String.eqb (getGroupKey s)) (firstKeys seen l ++ seen)
        then [] else [getGroupKey s]).
Proof.
  revert seen. induction l as [| a l IH]; intros seen; simpl.
  - destruct (existsb _ seen); reflexivity.
  - destruct (existsb (String.eqb (getGroupKey a)) seen) eqn:Ea.
    + apply IH.
    + simpl. rewrite IH. f_equal. f_equal.
      rewrite !existsb_app. simpl.
      destruct (String.eqb (getGroupKey s) (getGroupKey a));
        destruct (existsb _ (firstKeys _ l)); destruct (existsb _ seen); reflexivity.
Qed.

(** Every key of a setup is met: it is among the first keys or was seen. *)
Lemma key_is_met (seen : list string) (l : list LabelSetup) (s : LabelSetup) :
  In s l -> In (getGroupKey s) (firstKeys seen l ++ seen).
Proof.
  revert seen. induction l as [| a l IH]; intros seen Hin; [contradiction |].
  simpl. destruct (existsb (String.eqb (getGroupKey a)) seen) eqn:Ea.
  - destruct Hin as [-> | Hin]; [| apply IH, Hin].
    apply in_or_app. right. apply existsb_eqb_In, Ea.
  - destruct Hin as [-> | Hin]; [left; reflexivity |].
    specialize (IH (getGroupKey a :: seen) Hin).
    apply in_app_or in IH. simpl.
    destruct IH as [IH | [IH | IH]].
    + right. apply in_or_app. left. exact IH.
    + left. exact IH.
    + right. apply in_or_app. right. exact IH.
Qed.

Lemma firstKeys_NoDup (seen : list string) (l : list LabelSetup) :
  NoDup (firstKeys seen l) /\ forall key, In key (firstKeys seen l) -> ~ In key seen.
Proof.
  revert seen. induction l as [| a l IH]; intros seen; simpl.
  - split; [constructor | contradiction].
  - destruct (existsb (String.eqb (getGroupKey a)) seen) eqn:Ea; [apply IH |].
    destruct (IH (getGroupKey a :: seen)) as [Hnd Hnew]. split.
    + constructor; [| exact Hnd]. intros Hin. apply (Hnew _ Hin). left. reflexivity.
    + intros key [<- | Hin].
      * intros Hseen. apply existsb_eqb_In in Hseen. congruence.
      * intros Hseen. apply (Hnew _ Hin). right. exact Hseen.
Qed.

Lemma has_partition (key : string) (l : list LabelSetup) :
  has key (partitionByKey l) = existsb (String.eqb key) (firstKeys [] l).
Proof.
  unfold has, partitionByKey.
  induction (firstKeys [] l) as [| k ks IH]; simpl; [reflexivity |].
  rewrite IH, (String.eqb_sym k key). reflexivity.
Qed.

Lemma filter_hasKey_snoc (key : string) (l : list LabelSetup) (s : LabelSetup) :
  filter (hasKey key) (l ++ [s])
  = filter (hasKey key) l ++ (if String.eqb key (getGroupKey s) then [s] else []).
Proof.
  rewrite filter_app. simpl. unfold hasKey at 2.
  rewrite (String.eqb_sym (getGroupKey s) key).
  destruct (String.eqb key (getGroupKey s)); reflexivity.
Qed.

Lemma pushTo_partition (l : list LabelSetup) (s : LabelSetup) (keys : list string) :
  pushTo (getGroupKey s) s (map (fun key => (key, filter (hasKey key) l)) keys)
  = map (fun key => (key, filter (hasKey key) (l ++ [s]))) keys.
Proof.
  unfold pushTo. rewrite map_map. apply map_ext. intros key. simpl.
  rewrite filter_hasKey_snoc.
  destruct (String.eqb key (getGroupKey s)); [reflexivity |].
  rewrite app_nil_r. reflexivity.
Qed.

Lemma groupSetups_snoc (l : list LabelSetup) (s : LabelSetup) :
  groupSetups (l ++ [s]) = addSetup (groupSetups l) s.
Proof. unfold groupSetups. rewrite fold_left_app. reflexivity. Qed.

Lemma groupSetups_partition (setups : list LabelSetup) :
  groupSetups setups = partitionByKey setups.
Proof.
  induction setups as [| s l IH] using rev_ind; [reflexivity |].
  rewrite groupSetups_snoc, IH. unfold addSetup.
  rewrite has_partition. unfold partitionByKey at 3.
  rewrite firstKeys_snoc, app_nil_r.
  destruct (existsb (String.eqb (getGroupKey s)) (firstKeys [] l)) eqn:Ek.
  - rewrite app_nil_r. apply pushTo_partition.
  - unfold partitionByKey, pushTo. rewrite !map_app, map_map. simpl.
    rewrite String.eqb_refl. f_equal.
    + apply map_ext. intros key. simpl. rewrite filter_hasKey_snoc.
      destruct (String.eqb key (getGroupKey s)); [reflexivity |].
      rewrite app_nil_r. reflexivity.
    + rewrite filter_hasKey_snoc, String.eqb_refl.
      assert (Hnone : filter (hasKey (getGroupKey s)) l = []).
      { destruct (filter (hasKey (getGroupKey s)) l) as [| a rest] eqn:Ef; [reflexivity |].
        assert (Ha : In a (filter (hasKey (getGroupKey s)) l)) by (rewrite Ef; left; reflexivity).
        apply filter_In in Ha. destruct Ha as [Hin Hkey].
        unfold hasKey in Hkey. apply String.eqb_eq in Hkey.
        pose proof (key_is_met [] l a Hin) as Hmet. rewrite app_nil_r, Hkey in Hmet.
        apply existsb_eqb_In in Hmet. congruence. }
      rewrite Hnone. reflexivity.
Qed.

(** X5.  The grouping is a stable partition.  The [Map] of
    [generateDxfFiles] and [generatePdfFiles] holds one entry per key, the
    keys in the order of their first occurrence and each once; the entry of
    a key holds exactly the setups of that key, in input order; no entry is
    empty, and every setup is in the entry of its key. *)
Theorem grouping_is_stable_partition (setups : list LabelSetup) :
  groupSetups setups = partitionByKey setups /\
  NoDup (map fst (groupSetups setups)) /\
  Forall (fun g => snd g <> []) (groupSetups setups) /\
  Forall (fun s => In (getGroupKey s, filter (hasKey (getGroupKey s)) setups)
                      (groupSetups setups))
         setups.
Proof.
  rewrite groupSetups_partition. unfold partitionByKey.
  split; [reflexivity |].
  split; [rewrite map_map; simpl; rewrite map_id; apply firstKeys_NoDup |].
  split.
  - apply Forall_map. simpl. apply Forall_forall. intros key Hkey.
    assert (Hgroup : Forall (groupOf (fun _ => True)) (groupSetups setups))
      by (apply groupSetups_groups, Forall_forall; auto).
    rewrite groupSetups_partition in Hgroup. unfold partitionByKey in Hgroup.
    rewrite Forall_map, Forall_forall in Hgroup.
    apply (Hgroup key Hkey).
  - apply Forall_forall. intros s Hin.
    apply in_map_iff. exists (getGroupKey s). split; [reflexivity |].
    pose proof (key_is_met [] setups s Hin) as Hmet. rewrite app_nil_r in Hmet.
    exact Hmet.
Qed.

End GroupFacts.

(** ** The generated files *)

Lemma append_empty (s : string) : (s ++ "")%string = s.
Proof. induction s as [| c s IH]; simpl; [reflexivity | rewrite IH; reflexivity]. Qed.

Lemma append_three (a b c : string) : ((a ++ b) ++ c)%string = (a ++ (b ++ c))%string.
Proof. induction a as [| x a IH]; simpl; [reflexivity | rewrite IH; reflexivity]. Qed.

Lemma map_by_index {A B : Type} (f : A -> B) (l : list A) (d : A) :
  map f l = map (fun i => f (nth i l d)) (seq 0 (List.length l)).
Proof.
  induction l as [| a l IH]; simpl; [reflexivity |].
  rewrite <- seq_shift, map_map. f_equal. exact IH.
Qed.

Lemma Forall2_by_index {A B : Type} (R : A -> B -> Prop) (f : nat -> A) (g : nat -> B)
    (a n : nat) :
  (forall i, (a <= i < a + n)%nat -> R (f i) (g i)) ->
  Forall2 R (map f (seq a n)) (map g (seq a n)).
Proof.
  revert a. induction n as [| n IH]; intros a Hfg; simpl; constructor.
  - apply Hfg. lia.
  - apply IH. intros i Hi. apply Hfg. lia.
Qed.

Lemma Forall2_flat_map {A B C : Type} (R : B -> C -> Prop)
    (f : A -> list B) (g : A -> list C) (l : list A) :
  (forall a, In a l -> Forall2 R (f a) (g a)) ->
  Forall2 R (flat_map f l) (flat_map g l).
Proof.
  induction l as [| a l IH]; intros Hfg; simpl; [constructor |].
  apply Forall2_app; [apply Hfg; left; reflexivity |].
  apply IH. intros x Hx. apply Hfg. right. exact Hx.
Qed.

Lemma expandQuantities_In (setups : list LabelSetup) (s : LabelSetup) :
  In s (expandQuantities setups) -> In s setups.
Proof.
  unfold expandQuantities. rewrite in_flat_map.
  intros (s' & Hin & Hrep). apply repeat_spec in Hrep. subst. exact Hin.
Qed.

(** A placed label carries a setup of the input of the packer. *)
Lemma arrange_labels_In (setups : list LabelSetup) (sheet : SheetConfig)
    (sh : Dxf.DxfSheet) (p : Dxf.PlacedLabel) :
  In sh (Dxf.arrangeLabelsOnSheets setups sheet) -> In p (Dxf.labels sh) ->
  In (Dxf.setup p) setups.
Proof.
  intros Hsh Hp. apply expandQuantities_In.
  rewrite <- (arrange_served setups sheet). unfold placedSetups.
  apply in_flat_map. exists sh. split; [exact Hsh |]. apply in_map, Hp.
Qed.

Section FileFacts.

Context `{NumberText}.

Lemma fileName_stem (key : string) (page : nat) (extension : string) :
  fileName key page extension = (fileStem key page ++ extension)%string.
Proof.
  unfold fileStem, fileName. cbv zeta.
  rewrite append_empty, !append_three. reflexivity.
Qed.

(** X6.  No file mixes material groups.  The labels of a generated file,
    drawing or document, all carry setups of the input with one and the
    same group key, which is the key of a group of the input. *)
Theorem files_hold_one_group (setups : list LabelSetup) (cfg : SheetConfig) :
  Forall (fun f => exists key,
            In key (map fst (groupSetups setups)) /\
            Forall (fun p => In (Dxf.setup p) setups /\ getGroupKey (Dxf.setup p) = key)
                   (Dxf.labels (dxfContent f)))
         (generateDxfFiles setups cfg) /\
  Forall (fun f => exists key,
            In key (map fst (groupSetups setups)) /\
            Forall (fun p => In (Pdf.setup p) setups /\ getGroupKey (Pdf.setup p) = key)
                   (pdfContent f))
         (generatePdfFiles setups cfg).
Proof.
  pose proof (groupSetups_groups (fun s => In s setups) setups
                ltac:(apply Forall_forall; auto)) as Hgroups.
  rewrite Forall_forall in Hgroups.
  assert (Hlabel : forall key group sh p,
            In (key, group) (groupSetups setups) ->
            In sh (Dxf.arrangeLabelsOnSheets group cfg) -> In p (Dxf.labels sh) ->
            In (Dxf.setup p) setups /\ getGroupKey (Dxf.setup p) = key).
  { intros key group sh p Hg Hsh Hp.
    destruct (Hgroups _ Hg) as [_ Hall]. rewrite Forall_forall in Hall.
    apply (Hall (Dxf.setup p)). apply (arrange_labels_In group cfg sh p Hsh Hp). }
  split.
  - unfold generateDxfFiles. apply Forall_flat_map, Forall_forall.
    intros [key group] Hg. apply Forall_map, Forall_forall. intros sh Hsh. simpl.
    exists key. split; [apply (in_map fst _ _ Hg) |].
    apply Forall_forall. intros p Hp. apply (Hlabel key group sh p Hg Hsh Hp).
  - unfold generatePdfFiles. apply Forall_flat_map, Forall_forall.
    intros [key group] Hg. apply Forall_map, Forall_forall. intros i Hi. simpl.
    exists key. split; [apply (in_map fst _ _ Hg) |].
    apply in_seq in Hi. rewrite arrange_toPdf in Hi |- *. rewrite length_map in Hi.
    assert (Hi' : (i < List.length (Dxf.arrangeLabelsOnSheets group cfg))%nat) by lia.
    set (blank := {| Dxf.pageNumber := 0; Dxf.labels := [] |}).
    rewrite (nth_indep _ [] (map toPdf (Dxf.labels blank)))
      by (rewrite length_map; exact Hi').
    rewrite (map_nth (fun sh => map toPdf (Dxf.labels sh))).
    apply Forall_map, Forall_forall. intros p Hp. simpl.
    apply (Hlabel key group _ p Hg (nth_In _ blank Hi') Hp).
Qed.

(** X7.  The two exports agree file by file: they return equally many
    files, in the same order; the names of corresponding files differ in the
    extension only, and the document file holds the labels of the drawing
    file at the same places. *)
Theorem exports_agree_file_by_file (setups : list LabelSetup) (cfg : SheetConfig) :
  Forall2 (fun d p =>
             pdfContent p = map toPdf (Dxf.labels (dxfContent d)) /\
             exists stem : string,
               dxfFilename d = (stem ++ ".dxf")%string /\
               pdfFilename p = (stem ++ ".pdf")%string)
          (generateDxfFiles setups cfg) (generatePdfFiles setups cfg).
Proof.
  unfold generateDxfFiles, generatePdfFiles. apply Forall2_flat_map.
  intros [key group] _.
  pose proof (arrange_numbered group cfg) as Hnum.
  rewrite arrange_toPdf, length_map.
  set (sheets := Dxf.arrangeLabelsOnSheets group cfg) in *.
  set (blank := {| Dxf.pageNumber := 0; Dxf.labels := [] |}).
  rewrite (map_by_index _ sheets blank).
  apply Forall2_by_index. intros i Hi. simpl.
  assert (Hpage : Dxf.pageNumber (nth i sheets blank) = (i + 1)%nat).
  { change (Dxf.pageNumber (nth i sheets blank))
      with ((fun sh => Dxf.pageNumber sh) (nth i sheets blank)).
    rewrite <- (map_nth Dxf.pageNumber), Hnum.
    rewrite (nth_indep _ _ 0%nat) by (rewrite length_seq; lia).
    rewrite seq_nth by lia. lia. }
  split.
  - rewrite (nth_indep _ [] (map toPdf (Dxf.labels blank))) by (rewrite length_map; lia).
    apply (map_nth (fun sh => map toPdf (Dxf.labels sh))).
  - exists (fileStem key (i + 1)). rewrite Hpage. split; apply fileName_stem.
Qed.

End FileFacts.

Lemma count_rounds (q : Q) :
  isCount q = true -> (1 <= roundsBelow (orElse q 1))%nat.
Proof.
  intros Hq. destruct (count_is_whole q Hq) as [n Hn].
  unfold orElse, truthy. destruct (Qeq_bool_spec q 0) as [Hz | Hnz]; simpl.
  - rewrite (roundsBelow_count 1 1); [lia | reflexivity].
  - rewrite (roundsBelow_count n q Hn). destruct n; [| lia].
    exfalso. apply Hnz. exact Hn.
Qed.

Lemma negative_rounds (q : Q) : q < 0 -> roundsBelow (orElse q 1) = 0%nat.
Proof.
  intros Hq. unfold orElse, truthy.
  destruct (Qeq_bool_spec q 0) as [Hz | _]; simpl; [lra |].
  unfold roundsBelow, Qceiling.
  assert (Hfloor : (0 <= Qfloor (- q))%Z).
  { change 0%Z with (Qfloor 0). apply Qfloor_resp_le. lra. }
  destruct (- Qfloor (- q))%Z eqn:E; try reflexivity. lia.
Qed.

Lemma negative_quantities_expand (setups : list LabelSetup) :
  Forall (fun s => labelQuantity s < 0) setups -> expandQuantities setups = [].
Proof.
  unfold expandQuantities. induction 1 as [| s l Hs _ IH]; simpl; [reflexivity |].
  rewrite (negative_rounds _ Hs), IH. reflexivity.
Qed.

Lemma flat_map_nil {A B : Type} (f : A -> list B) (l : list A) :
  (forall a, In a l -> f a = []) -> flat_map f l = [].
Proof.
  induction l as [| a l IH]; intros Hf; simpl; [reflexivity |].
  rewrite (Hf a (or_introl eq_refl)), IH; [reflexivity |].
  intros x Hx. apply Hf. right. exact Hx.
Qed.

Lemma flat_map_length_ge {A B : Type} (f : A -> list B) (l : list A) :
  (forall a, In a l -> f a <> []) ->
  (List.length l <= List.length (flat_map f l))%nat.
Proof.
  induction l as [| a l IH]; intros Hf; simpl; [lia |].
  rewrite length_app.
  assert (Ha : f a <> []) by (apply Hf; left; reflexivity).
  assert (Hl : (List.length l <= List.length (flat_map f l))%nat)
    by (apply IH; intros x Hx; apply Hf; right; exact Hx).
  destruct (f a); [congruence | simpl; lia].
Qed.

Section FileCounts.

Context `{NumberText}.

(** A group of setups whose quantities are counts fills a sheet. *)
Lemma count_group_has_sheet (g : string * list LabelSetup) (cfg : SheetConfig) :
  groupOf (fun s => isCount (labelQuantity s) = true) g ->
  Dxf.arrangeLabelsOnSheets (snd g) cfg <> [].
Proof.
  intros [Hne Hall] Hnil.
  pose proof (arrange_places_all (snd g) cfg) as Hcount.
  rewrite Hnil, expandQuantities_length in Hcount.
  destruct (snd g) as [| s l]; [congruence |].
  inversion Hall as [| s' l' [Hs _] _]; subst.
  pose proof (count_rounds _ Hs) as Hr.
  change (totalPlaced []) with 0%nat in Hcount.
  cbn [map list_sum fold_right] in Hcount. lia.
Qed.

(** The first file of a group whose quantities are counts. *)
Lemma count_group_first_sheet (g : string * list LabelSetup) (cfg : SheetConfig) :
  groupOf (fun s => isCount (labelQuantity s) = true) g ->
  exists sh rest,
    Dxf.arrangeLabelsOnSheets (snd g) cfg = sh :: rest /\
    Dxf.pageNumber sh = 1%nat /\ Dxf.labels sh <> [] /\
    Forall (fun p => In (Dxf.setup p) (snd g)) (Dxf.labels sh).
Proof.
  intros Hg.
  pose proof (count_group_has_sheet g cfg Hg) as Hne.
  pose proof (arrange_numbered (snd g) cfg) as Hnum.
  pose proof (arrange_nonempty (snd g) cfg) as Hfull.
  pose proof (arrange_labels_In (snd g) cfg) as Hin.
  destruct (Dxf.arrangeLabelsOnSheets (snd g) cfg) as [| sh rest]; [congruence |].
  exists sh, rest. split; [reflexivity |].
  simpl in Hnum. injection Hnum as Hpage _.
  inversion Hfull as [| ? ? Hlabels _]; subst.
  split; [exact Hpage |]. split; [exact Hlabels |].
  apply Forall_forall. intros p Hp. apply (Hin sh p); [left; reflexivity | exact Hp].
Qed.

(** X8.  When every quantity is a count (0, 1, 2, ...), each material group
    yields a drawing file and a document file of its own: the file named
    after the key of the group with page 1, which holds at least one label
    and only labels of setups of that group.  There are at least as many
    files as groups, and a non-empty input never ends in an empty
    export. *)
Theorem counted_groups_give_files (setups : list LabelSetup) (cfg : SheetConfig) :
  forallb (fun s => isCount (labelQuantity s)) setups = true ->
  Forall (fun g =>
            (exists f, In f (generateDxfFiles setups cfg) /\
                       dxfFilename f = fileName (fst g) 1 ".dxf" /\
                       Dxf.labels (dxfContent f) <> [] /\
                       Forall (fun p => In (Dxf.setup p) (snd g))
                              (Dxf.labels (dxfContent f))) /\
            (exists f, In f (generatePdfFiles setups cfg) /\
                       pdfFilename f = fileName (fst g) 1 ".pdf" /\
                       pdfContent f <> [] /\
                       Forall (fun p => In (Pdf.setup p) (snd g)) (pdfContent f)))
         (groupSetups setups) /\
  (List.length (groupSetups setups) <= List.length (generateDxfFiles setups cfg))%nat /\
  (List.length (groupSetups setups) <= List.length (generatePdfFiles setups cfg))%nat /\
  (setups <> [] -> generateDxfFiles setups cfg <> [] /\ generatePdfFiles setups cfg <> []).
Proof.
  intros Hcounts.
  assert (Hall : Forall (fun s => isCount (labelQuantity s) = true) setups).
  { apply Forall_forall. intros s Hs. rewrite forallb_forall in Hcounts. auto. }
  pose proof (groupSetups_groups _ setups Hall) as Hgroups.
  assert (Hfiles :
    Forall (fun g =>
              (exists f, In f (generateDxfFiles setups cfg) /\
                         dxfFilename f = fileName (fst g) 1 ".dxf" /\
                         Dxf.labels (dxfContent f) <> [] /\
                         Forall (fun p => In (Dxf.setup p) (snd g))
                                (Dxf.labels (dxfContent f))) /\
              (exists f, In f (generatePdfFiles setups cfg) /\
                         pdfFilename f = fileName (fst g) 1 ".pdf" /\
                         pdfContent f <> [] /\
                         Forall (fun p => In (Pdf.setup p) (snd g)) (pdfContent f)))
           (groupSetups setups)).
  { apply Forall_forall. intros [key group] Hin.
    rewrite Forall_forall in Hgroups. specialize (Hgroups _ Hin).
    destruct (count_group_first_sheet (key, group) cfg Hgroups)
      as (sh & rest & Hsheets & Hpage & Hlabels & Hsetups).
    cbn [fst snd] in *. split.
    - exists {| dxfFilename := fileName key (Dxf.pageNumber sh) ".dxf"; dxfContent := sh |}.
      split; [| split; [| split]].
      + unfold generateDxfFiles. apply in_flat_map. exists (key, group).
        split; [exact Hin |]. rewrite Hsheets. left. reflexivity.
      + cbn [dxfFilename]. rewrite Hpage. reflexivity.
      + exact Hlabels.
      + exact Hsetups.
    - exists {| pdfFilename := fileName key (0 + 1) ".pdf";
                pdfContent := map toPdf (Dxf.labels sh) |}.
      split; [| split; [| split]].
      + unfold generatePdfFiles. apply in_flat_map. exists (key, group).
        split; [exact Hin |]. rewrite arrange_toPdf, Hsheets. left. reflexivity.
      + reflexivity.
      + cbn [pdfContent]. destruct (Dxf.labels sh); [congruence | discriminate].
      + cbn [pdfContent]. apply Forall_map. exact Hsetups. }
  split; [exact Hfiles |].
  assert (Hd : (List.length (groupSetups setups)
                <= List.length (generateDxfFiles setups cfg))%nat).
  { apply flat_map_length_ge. intros [key group] Hg Hnil.
    apply map_eq_nil in Hnil. rewrite Forall_forall in Hgroups.
    apply (count_group_has_sheet (key, group) cfg (Hgroups _ Hg) Hnil). }
  assert (Hp : (List.length (groupSetups setups)
                <= List.length (generatePdfFiles setups cfg))%nat).
  { apply flat_map_length_ge. intros [key group] Hg Hnil.
    apply map_eq_nil in Hnil. rewrite Forall_forall in Hgroups.
    apply (count_group_has_sheet (key, group) cfg (Hgroups _ Hg)). simpl.
    rewrite arrange_toPdf, length_map in Hnil.
    destruct (Dxf.arrangeLabelsOnSheets group cfg); [reflexivity | discriminate Hnil]. }
  split; [exact Hd |]. split; [exact Hp |].
  intros Hne.
  assert (Hg : exists g, In g (groupSetups setups)).
  { destruct setups as [| s l]; [congruence |].
    rewrite groupSetups_partition. unfold partitionByKey. simpl.
    eexists. left. reflexivity. }
  destruct Hg as [g Hg]. rewrite Forall_forall in Hfiles.
  destruct (Hfiles g Hg) as [(fd & Hfd & _) (fp & Hfp & _)].
  split; intros Hnil; rewrite Hnil in *; contradiction.
Qed.

(** X9.  Setups whose quantities are all negative are expanded to no
    request: both exports return no file at all (the case that the export
    routes answer with "No files generated"). *)
Theorem negative_quantities_give_no_file (setups : list LabelSetup) (cfg : SheetConfig) :
  Forall (fun s => labelQuantity s < 0) setups ->
  generateDxfFiles setups cfg = [] /\ generatePdfFiles setups cfg = [].
Proof.
  intros Hneg.
  pose proof (groupSetups_groups _ setups Hneg) as Hgroups.
  rewrite Forall_forall in Hgroups.
  assert (Hnone : forall key group, In (key, group) (groupSetups setups) ->
                                    Dxf.arrangeLabelsOnSheets group cfg = []).
  { intros key group Hg. destruct (Hgroups _ Hg) as [_ Hall]. simpl in Hall.
    unfold Dxf.arrangeLabelsOnSheets. rewrite negative_quantities_expand; [reflexivity |].
    eapply Forall_impl; [| exact Hall]. simpl. intros s [Hs _]. exact Hs. }
  split.
  - apply flat_map_nil. intros [key group] Hg. rewrite (Hnone key group Hg). reflexivity.
  - apply flat_map_nil. intros [key group] Hg.
    rewrite arrange_toPdf, (Hnone key group Hg). reflexivity.
Qed.

(** X10.  The file name tells "Non Adhesive" from all other styles and no
    more: two setups of the same colours and thickness, both of a style
    other than "Non Adhesive", get the same file name for the same page,
    whether or not they are in the same material group. *)
Theorem names_do_not_tell_other_styles (s1 s2 : LabelSetup) (page : nat) (extension : string) :
  keyReadsBack s1 -> keyReadsBack s2 ->
  orElseStr (textColour s1) "Black" = orElseStr (textColour s2) "Black" ->
  orElseStr (labelColourBackground s1) "White"
    = orElseStr (labelColourBackground s2) "White" ->
  numberToString (orElse (labelThicknessMm s1) 0.8)
    = numberToString (orElse (labelThicknessMm s2) 0.8) ->
  style s1 <> "Non Adhesive"%string -> style s2 <> "Non Adhesive"%string ->
  fileName (getGroupKey s1) page extension = fileName (getGroupKey s2) page extension.
Proof.
  intros H1 H2 Ht Hb Hn Hs1 Hs2.
  rewrite (fileName_nameOf s1 page extension H1), (fileName_nameOf s2 page extension H2).
  unfold nameOf. rewrite Ht, Hb, Hn.
  apply String.eqb_neq in Hs1, Hs2. rewrite Hs1, Hs2. reflexivity.
Qed.

End FileCounts.

(** Two groups: each has its first drawing file. *)
Lemma counted_groups_give_files_witness :
  forallb (fun s => isCount (labelQuantity s)) twoGroups = true /\
  twoGroups <> [] /\
  Forall (fun g =>
            exists f, In f (@generateDxfFiles decimalText twoGroups DEFAULT_SHEET) /\
                      dxfFilename f = @fileName decimalText (fst g) 1 ".dxf" /\
                      Dxf.labels (dxfContent f) <> [] /\
                      Forall (fun p => In (Dxf.setup p) (snd g))
                             (Dxf.labels (dxfContent f)))
         (@groupSetups decimalText twoGroups) /\
  @generateDxfFiles decimalText twoGroups DEFAULT_SHEET <> [] /\
  @generatePdfFiles decimalText twoGroups DEFAULT_SHEET <> [].
Proof.
  assert (Hc : forallb (fun s => isCount (labelQuantity s)) twoGroups = true)
    by reflexivity.
  assert (Hne : twoGroups <> []) by discriminate.
  split; [exact Hc |]. split; [exact Hne |].
  pose proof (@counted_groups_give_files decimalText twoGroups DEFAULT_SHEET Hc)
    as (Hfiles & _ & _ & Hsome).
  split; [| exact (Hsome Hne)].
  eapply Forall_impl; [| exact Hfiles]. intros g [Hd _]. exact Hd.
Defined.

Lemma negativeQuantities_negative :
  Forall (fun s => labelQuantity s < 0) negativeQuantities.
Proof. repeat constructor. Defined.

Lemma negative_quantities_give_no_file_witness :
  Forall (fun s => labelQuantity s < 0) negativeQuantities /\
  @generateDxfFiles decimalText negativeQuantities DEFAULT_SHEET = [] /\
  @generatePdfFiles decimalText negativeQuantities DEFAULT_SHEET = [].
Proof.
  split; [exact negativeQuantities_negative |].
  exact (@negative_quantities_give_no_file decimalText negativeQuantities DEFAULT_SHEET
           negativeQuantities_negative).
Defined.

Lemma twoStyles_keys :
  @keyReadsBack decimalText oneLabel /\ @keyReadsBack decimalText glossyLabel.
Proof. split; repeat constructor. Defined.

(** An adhesive and a glossy label are two groups whose first pages have
    one name. *)
Lemma names_do_not_tell_other_styles_witness :
  @keyReadsBack decimalText oneLabel /\ @keyReadsBack decimalText glossyLabel /\
  style oneLabel <> "Non Adhesive"%string /\ style glossyLabel <> "Non Adhesive"%string /\
  @getGroupKey decimalText oneLabel <> @getGroupKey decimalText glossyLabel /\
  @fileName decimalText (@getGroupKey decimalText oneLabel) 1 ".dxf"
  = @fileName decimalText (@getGroupKey decimalText glossyLabel) 1 ".dxf".
Proof.
  assert (Hs1 : style oneLabel <> "Non Adhesive"%string) by discriminate.
  assert (Hs2 : style glossyLabel <> "Non Adhesive"%string) by discriminate.
  split; [exact (proj1 twoStyles_keys) |]. split; [exact (proj2 twoStyles_keys) |].
  split; [exact Hs1 |]. split; [exact Hs2 |].
  split; [vm_compute; discriminate |].
  exact (@names_do_not_tell_other_styles decimalText oneLabel glossyLabel 1 ".dxf"
           (proj1 twoStyles_keys) (proj2 twoStyles_keys) eq_refl eq_refl eq_refl Hs1 Hs2).
Defined.

(** ** The text fit: bounds, the two exports *)

Lemma text_length_positive (content : string) :
  content <> EmptyString -> 0 < inject_Z (Z.of_nat (String.length content)).
Proof.
  intros Hne. destruct content; [congruence |]. simpl String.length.
  rewrite <- (Zlt_Qlt 0). lia.
Qed.

(** The scaled height does not depend on the desired height. *)
Lemma scaled_height (len d avail ratio : Q) :
  0 < len -> 0 < d -> 0 < ratio ->
  d * (avail / (len * d * ratio)) == avail / (len * ratio).
Proof. intros Hl Hd Hr. field. repeat split; lra. Qed.

(** X11.  For a text that is not empty and a desired height of at least
    0.5, the fitted height lies between 0.5 and the desired height: the fit
    never enlarges a line and never goes below its floor. *)
Theorem fitted_height_is_bounded (content : string) (maxWidth desiredHeight padding : Q) :
  content <> EmptyString -> 0.5 <= desiredHeight ->
  0.5 <= DxfExport.calculateFitTextHeight content maxWidth desiredHeight (Some padding)
  /\ DxfExport.calculateFitTextHeight content maxWidth desiredHeight (Some padding)
     <= desiredHeight.
Proof.
  intros Hne Hd. pose proof (text_length_positive content Hne) as Hlen.
  unfold DxfExport.calculateFitTextHeight, DxfExport.estimateTextWidth.
  set (len := inject_Z (Z.of_nat (String.length content))) in *.
  set (avail := maxWidth - padding * 2).
  test_number; [split; lra |].
  rewrite (Math_max_comp _ _ _ (scaled_height len desiredHeight avail 0.55
                                  Hlen ltac:(lra) ltac:(lra))).
  split; [apply Math_max_l |].
  assert (Hnh : avail / (len * 0.55) <= desiredHeight).
  { apply Qle_shift_div_r; [nra | nra]. }
  destruct (Math_max_case 0.5 (avail / (len * 0.55))) as [-> | ->]; lra.
Qed.

Lemma fitted_height_is_bounded_witness :
  "ABCDEFGHIJ"%string <> EmptyString /\ 0.5 <= 5 /\
  0.5 <= DxfExport.calculateFitTextHeight "ABCDEFGHIJ" 30 5 (Some 2) /\
  DxfExport.calculateFitTextHeight "ABCDEFGHIJ" 30 5 (Some 2) <= 5.
Proof.
  assert (Hne : "ABCDEFGHIJ"%string <> EmptyString) by discriminate.
  assert (Hd : 0.5 <= 5) by lra.
  split; [exact Hne |]. split; [exact Hd |].
  exact (fitted_height_is_bounded "ABCDEFGHIJ" 30 5 2 Hne Hd).
Defined.

(** One line in both exports: the document export, with its smaller width
    ratio, is at least as high. *)
Lemma line_fit_compared (len d w : Q) :
  0 < len -> 0.5 <= d ->
  (if Qle_bool (len * d * 0.55) (w - 2 * 2) then d
   else Math_max 0.5 (d * ((w - 2 * 2) / (len * d * 0.55))))
  <= (if Qlt_bool (w - 2 * 2) (len * d * 0.5)
      then Math_max 0.5 ((w - 2 * 2) / (len * 0.5)) else d).
Proof.
  intros Hlen Hd. set (avail := w - 2 * 2).
  assert (Hscaled : d * (avail / (len * d * 0.55)) == avail / (len * 0.55))
    by (apply scaled_height; lra).
  destruct (Qlt_bool_spec avail (len * d * 0.5)) as [Hwide | Hfit].
  - (* neither export fits the line *)
    destruct (Qle_bool_spec (len * d * 0.55) avail) as [Hno | _]; [nra |].
    rewrite (Math_max_comp _ _ _ Hscaled).
    set (a := avail / (len * 0.55)). set (b := avail / (len * 0.5)).
    assert (Ha : a * (len * 0.55) == avail) by (unfold a; field; lra).
    assert (Hb : b * (len * 0.5) == avail) by (unfold b; field; lra).
    pose proof (Math_max_l 0.5 b). pose proof (Math_max_r 0.5 b).
    destruct (Math_max_case 0.5 a) as [-> | ->]; [assumption |].
    destruct (Qlt_le_dec avail 0) as [Hneg | Hpos].
    + assert (a < 0) by nra. lra.
    + assert (a <= b) by nra. lra.
  - (* the document export keeps the desired height *)
    destruct (Qle_bool_spec (len * d * 0.55) avail); [lra |].
    rewrite (Math_max_comp _ _ _ Hscaled).
    assert (Hnh : avail / (len * 0.55) <= d)
      by (apply Qle_shift_div_r; nra).
    destruct (Math_max_case 0.5 (avail / (len * 0.55))) as [-> | ->]; lra.
Qed.

Lemma lineData_compared (setup : LabelSetup) (ls : list LabelLine) :
  Forall (fun line => DxfExport.isValidLine line = true /\ readableSize line) ls ->
  noTallerThan
    (map (fun line =>
            (text line,
             DxfExport.calculateFitTextHeight (text line) (labelLengthMm setup)
               (orElse (textSizeMm line) 2) (Some 2)))
         ls)
    (map (fun line =>
            let textHeight := orElse (textSizeMm line) 2 in
            let len := inject_Z (Z.of_nat (String.length (text line))) in
            (text line,
             if Qlt_bool (labelLengthMm setup - 2 * 2) (len * textHeight * 0.5)
             then Math_max 0.5 ((labelLengthMm setup - 2 * 2) / (len * 0.5))
             else textHeight))
         ls).
Proof.
  unfold noTallerThan.
  induction 1 as [| line ls [Hvalid Hsize] _ IH]; simpl; constructor; [| exact IH].
  simpl. split; [reflexivity |].
  unfold DxfExport.calculateFitTextHeight, DxfExport.estimateTextWidth. cbv zeta.
  pose proof (line_fit_compared _ _ (labelLengthMm setup)
                (valid_line_length line Hvalid) Hsize) as Hcmp.
  exact Hcmp.
Qed.

(** X14.  Both exports draw the same lines of a setup, in the same order,
    and when every valid line has a size of at least 0.5 (a size of 0 is
    read as 2), no line is higher in the drawing than in the document. *)
Theorem drawing_text_no_taller_than_document (setup : LabelSetup) :
  Forall readableSize (filter DxfExport.isValidLine (lines setup)) ->
  noTallerThan (DxfExport.lineData setup) (PdfExport.lineData setup).
Proof.
  intros Hall. apply lineData_compared.
  apply Forall_forall. intros line Hin. split.
  - apply filter_In in Hin. apply Hin.
  - rewrite Forall_forall in Hall. apply Hall, Hin.
Qed.

Lemma tenLetters_readable :
  Forall readableSize (filter DxfExport.isValidLine (lines tenLetters)).
Proof. constructor; [| constructor]. vm_compute. discriminate. Defined.

Lemma drawing_text_no_taller_than_document_witness :
  Forall readableSize (filter DxfExport.isValidLine (lines tenLetters)) /\
  noTallerThan (DxfExport.lineData tenLetters) (PdfExport.lineData tenLetters).
Proof.
  split; [exact tenLetters_readable |].
  exact (drawing_text_no_taller_than_document tenLetters tenLetters_readable).
Defined.

(** ** The walker of the traced paths *)

Ltac by_letter t :=
  repeat match goal with
         | |- context [Ascii.eqb t ?c] =>
             destruct (Ascii.eqb_spec t c) as [-> | ?]
         end.

Lemma flush_count (p : Trace.Pen) :
  pointCount (Trace.flush p)
  = (pointCount (Trace.polylines p) + List.length (Trace.currentPolyline p))%nat.
Proof.
  unfold Trace.flush, pointCount.
  destruct (Trace.currentPolyline p) as [| pt cur].
  - simpl. lia.
  - rewrite concat_app, length_app. simpl. rewrite length_app. simpl. lia.
Qed.

Lemma walk_count (flipY : bool) (h : jsnum) (p : Trace.Pen) (cmd : Trace.PathCommand) :
  let p' := Trace.walk flipY h p cmd in
  (pointCount (Trace.polylines p') + List.length (Trace.currentPolyline p'))%nat
  = (pointCount (Trace.polylines p) + List.length (Trace.currentPolyline p)
     + pointsOf cmd)%nat.
Proof.
  destruct cmd as [t cx cy c1x c1y c2x c2y].
  unfold Trace.walk, pointsOf, pointsOfLetter, Trace.typeIs.
  cbn [Trace.type Trace.x Trace.y Trace.x1 Trace.y1 Trace.x2 Trace.y2
       existsb list_ascii_of_string].
  by_letter t; cbn [orb Ascii.eqb Bool.eqb andb];
    unfold Trace.moveTo, Trace.lineTo, Trace.curveTo;
    cbn [Trace.polylines Trace.currentPolyline];
    rewrite ?flush_count, ?length_app; try (simpl; lia).
Qed.

Lemma walks_count (flipY : bool) (h : jsnum) (commands : list Trace.PathCommand) :
  forall p : Trace.Pen,
    pointCount (Trace.flush (fold_left (Trace.walk flipY h) commands p))
    = (pointCount (Trace.polylines p) + List.length (Trace.currentPolyline p)
       + list_sum (map pointsOf commands))%nat.
Proof.
  induction commands as [| cmd commands IH]; intros p.
  - simpl. rewrite flush_count. lia.
  - simpl fold_left. rewrite IH.
    pose proof (walk_count flipY h p cmd) as Hstep. simpl in Hstep.
    rewrite Hstep. simpl. lia.
Qed.

Lemma parsed_letter (letter : ascii) (args : list jsnum) :
  Forall (fun cmd => Trace.type cmd = letter /\ (1 <= pointsOfLetter letter)%nat)
         (Trace.commandsOf letter args).
Proof.
  unfold Trace.commandsOf.
  repeat match goal with
         | |- context [if ?b then _ else _] =>
             lazymatch b with
             | existsb _ _ => destruct b eqn:?
             end
         end;
    try (apply Forall_forall; intros cmd Hin; apply in_map_iff in Hin;
         destruct Hin as [i [<- _]]; split; [reflexivity |]);
    try (constructor; [ split; [reflexivity |] | constructor ]);
    try constructor;
    unfold pointsOfLetter;
    destruct letter as [[] [] [] [] [] [] [] []]; try discriminate;
    vm_compute; lia.
Qed.

Lemma parsed_commands_are_walked (d : string) :
  Forall (fun cmd => (1 <= pointsOf cmd)%nat) (Trace.parseSvgPath d).
Proof.
  unfold Trace.parseSvgPath. apply Forall_flat_map.
  apply Forall_forall. intros m _.
  eapply Forall_impl; [| apply parsed_letter].
  intros cmd [Htype Hle]. unfold pointsOf. rewrite Htype. exact Hle.
Qed.

(** The pen after a command that the walker handles. *)
Lemma walk_starts (flipY : bool) (h : jsnum) (p : Trace.Pen) (cmd : Trace.PathCommand) :
  (1 <= pointsOf cmd)%nat ->
  let p' := Trace.walk flipY h p cmd in
  Trace.currentPolyline p' <> []
  /\ Trace.polylines p'
     = if isMove cmd then Trace.flush p else Trace.polylines p.
Proof.
  destruct cmd as [t cx cy c1x c1y c2x c2y].
  unfold Trace.walk, pointsOf, pointsOfLetter, isMove, Trace.typeIs.
  cbn [Trace.type Trace.x Trace.y Trace.x1 Trace.y1 Trace.x2 Trace.y2
       existsb list_ascii_of_string].
  by_letter t; cbn [orb Ascii.eqb Bool.eqb andb]; intros Hle;
    try (exfalso; lia);
    unfold Trace.moveTo, Trace.lineTo, Trace.curveTo;
    cbn [Trace.polylines Trace.currentPolyline];
    (split; [| reflexivity]);
    try discriminate;
    try (intros Hnil; apply app_eq_nil in Hnil; destruct Hnil as [_ Hnil];
         discriminate Hnil).
Qed.

Lemma flush_nonempty (p : Trace.Pen) :
  Forall (fun polyline => polyline <> []) (Trace.polylines p) ->
  Forall (fun polyline => polyline <> []) (Trace.flush p).
Proof.
  intros Hall. unfold Trace.flush.
  destruct (Trace.currentPolyline p) as [| pt cur] eqn:Hcur; [exact Hall |].
  apply Forall_app. split; [exact Hall |]. constructor; [discriminate | constructor].
Qed.

Lemma walks_start (flipY : bool) (h : jsnum) (commands : list Trace.PathCommand) :
  Forall (fun cmd => (1 <= pointsOf cmd)%nat) commands ->
  forall p : Trace.Pen,
    Trace.currentPolyline p <> [] ->
    Forall (fun polyline => polyline <> []) (Trace.polylines p) ->
    let result := Trace.flush (fold_left (Trace.walk flipY h) commands p) in
    Forall (fun polyline => polyline <> []) result
    /\ List.length result
       = S (List.length (Trace.polylines p) + List.length (filter isMove commands)).
Proof.
  induction 1 as [| cmd commands Hcmd Hall IH]; intros p Hcur Hpoly.
  - simpl. split; [apply flush_nonempty; exact Hpoly |].
    unfold Trace.flush. destruct (Trace.currentPolyline p); [congruence |].
    rewrite length_app. simpl. lia.
  - simpl fold_left.
    destruct (walk_starts flipY h p cmd Hcmd) as [Hcur' Hpoly'].
    specialize (IH (Trace.walk flipY h p cmd) Hcur').
    cbv zeta in IH. rewrite Hpoly' in IH.
    simpl filter. destruct (isMove cmd).
    + destruct (IH (flush_nonempty p Hpoly)) as [Hne Hlen].
      split; [exact Hne |]. rewrite Hlen.
      unfold Trace.flush. destruct (Trace.currentPolyline p); [congruence |].
      rewrite length_app. simpl. lia.
    + destruct (IH Hpoly) as [Hne Hlen].
      split; [exact Hne |]. rewrite Hlen. lia.
Qed.

Lemma walked_polylines (flipY : bool) (h : jsnum) (commands : list Trace.PathCommand) :
  Forall (fun cmd => (1 <= pointsOf cmd)%nat) commands ->
  let result :=
    Trace.flush
      (fold_left (Trace.walk flipY h) commands
                 {| Trace.polylines := []; Trace.currentPolyline := [];
                    Trace.currentX := Fin 0; Trace.currentY := Fin 0;
                    Trace.startX := Fin 0; Trace.startY := Fin 0 |}) in
  Forall (fun polyline => polyline <> []) result
  /\ List.length result = polylineStarts commands.
Proof.
  intros Hall. destruct commands as [| cmd commands].
  - simpl. split; constructor.
  - inversion Hall as [| ? ? Hcmd Hrest]; subst.
    simpl fold_left.
    match goal with
    | |- context [Trace.walk ?f ?h ?p cmd] =>
        destruct (walk_starts f h p cmd Hcmd) as [Hcur Hpoly];
        pose proof (walks_start f h commands Hrest (Trace.walk f h p cmd) Hcur) as Hwalk
    end.
    cbv zeta in Hwalk. rewrite Hpoly in Hwalk.
    assert (Hnone : forall b : bool,
               (if b then Trace.flush
                  {| Trace.polylines := []; Trace.currentPolyline := [];
                     Trace.currentX := Fin 0; Trace.currentY := Fin 0;
                     Trace.startX := Fin 0; Trace.startY := Fin 0 |}
                else []) = ([] : list (list Trace.Point))).
    { intros []; reflexivity. }
    cbn [Trace.polylines] in Hwalk. rewrite Hnone in Hwalk.
    destruct (Hwalk (Forall_nil _)) as [Hne Hlen].
    split; [exact Hne |]. rewrite Hlen. reflexivity.
Qed.

(** X18.  The polylines of a path.  [svgPathToPolylinePoints] returns no
    empty polyline, and it starts a polyline at the first command of the
    path and at every later move ([M] or [m]), and nowhere else: a path
    without commands gives no polyline, and a path that begins with a line,
    a curve or a close still gives one. *)
Theorem walker_starts_polylines (d : string) (flipY : option bool) (height : option jsnum) :
  let polylines := Trace.svgPathToPolylinePoints d flipY height in
  Forall (fun polyline => polyline <> []) polylines
  /\ List.length polylines = polylineStarts (Trace.parseSvgPath d).
Proof.
  unfold Trace.svgPathToPolylinePoints.
  apply walked_polylines. apply parsed_commands_are_walked.
Qed.

(** X19.  No point is lost and none is added.  The points of all polylines
    that [svgPathToPolylinePoints] returns are, in number, one for each
    move, line and close command and twelve for each curve command that
    [parseSvgPath] read; and [parseSvgPath] emits no command of another
    kind, so the walker handles every command that it is given. *)
Theorem walker_keeps_every_point (d : string) (flipY : option bool) (height : option jsnum) :
  pointCount (Trace.svgPathToPolylinePoints d flipY height)
  = list_sum (map pointsOf (Trace.parseSvgPath d))
  /\ Forall (fun cmd => (1 <= pointsOf cmd)%nat) (Trace.parseSvgPath d).
Proof.
  split; [| apply parsed_commands_are_walked].
  unfold Trace.svgPathToPolylinePoints. rewrite walks_count. reflexivity.
Qed.

(** *** Flipping is mirroring *)

Lemma flush_reflected (h : Q) (p q : Trace.Pen) :
  Reflected h p q -> Trace.flush p = map (map (mirror h)) (Trace.flush q).
Proof.
  intros [Hpoly Hcur _ _ _ _]. unfold Trace.flush. rewrite Hpoly, Hcur.
  destruct (Trace.currentPolyline q) as [| pt cur]; [reflexivity |].
  simpl. rewrite map_app. reflexivity.
Qed.

Lemma moveTo_reflected (h : Q) (g : jsnum) (p q : Trace.Pen) (nx ny : jsnum) :
  Reflected h p q ->
  Reflected h (Trace.moveTo true (Fin h) p nx ny) (Trace.moveTo false g q nx ny).
Proof.
  intros H. unfold Trace.moveTo.
  constructor; cbn [Trace.polylines Trace.currentPolyline Trace.currentX
                    Trace.currentY Trace.startX Trace.startY]; try reflexivity.
  apply flush_reflected. exact H.
Qed.

Lemma lineTo_reflected (h : Q) (g : jsnum) (p q : Trace.Pen) (nx ny : jsnum) :
  Reflected h p q ->
  Reflected h (Trace.lineTo true (Fin h) p nx ny) (Trace.lineTo false g q nx ny).
Proof.
  intros [Hpoly Hcur Hx Hy Hsx Hsy]. unfold Trace.lineTo.
  constructor; cbn [Trace.polylines Trace.currentPolyline Trace.currentX
                    Trace.currentY Trace.startX Trace.startY];
    try reflexivity; try assumption.
  rewrite Hcur, map_app. reflexivity.
Qed.

Lemma walk_reflected (h : Q) (g : jsnum) (p q : Trace.Pen) (cmd : Trace.PathCommand) :
  isCurve cmd = false ->
  Reflected h p q ->
  Reflected h (Trace.walk true (Fin h) p cmd) (Trace.walk false g q cmd).
Proof.
  intros Hstraight H. pose proof H as [_ _ Hx Hy Hsx Hsy].
  unfold isCurve in Hstraight. apply orb_false_iff in Hstraight.
  destruct Hstraight as [HC Hc].
  unfold Trace.walk. rewrite Hx, Hy, Hsx, Hsy, HC, Hc.
  repeat match goal with
         | |- context [if ?b then _ else _] =>
             lazymatch b with
             | context [Trace.typeIs] => destruct b
             end
         end;
    first [ apply moveTo_reflected | apply lineTo_reflected | idtac ];
    exact H.
Qed.

Lemma walks_reflected (h : Q) (g : jsnum) (commands : list Trace.PathCommand) :
  forallb (fun cmd => negb (isCurve cmd)) commands = true ->
  forall p q : Trace.Pen,
    Reflected h p q ->
    Reflected h (fold_left (Trace.walk true (Fin h)) commands p)
                (fold_left (Trace.walk false g) commands q).
Proof.
  induction commands as [| cmd commands IH]; intros Hall p q H; [exact H |].
  simpl in Hall. apply andb_true_iff in Hall. destruct Hall as [Hcmd Hall].
  simpl. apply IH; [exact Hall |]. apply walk_reflected; [| exact H].
  apply negb_true_iff. exact Hcmd.
Qed.

(** X20.  For a path without curve commands and a finite height, the walk
    with [flipY] returns the polylines of the walk without it, point for
    point, with [transformY] applied: every ordinate [y] replaced by
    [height - y]; where a number of the path is missing or not finite, the
    result is the same in both.  Leaving [flipY] out sets it. *)
Theorem flipped_walk_is_mirrored (d : string) (height : Q) (other : option jsnum) :
  forallb (fun cmd => negb (isCurve cmd)) (Trace.parseSvgPath d) = true ->
  Trace.svgPathToPolylinePoints d (Some true) (Some (Fin height))
  = map (map (mirror height)) (Trace.svgPathToPolylinePoints d (Some false) other)
  /\ Trace.svgPathToPolylinePoints d None (Some (Fin height))
     = Trace.svgPathToPolylinePoints d (Some true) (Some (Fin height)).
Proof.
  intros Hstraight. split; [| reflexivity].
  unfold Trace.svgPathToPolylinePoints.
  apply flush_reflected. apply walks_reflected; [exact Hstraight |].
  constructor; reflexivity.
Qed.

Lemma flipped_walk_is_mirrored_witness :
  forallb (fun cmd => negb (isCurve cmd)) (Trace.parseSvgPath squarePath) = true /\
  Trace.svgPathToPolylinePoints squarePath (Some true) (Some (Fin 100))
  = map (map (mirror 100)) (Trace.svgPathToPolylinePoints squarePath (Some false) None).
Proof.
  assert (H : forallb (fun cmd => negb (isCurve cmd)) (Trace.parseSvgPath squarePath) = true)
    by (vm_compute; reflexivity).
  split; [exact H |].
  exact (proj1 (flipped_walk_is_mirrored squarePath 100 None H)).
Defined.

(** ** The models of the traced outlines *)

Lemma natToString_injective (m n : nat) : natToString m = natToString n -> m = n.
Proof.
  unfold natToString. intros H.
  apply (f_equal DecimalString.NilEmpty.uint_of_string) in H.
  rewrite !DecimalString.NilEmpty.usu in H. injection H as H.
  apply (f_equal Nat.of_uint) in H.
  rewrite !DecimalNat.Unsigned.of_to in H. exact H.
Qed.

Lemma numbered_keys_differ (prefix : string) (n : nat) :
  NoDup (map (fun i => (prefix ++ natToString i)%string) (seq 0 n)).
Proof.
  apply NoDup_map_NoDup_ForallPairs; [| apply seq_NoDup].
  intros i j _ _ H. apply natToString_injective.
  induction prefix as [| c prefix IH]; simpl in H; [exact H |].
  injection H as H. exact (IH H).
Qed.

Lemma all_but_last {A : Type} (l : list A) (d : A) :
  map (fun i => nth i l d) (seq 0 (List.length l - 1)) = removelast l.
Proof.
  destruct l as [| a l _] using rev_ind; [reflexivity |].
  rewrite removelast_last, length_app. simpl List.length.
  rewrite Nat.add_sub.
  transitivity (map (fun p : A => p) l); [| apply map_id].
  rewrite (map_by_index (fun p => p) l d).
  apply map_ext_in. intros i Hi. apply in_seq in Hi.
  apply app_nth1. lia.
Qed.

Lemma all_but_first {A : Type} (l : list A) (d : A) :
  map (fun i => nth (i + 1) l d) (seq 0 (List.length l - 1)) = tl l.
Proof.
  destruct l as [| a l]; [reflexivity |].
  simpl tl. simpl List.length. rewrite Nat.sub_succ, Nat.sub_0_r.
  transitivity (map (fun p : A => p) l); [| apply map_id].
  rewrite (map_by_index (fun p => p) l d).
  apply map_ext. intros i. rewrite Nat.add_1_r. reflexivity.
Qed.

(** X22.  The model of [createPolylineModel] is the chain along the points:
    its lines start at all points but the last and end at all points but the
    first, in order, so each line ends where the next one starts and fewer
    than two points give no line; the keys of the lines are distinct, so no
    line takes the place of another in the model. *)
Theorem outline_is_a_chain (points : list Trace.Point) :
  let lines := Outline.createPolylineModel points in
  map Outline.origin lines = removelast points
  /\ map Outline.finish lines = tl points
  /\ NoDup (map Outline.key lines).
Proof.
  unfold Outline.createPolylineModel. rewrite !map_map.
  cbn [Outline.origin Outline.finish Outline.key]. unfold Outline.pointAt.
  split; [apply all_but_last |]. split; [apply all_but_first |].
  apply numbered_keys_differ.
Qed.

Lemma combine_seq_fst {A : Type} (l : list A) (a : nat) :
  map fst (combine (seq a (List.length l)) l) = seq a (List.length l).
Proof.
  revert a. induction l as [| c l IH]; intros a; [reflexivity |].
  simpl. rewrite IH. reflexivity.
Qed.

Lemma combine_seq_snd {A : Type} (l : list A) (a : nat) :
  map snd (combine (seq a (List.length l)) l) = l.
Proof.
  revert a. induction l as [| c l IH]; intros a; [reflexivity |].
  simpl. rewrite IH. reflexivity.
Qed.

Lemma lines_and_points (polylines : list (list Trace.Point)) :
  Forall (fun polyline => polyline <> []) polylines ->
  (list_sum (map (fun points => List.length (Outline.createPolylineModel points))
                 polylines)
   + List.length polylines)%nat
  = pointCount polylines.
Proof.
  unfold pointCount. induction 1 as [| points polylines Hne _ IH]; [reflexivity |].
  simpl. rewrite length_app, <- IH.
  unfold Outline.createPolylineModel at 1. rewrite length_map, length_seq.
  destruct points as [| pt points]; [congruence |]. simpl. lia.
Qed.

(** X23.  The models that [svgToDxf] and [traceImageToDxf] build hold one
    model per polyline of all paths, in order, under keys that are distinct;
    and the lines of all models are, in number, the points of all polylines
    less one for each polyline. *)
Theorem models_cover_every_polyline (paths : list string) (height : jsnum) :
  let polylines :=
    flat_map (fun pathD => Trace.svgPathToPolylinePoints pathD (Some true) (Some height))
             paths in
  let models := Outline.polylineModels paths height in
  map snd models = map Outline.createPolylineModel polylines
  /\ NoDup (map fst models)
  /\ (list_sum (map (fun model => List.length (snd model)) models)
      + List.length polylines)%nat
     = pointCount polylines.
Proof.
  intros polylines models.
  assert (Hsnd : map snd models = map Outline.createPolylineModel polylines).
  { unfold models, Outline.polylineModels. fold polylines.
    rewrite map_map. cbn [snd].
    rewrite <- (map_map snd Outline.createPolylineModel), combine_seq_snd.
    reflexivity. }
  split; [exact Hsnd |]. split.
  - unfold models, Outline.polylineModels. fold polylines.
    rewrite map_map. cbn [fst].
    rewrite <- (map_map fst (fun i => ("polyline_" ++ natToString i)%string)),
            combine_seq_fst.
    apply numbered_keys_differ.
  - rewrite <- (map_map snd (fun lines => List.length lines)), Hsnd, map_map.
    apply lines_and_points.
    unfold polylines. apply Forall_flat_map. apply Forall_forall. intros d _.
    apply (walked_polylines true height (Trace.parseSvgPath d)).
    apply parsed_commands_are_walked.
Qed.

(** ** The colours of the document *)

Lemma lowerChar_idempotent (c : ascii) :
  PdfColour.lowerChar (PdfColour.lowerChar c) = PdfColour.lowerChar c.
Proof. destruct c as [[] [] [] [] [] [] [] []]; reflexivity. Qed.

Lemma lowerChar_space (c : ascii) :
  isWhiteSpace (PdfColour.lowerChar c) = isWhiteSpace c.
Proof. destruct c as [[] [] [] [] [] [] [] []]; reflexivity. Qed.

Lemma toLowerCase_idempotent (s : string) :
  PdfColour.toLowerCase (PdfColour.toLowerCase s) = PdfColour.toLowerCase s.
Proof.
  induction s as [| c s IH]; [reflexivity |].
  simpl. rewrite lowerChar_idempotent, IH. reflexivity.
Qed.

Lemma toLowerCase_trimStart (s : string) :
  PdfColour.toLowerCase (trimStart s) = trimStart (PdfColour.toLowerCase s).
Proof.
  induction s as [| c s IH]; [reflexivity |].
  simpl. rewrite lowerChar_space. destruct (isWhiteSpace c); [exact IH | reflexivity].
Qed.

Lemma toLowerCase_trimEnd (s : string) :
  PdfColour.toLowerCase (trimEnd s) = trimEnd (PdfColour.toLowerCase s).
Proof.
  induction s as [| c s IH]; [reflexivity |].
  simpl. rewrite <- IH, lowerChar_space.
  destruct (trimEnd s) as [| c' s']; simpl.
  - destruct (isWhiteSpace c); reflexivity.
  - reflexivity.
Qed.

Lemma toLowerCase_trim (s : string) :
  PdfColour.toLowerCase (trim s) = trim (PdfColour.toLowerCase s).
Proof. unfold trim. rewrite toLowerCase_trimEnd, toLowerCase_trimStart. reflexivity. Qed.

Lemma trimEnd_idempotent (s : string) : trimEnd (trimEnd s) = trimEnd s.
Proof.
  induction s as [| c s IH]; [reflexivity |].
  simpl. destruct (trimEnd s) as [| c' s'] eqn:E.
  - destruct (isWhiteSpace c) eqn:Ec; simpl; [reflexivity |].
    rewrite Ec. reflexivity.
  - change (trimEnd (String c (String c' s')))
      with (match trimEnd (String c' s') with
            | EmptyString => if isWhiteSpace c then EmptyString else String c EmptyString
            | r' => String c r'
            end).
    rewrite IH. reflexivity.
Qed.

Lemma trimStart_black (s : string) : startsBlack s = true -> trimStart s = s.
Proof.
  destruct s as [| c s]; [reflexivity |]. simpl.
  destruct (isWhiteSpace c); [discriminate | reflexivity].
Qed.

Lemma startsBlack_trimStart (s : string) : startsBlack (trimStart s) = true.
Proof.
  induction s as [| c s IH]; [reflexivity |]. simpl.
  destruct (isWhiteSpace c) eqn:Ec; [exact IH |]. simpl. rewrite Ec. reflexivity.
Qed.

Lemma startsBlack_trimEnd (s : string) :
  startsBlack s = true -> startsBlack (trimEnd s) = true.
Proof.
  destruct s as [| c s]; [reflexivity |]. simpl. intros Hc.
  destruct (trimEnd s); [| exact Hc].
  destruct (isWhiteSpace c) eqn:Ec; [discriminate Hc |].
  simpl. rewrite Ec. reflexivity.
Qed.

Lemma trim_idempotent (s : string) : trim (trim s) = trim s.
Proof.
  unfold trim. rewrite trimStart_black.
  - apply trimEnd_idempotent.
  - apply startsBlack_trimEnd, startsBlack_trimStart.
Qed.

Lemma own_In (key : string) (table : list (string * PdfColour.Rgb)) (c : PdfColour.Rgb) :
  PdfColour.own key table = Some c -> In c (map snd table).
Proof.
  induction table as [| [k c'] table IH]; simpl; [discriminate |].
  destruct (String.eqb k key); [| intros H; right; exact (IH H)].
  intros H. injection H as ->. left. reflexivity.
Qed.

Lemma table_fractions : Forall fractions (map snd PdfColour.colors).
Proof.
  unfold PdfColour.colors, fractions, isFraction. cbn [map snd PdfColour.r PdfColour.g PdfColour.b].
  repeat (apply Forall_cons; [ cbn; repeat split; lra |]). apply Forall_nil.
Qed.

(** X24.  [colorNameToRgb] does not tell upper case from lower case, nor
    white space around the name: lowering the case of the name first, or
    trimming it first, does not change the result. *)
Theorem colour_ignores_case_and_margins (name : string) :
  PdfColour.colorNameToRgb (PdfColour.toLowerCase name) = PdfColour.colorNameToRgb name
  /\ PdfColour.colorNameToRgb (trim name) = PdfColour.colorNameToRgb name.
Proof.
  unfold PdfColour.colorNameToRgb. split.
  - rewrite toLowerCase_idempotent. reflexivity.
  - rewrite toLowerCase_trim, trim_idempotent. reflexivity.
Qed.

(** X25.  The colour that [colorNameToRgb] returns has its three components
    between 0 and 1, for a name of the table and for an unknown name alike.
    The only names without a colour are those that read [constructor] or
    [__proto__] once normalised, which the table inherits. *)
Theorem colours_are_fractions (name : string) :
  match PdfColour.colorNameToRgb name with
  | PdfColour.Colour c => fractions c
  | PdfColour.Inherited key =>
      key = trim (PdfColour.toLowerCase name) /\ PdfColour.isInherited key = true
  end.
Proof.
  unfold PdfColour.colorNameToRgb.
  destruct (PdfColour.own _ PdfColour.colors) as [c |] eqn:Hown.
  - apply own_In in Hown.
    exact (proj1 (Forall_forall _ _) table_fractions c Hown).
  - destruct (PdfColour.isInherited _) eqn:Hin.
    + split; [reflexivity | exact Hin].
    + unfold fractions, isFraction. simpl. repeat split; lra.
Qed.

(** * The sources in machine arithmetic *)

(** ** Binary64 rounding *)

Lemma pow2_pos (e : Z) : 0 < Binary64.pow2 e.
Proof. apply Qpower_0_lt. reflexivity. Qed.

Lemma pow2_plus (a b : Z) : Binary64.pow2 (a + b) == Binary64.pow2 a * Binary64.pow2 b.
Proof. apply Qpower_plus. discriminate. Qed.

Lemma pow2_minus (a b : Z) : Binary64.pow2 (a - b) == Binary64.pow2 a / Binary64.pow2 b.
Proof. apply Qpower_minus. discriminate. Qed.

Lemma pow2_le (a b : Z) : (a <= b)%Z -> Binary64.pow2 a <= Binary64.pow2 b.
Proof. intros H. apply Qpower_le_compat_l; [exact H | discriminate]. Qed.

Lemma pow2_lt_inv (a b : Z) : Binary64.pow2 a < Binary64.pow2 b -> (a < b)%Z.
Proof. intros H. apply (Qpower_lt_compat_l_inv 2); [exact H | reflexivity]. Qed.

Lemma pow2_inject (k : Z) : (0 <= k)%Z -> inject_Z (2 ^ k) == Binary64.pow2 k.
Proof. intros H. apply Zpower_Qpower. exact H. Qed.

(** The binade is not above the number. *)
Lemma binade_le (q : Q) : 0 < q -> Binary64.pow2 (Binary64.binade q) <= q.
Proof.
  intros Hq. unfold Binary64.binade.
  destruct (Qle_bool _ q) eqn:E; [apply Qle_bool_iff in E; exact E |].
  clear E. destruct q as [n d]. cbn [Qnum Qden].
  assert (Hn : (0 < n)%Z) by (unfold Qlt in Hq; simpl in Hq; lia).
  destruct (Z.log2_spec n Hn) as [Hn1 _].
  destruct (Z.log2_spec (Z.pos d) (Pos2Z.is_pos d)) as [_ Hd2].
  set (a := Z.log2 n) in *. set (b := Z.log2 (Z.pos d)) in *.
  assert (Ha : (0 <= a)%Z) by apply Z.log2_nonneg.
  assert (Hb : (0 <= b)%Z) by apply Z.log2_nonneg.
  (* 2^(a-b-1) * d <= n *)
  assert (Hq1 : inject_Z (2 ^ a) <= inject_Z n) by (rewrite <- Zle_Qle; exact Hn1).
  assert (Hq2 : inject_Z (Z.pos d) <= inject_Z (2 ^ (b + 1))) by (rewrite <- Zle_Qle; lia).
  rewrite pow2_inject in Hq1 by exact Ha.
  rewrite pow2_inject in Hq2 by lia.
  assert (Hsplit : Binary64.pow2 a == Binary64.pow2 (a - b - 1) * Binary64.pow2 (b + 1)).
  { rewrite <- pow2_plus. replace (a - b - 1 + (b + 1))%Z with a by lia. reflexivity. }
  assert (Hp := pow2_pos (a - b - 1)).
  assert (Hnd : n # d == inject_Z n / inject_Z (Z.pos d)) by apply Qmake_Qdiv.
  rewrite Hnd.
  apply Qle_shift_div_l; [reflexivity |].
  apply Qle_trans with (Binary64.pow2 (a - b - 1) * Binary64.pow2 (b + 1)).
  - apply Qmult_le_l; [exact Hp | exact Hq2].
  - rewrite <- Hsplit. exact Hq1.
Qed.

Lemma nearestEven_near (q : Q) :
  Qabs (inject_Z (Binary64.nearestEven q) - q) <= 1 # 2.
Proof.
  unfold Binary64.nearestEven.
  pose proof (Qfloor_le q) as Hlo. pose proof (Qlt_floor q) as Hhi.
  rewrite inject_Z_plus in Hhi. change (inject_Z 1) with 1 in Hhi.
  apply Qabs_Qle_condition.
  destruct (Qlt_bool_spec (q - inject_Z (Qfloor q)) (1 # 2)) as [H1 | H1].
  - split; lra.
  - destruct (Qlt_bool_spec (1 # 2) (q - inject_Z (Qfloor q))) as [H2 | H2].
    + rewrite inject_Z_plus. change (inject_Z 1) with 1. split; lra.
    + destruct (Z.even (Qfloor q)).
      * split; lra.
      * rewrite inject_Z_plus. change (inject_Z 1) with 1. split; lra.
Qed.

Lemma nearestEven_whole (z : Z) : Binary64.nearestEven (inject_Z z) = z.
Proof.
  unfold Binary64.nearestEven. rewrite Qfloor_Z.
  destruct (Qlt_bool_spec (inject_Z z - inject_Z z) (1 # 2)) as [H | H]; [reflexivity |].
  exfalso. apply H. lra.
Qed.

Lemma nearestEven_comp (a b : Q) : a == b -> Binary64.nearestEven a = Binary64.nearestEven b.
Proof.
  intros H. unfold Binary64.nearestEven.
  assert (Hf : Qfloor a = Qfloor b) by (rewrite H; reflexivity).
  rewrite Hf.
  destruct (Qlt_bool_spec (a - inject_Z (Qfloor b)) (1 # 2)) as [H1 | H1];
    destruct (Qlt_bool_spec (b - inject_Z (Qfloor b)) (1 # 2)) as [H2 | H2];
    try reflexivity; try lra.
  destruct (Qlt_bool_spec (1 # 2) (a - inject_Z (Qfloor b))) as [H3 | H3];
    destruct (Qlt_bool_spec (1 # 2) (b - inject_Z (Qfloor b))) as [H4 | H4];
    try reflexivity; lra.
Qed.

Lemma nearestEven_nonneg (q : Q) : 0 <= q -> (0 <= Binary64.nearestEven q)%Z.
Proof.
  intros Hq. unfold Binary64.nearestEven.
  assert (Hf : (0 <= Qfloor q)%Z).
  { change 0%Z with (Qfloor 0). apply Qfloor_resp_le. exact Hq. }
  destruct (Qlt_bool _ _); [exact Hf |].
  destruct (Qlt_bool _ _); [lia |].
  destruct (Z.even _); lia.
Qed.

Lemma nearestEven_nonpos (q : Q) : q <= 0 -> (Binary64.nearestEven q <= 0)%Z.
Proof.
  intros Hq. pose proof (nearestEven_near q) as Hnear.
  apply Qabs_Qle_condition in Hnear.
  assert (H : inject_Z (Binary64.nearestEven q) < inject_Z 1).
  { change (inject_Z 1) with 1. lra. }
  rewrite <- Zlt_Qlt in H. lia.
Qed.

(** The value that [round] returns, before it is reduced. *)
Lemma round_eq (q : Q) :
  ~ q == 0 ->
  Binary64.round q
  == inject_Z (Binary64.nearestEven (q / Binary64.pow2 (Binary64.lastPlace (Qred q))))
     * Binary64.pow2 (Binary64.lastPlace (Qred q)).
Proof.
  intros Hq. unfold Binary64.round.
  destruct (Qeq_bool (Qred q) 0) eqn:E.
  - apply Qeq_bool_iff in E. exfalso. apply Hq.
    etransitivity; [symmetry; apply Qred_correct | exact E].
  - etransitivity; [apply Qred_correct |].
    rewrite (nearestEven_comp (Qred q / _) (q / Binary64.pow2 (Binary64.lastPlace (Qred q)))).
    + reflexivity.
    + apply Qmult_comp; [apply Qred_correct | reflexivity].
Qed.

Lemma round_zero (q : Q) : q == 0 -> Binary64.round q == 0.
Proof.
  intros Hq. unfold Binary64.round.
  destruct (Qeq_bool (Qred q) 0) eqn:E; [reflexivity |].
  exfalso. apply Qeq_bool_neq in E. apply E.
  etransitivity; [apply Qred_correct | exact Hq].
Qed.

Lemma round_comp (a b : Q) : a == b -> Binary64.round a = Binary64.round b.
Proof.
  intros H. unfold Binary64.round. rewrite (Qred_complete a b H). reflexivity.
Qed.

(** The last place is not above the half-way binade of the number. *)
Lemma lastPlace_le (q : Q) (g : Z) :
  ~ q == 0 -> (-1074 <= g)%Z -> Qabs q < Binary64.pow2 (g + 53) ->
  (Binary64.lastPlace q <= g)%Z.
Proof.
  intros Hq Hg Hlt. unfold Binary64.lastPlace.
  assert (Hpos : 0 < Qabs q).
  { destruct (Qlt_le_dec 0 (Qabs q)) as [H | H]; [exact H |].
    exfalso. apply Hq. apply Qabs_Qle_condition in H. lra. }
  pose proof (binade_le (Qabs q) Hpos) as Hb.
  assert (Hlt' : Binary64.pow2 (Binary64.binade (Qabs q)) < Binary64.pow2 (g + 53)) by lra.
  apply pow2_lt_inv in Hlt'. lia.
Qed.

(** A multiple of [2^g] with fewer than 54 bits is a binary64 number:
    rounding leaves it as it is. *)
Lemma round_exact (m g : Z) :
  (Z.abs m < 2 ^ 53)%Z -> (-1074 <= g)%Z ->
  Binary64.round (inject_Z m * Binary64.pow2 g) == inject_Z m * Binary64.pow2 g.
Proof.
  intros Hm Hg.
  set (q := inject_Z m * Binary64.pow2 g).
  destruct (Z.eq_dec m 0) as [-> | Hnz].
  { assert (Hz : q == 0) by (unfold q; change (inject_Z 0) with 0; ring).
    rewrite (round_zero q Hz). symmetry. exact Hz. }
  assert (Hq0 : ~ q == 0).
  { unfold q. intros H. pose proof (pow2_pos g) as Hp.
    apply Qmult_integral in H. destruct H as [H | H]; [| lra].
    change 0 with (inject_Z 0) in H. apply (proj1 (inject_Z_injective _ _)) in H. lia. }
  rewrite (round_eq q Hq0).
  set (e := Binary64.lastPlace (Qred q)).
  assert (He : (e <= g)%Z).
  { apply lastPlace_le; [rewrite Qred_correct; exact Hq0 | exact Hg |].
    rewrite Qred_correct. unfold q. rewrite Qabs_Qmult.
    rewrite (Qabs_pos (Binary64.pow2 g)) by (apply Qlt_le_weak, pow2_pos).
    rewrite pow2_plus, (Qmult_comm (Binary64.pow2 g)).
    apply Qmult_lt_r; [apply pow2_pos |].
    rewrite <- pow2_inject by lia.
    assert (Habs : Qabs (inject_Z m) == inject_Z (Z.abs m)).
    { unfold Qabs, inject_Z. simpl. reflexivity. }
    rewrite Habs, <- Zlt_Qlt. exact Hm. }
  assert (Hint : q / Binary64.pow2 e == inject_Z (m * 2 ^ (g - e))).
  { rewrite inject_Z_mult, pow2_inject by lia. rewrite pow2_minus.
    unfold q. field; repeat split; apply Qnot_eq_sym, Qlt_not_eq, pow2_pos. }
  rewrite (nearestEven_comp _ _ Hint), nearestEven_whole.
  rewrite inject_Z_mult, pow2_inject by lia. rewrite pow2_minus.
  unfold q. field; repeat split; apply Qnot_eq_sym, Qlt_not_eq, pow2_pos.
Qed.

(** Rounding keeps the sign. *)
Lemma round_nonneg (q : Q) : 0 <= q -> 0 <= Binary64.round q.
Proof.
  intros Hq. destruct (Qeq_dec q 0) as [Hz | Hnz].
  - rewrite (round_zero q Hz). lra.
  - rewrite (round_eq q Hnz).
    apply Qmult_le_0_compat; [| apply Qlt_le_weak, pow2_pos].
    change 0 with (inject_Z 0). rewrite <- Zle_Qle.
    apply nearestEven_nonneg. apply Qle_shift_div_l; [apply pow2_pos | lra].
Qed.

Lemma round_nonpos (q : Q) : q <= 0 -> Binary64.round q <= 0.
Proof.
  intros Hq. destruct (Qeq_dec q 0) as [Hz | Hnz].
  - rewrite (round_zero q Hz). lra.
  - rewrite (round_eq q Hnz).
    set (e := Binary64.lastPlace (Qred q)).
    assert (Hn : (Binary64.nearestEven (q / Binary64.pow2 e) <= 0)%Z).
    { apply nearestEven_nonpos. apply Qle_shift_div_r; [apply pow2_pos | lra]. }
    rewrite Zle_Qle in Hn. change (inject_Z 0) with 0 in Hn.
    pose proof (pow2_pos e) as Hp. 
    setoid_replace 0 with (0 * Binary64.pow2 e) by ring.
    apply Qmult_le_compat_r; [exact Hn | lra].
Qed.

(** The rounding error is at most half a unit in the last place. *)
Lemma round_near (q : Q) :
  Qabs (Binary64.round q - q) <= Binary64.pow2 (Binary64.lastPlace (Qred q) - 1).
Proof.
  destruct (Qeq_dec q 0) as [Hz | Hnz].
  - assert (Hd : Binary64.round q - q == 0) by (rewrite (round_zero q Hz), Hz; ring).
    rewrite Hd. simpl. apply Qlt_le_weak, pow2_pos.
  - rewrite (round_eq q Hnz).
    set (e := Binary64.lastPlace (Qred q)).
    pose proof (pow2_pos e) as Hp.
    pose proof (nearestEven_near (q / Binary64.pow2 e)) as Hnear.
    assert (Heq : inject_Z (Binary64.nearestEven (q / Binary64.pow2 e)) * Binary64.pow2 e - q
                  == (inject_Z (Binary64.nearestEven (q / Binary64.pow2 e)) - q / Binary64.pow2 e)
                     * Binary64.pow2 e).
    { field. lra. }
    rewrite Heq, Qabs_Qmult, (Qabs_pos (Binary64.pow2 e)) by lra.
    rewrite pow2_minus. change (Binary64.pow2 1) with 2.
    setoid_replace (Binary64.pow2 e / 2) with ((1 # 2) * Binary64.pow2 e) by field.
    apply Qmult_le_compat_r; [exact Hnear | lra].
Qed.

(** In the normal range the error is at most [2^-53] of the number. *)
Lemma round_relative (q : Q) :
  Binary64.pow2 (-1022) <= Qabs q ->
  Qabs (Binary64.round q - q) <= Binary64.pow2 (-53) * Qabs q.
Proof.
  intros Hnormal.
  assert (Hpos : 0 < Qabs q) by (pose proof (pow2_pos (-1022)); lra).
  eapply Qle_trans; [apply round_near |].
  assert (Habs : Qabs (Qred q) == Qabs q) by (apply Qabs_wd, Qred_correct).
  assert (HposR : 0 < Qabs (Qred q)) by (rewrite Habs; exact Hpos).
  pose proof (binade_le _ HposR) as Hb.
  assert (Hb' : Binary64.pow2 (Binary64.binade (Qabs (Qred q))) <= Qabs q).
  { eapply Qle_trans; [exact Hb | rewrite Habs; apply Qle_refl]. }
  clear Hb. unfold Binary64.lastPlace.
  set (b := Binary64.binade (Qabs (Qred q))) in *.
  pose proof (pow2_pos (-53)) as Hu.
  destruct (Z.max_spec (b - 52) (-1074)) as [[_ ->] | [_ ->]].
  - change (-1074 - 1)%Z with (-1022 + -53)%Z. rewrite pow2_plus.
    rewrite (Qmult_comm (Binary64.pow2 (-53))).
    apply Qmult_le_compat_r; [exact Hnormal | lra].
  - replace (b - 52 - 1)%Z with (b + -53)%Z by lia. rewrite pow2_plus.
    rewrite (Qmult_comm (Binary64.pow2 (-53))).
    apply Qmult_le_compat_r; [exact Hb' | lra].
Qed.

(** ** The machine packers on exact measures *)

Lemma Qlt_bool_comp (a a' b b' : Q) :
  a == a' -> b == b' -> Qlt_bool a b = Qlt_bool a' b'.
Proof.
  intros Ha Hb.
  destruct (Qlt_bool_spec a b) as [H | H], (Qlt_bool_spec a' b') as [H' | H'];
    try reflexivity; exfalso; rewrite Ha, Hb in H; contradiction.
Qed.

Lemma Qeq_bool_comp (a a' b b' : Q) :
  a == a' -> b == b' -> Qeq_bool a b = Qeq_bool a' b'.
Proof.
  intros Ha Hb.
  destruct (Qeq_bool_spec a b) as [H | H], (Qeq_bool_spec a' b') as [H' | H'];
    try reflexivity; exfalso; rewrite Ha, Hb in H; contradiction.
Qed.

Lemma Math_max_both (a a' b b' : Q) :
  a == a' -> b == b' -> Math_max a b == Math_max a' b'.
Proof.
  intros Ha Hb. unfold Math_max.
  destruct (Qle_bool_spec a b) as [H | H], (Qle_bool_spec a' b') as [H' | H'];
    try assumption; exfalso; rewrite Ha, Hb in H; contradiction.
Qed.

Lemma steps_le (scale a b : Z) :
  inject_Z a * Binary64.pow2 scale <= inject_Z b * Binary64.pow2 scale -> (a <= b)%Z.
Proof.
  intros H. apply Qmult_le_r in H; [| apply pow2_pos].
  rewrite <- Zle_Qle in H. exact H.
Qed.

Lemma steps_plus (scale a b : Z) :
  inject_Z a * Binary64.pow2 scale + inject_Z b * Binary64.pow2 scale
  == inject_Z (a + b) * Binary64.pow2 scale.
Proof. rewrite inject_Z_plus. ring. Qed.

Lemma steps_minus (scale a b : Z) :
  inject_Z a * Binary64.pow2 scale - inject_Z b * Binary64.pow2 scale
  == inject_Z (a - b) * Binary64.pow2 scale.
Proof.
  unfold Z.sub. rewrite inject_Z_plus, inject_Z_opp. ring.
Qed.

(** A sum of grid numbers that stays below [2^53] steps is not rounded. *)
Lemma add_exact (scale ka kb : Z) (a b : Q) :
  (-1074 <= scale)%Z ->
  a == inject_Z ka * Binary64.pow2 scale ->
  b == inject_Z kb * Binary64.pow2 scale ->
  (Z.abs (ka + kb) < 2 ^ 53)%Z ->
  Binary64.add a b == inject_Z (ka + kb) * Binary64.pow2 scale.
Proof.
  intros Hs Ha Hb Hk. unfold Binary64.add.
  rewrite (round_comp (a + b) (inject_Z (ka + kb) * Binary64.pow2 scale)).
  - apply round_exact; assumption.
  - rewrite Ha, Hb. apply steps_plus.
Qed.

Lemma sub_exact (scale ka kb : Z) (a b : Q) :
  (-1074 <= scale)%Z ->
  a == inject_Z ka * Binary64.pow2 scale ->
  b == inject_Z kb * Binary64.pow2 scale ->
  (Z.abs (ka - kb) < 2 ^ 53)%Z ->
  Binary64.sub a b == inject_Z (ka - kb) * Binary64.pow2 scale.
Proof.
  intros Hs Ha Hb Hk. unfold Binary64.sub.
  rewrite (round_comp (a - b) (inject_Z (ka - kb) * Binary64.pow2 scale)).
  - apply round_exact; assumption.
  - rewrite Ha, Hb. apply steps_minus.
Qed.

Lemma seedRow_exact (scale xHigh yLow : Z) (h : Q) (cm ce : Dxf.Cursor) :
  measure scale h ->
  Exact scale xHigh yLow cm ce ->
  Exact scale xHigh yLow (Dxf.seedRow h cm) (Dxf.seedRow h ce).
Proof.
  intros Hh H. unfold Dxf.seedRow.
  rewrite (Qeq_bool_comp (Dxf.rowHeight cm) (Dxf.rowHeight ce) 0 0 (exact_row _ _ _ _ _ H))
    by reflexivity.
  destruct (Qeq_bool (Dxf.rowHeight ce) 0); [| exact H].
  destruct H as [Hs Hc Hx Hy Hr Gx Gy Gr].
  constructor; cbn [Dxf.sheets Dxf.currentSheet Dxf.currentX Dxf.currentY Dxf.rowHeight];
    try assumption; reflexivity.
Qed.

Lemma wrapRow_exact (scale : Z) (sheet : SheetConfig) (w h : Q) (cm ce : Dxf.Cursor) :
  exactSheet scale sheet -> measure scale w -> measure scale h ->
  Exact scale (3 * 2 ^ 50) (- 2 ^ 50) cm ce ->
  Exact scale (2 ^ 50) (- (3 * 2 ^ 50))
        (Dxf64.wrapRow sheet w h cm) (Dxf.wrapRow sheet w h ce).
Proof.
  intros (Hscale & (kW & HkW & HW) & _ & (kM & HkM & HM) & (kg & Hkg & Hg))
         (kw & Hkw & Hw) Hh [Hs Hc Hx Hy Hr (kx & Hkx & Gx) (ky & Hky & Gy) (kr & Hkr & Gr)].
  destruct Hscale as [Hlow _].
  unfold Dxf64.wrapRow, Dxf.wrapRow.
  assert (Hleft : Binary64.sub (width sheet) (margin sheet)
                  == width sheet - margin sheet).
  { rewrite (sub_exact scale kW kM) by (assumption || lia).
    rewrite HW, HM. symmetry. apply steps_minus. }
  assert (Hright : Binary64.add (Dxf.currentX cm) w == Dxf.currentX ce + w).
  { rewrite (add_exact scale kx kw) by (try assumption; try lia; rewrite Hx; exact Gx).
    rewrite Gx, Hw. symmetry. apply steps_plus. }
  rewrite (Qlt_bool_comp _ _ _ _ Hleft Hright).
  destruct (Qlt_bool_spec (width sheet - margin sheet) (Dxf.currentX ce + w)) as [Hwrap | Hstay].
  - constructor;
      cbn [Dxf.sheets Dxf.currentSheet Dxf.currentX Dxf.currentY Dxf.rowHeight];
      try assumption; try reflexivity.
    + assert (Hsum : Binary64.add (Dxf.rowHeight cm) (gap sheet)
                     == inject_Z (kr + kg) * Binary64.pow2 scale).
      { apply add_exact; try assumption; try lia. rewrite Hr. exact Gr. }
      rewrite (sub_exact scale ky (kr + kg)) by (try assumption; try lia; rewrite Hy; exact Gy).
      rewrite Gy, Gr, Hg, steps_plus. symmetry. apply steps_minus.
    + exists kM. split; [lia | exact HM].
    + exists (ky - (kr + kg))%Z. split; [lia |].
      rewrite Gy, Gr, Hg, steps_plus. apply steps_minus.
  - constructor; try assumption.
    + exists kx. split; [| exact Gx].
      assert (Hle : Dxf.currentX ce + w <= width sheet - margin sheet) by lra.
      rewrite Gx, Hw, HW, HM, steps_plus, steps_minus in Hle.
      apply steps_le in Hle. lia.
    + exists ky. split; [lia | exact Gy].
    + exists kr. split; [lia | exact Gr].
Qed.

Lemma flush_same (ms es : list Dxf.DxfSheet) (m e : Dxf.DxfSheet) :
  Forall2 sameSheet ms es -> sameSheet m e ->
  Forall2 sameSheet
    match Dxf.labels m with [] => ms | _ :: _ => ms ++ [m] end
    match Dxf.labels e with [] => es | _ :: _ => es ++ [e] end.
Proof.
  intros Hs Hc. pose proof Hc as [_ Hlabels].
  destruct (Dxf.labels m), (Dxf.labels e); try (inversion Hlabels; fail).
  - exact Hs.
  - apply Forall2_app; [exact Hs |]. constructor; [exact Hc | constructor].
Qed.

Lemma newSheet_exact (scale : Z) (sheet : SheetConfig) (h : Q) (cm ce : Dxf.Cursor) :
  exactSheet scale sheet -> measure scale h ->
  Exact scale (2 ^ 50) (- (3 * 2 ^ 50)) cm ce ->
  Exact scale (2 ^ 50) (- 2 ^ 50)
        (Dxf64.newSheet sheet h cm) (Dxf.newSheet sheet h ce).
Proof.
  intros (Hscale & _ & (kH & HkH & HH) & (kM & HkM & HM) & _)
         (kh & Hkh & Hh) [Hs Hc Hx Hy Hr Gx (ky & Hky & Gy) Gr].
  destruct Hscale as [Hlow _].
  unfold Dxf64.newSheet, Dxf.newSheet.
  assert (Hleft : Binary64.sub (Dxf.currentY cm) h == Dxf.currentY ce - h).
  { rewrite (sub_exact scale ky kh) by (try assumption; try lia; rewrite Hy; exact Gy).
    rewrite Gy, Hh. symmetry. apply steps_minus. }
  rewrite (Qlt_bool_comp _ _ (margin sheet) (margin sheet) Hleft) by reflexivity.
  destruct (Qlt_bool_spec (Dxf.currentY ce - h) (margin sheet)) as [Hnew | Hstay].
  - pose proof (flush_same _ _ _ _ Hs Hc) as Hsheets.
    constructor;
      cbn [Dxf.sheets Dxf.currentSheet Dxf.currentX Dxf.currentY Dxf.rowHeight Dxf.labels
           Dxf.pageNumber];
      try reflexivity.
    + exact Hsheets.
    + split; [| constructor]. cbn [Dxf.pageNumber].
      rewrite (Forall2_length Hsheets). reflexivity.
    + rewrite (sub_exact scale kH kM) by (assumption || lia).
      rewrite HH, HM. symmetry. apply steps_minus.
    + exists kM. split; [lia | exact HM].
    + exists (kH - kM)%Z. split; [lia |]. rewrite HH, HM. apply steps_minus.
    + exists kh. split; [lia | exact Hh].
  - constructor; try assumption.
    exists ky. split; [| exact Gy].
    assert (Hle : margin sheet <= Dxf.currentY ce - h) by lra.
    rewrite Gy, Hh, HM, steps_minus in Hle. apply steps_le in Hle. lia.
Qed.

Lemma pushLabel_exact (scale : Z) (sheet : SheetConfig) (label : LabelSetup)
    (cm ce : Dxf.Cursor) :
  exactSheet scale sheet -> exactSetup scale label ->
  Exact scale (2 ^ 50) (- 2 ^ 50) cm ce ->
  Exact scale (3 * 2 ^ 50) (- 2 ^ 50)
        (Dxf64.pushLabel sheet label cm) (Dxf.pushLabel sheet label ce).
Proof.
  intros (Hscale & _ & _ & _ & (kg & Hkg & Hg))
         ((kw & Hkw & Hw) & (kh & Hkh & Hh))
         [Hs Hc Hx Hy Hr (kx & Hkx & Gx) (ky & Hky & Gy) (kr & Hkr & Gr)].
  destruct Hscale as [Hlow _].
  unfold Dxf64.pushLabel, Dxf.pushLabel.
  constructor;
    cbn [Dxf.sheets Dxf.currentSheet Dxf.currentX Dxf.currentY Dxf.rowHeight Dxf.labels
         Dxf.pageNumber];
    try assumption.
  - destruct Hc as [Hpage Hlabels]. split; [exact Hpage |].
    cbn [Dxf.labels]. apply Forall2_app; [exact Hlabels |].
    constructor; [| constructor].
    split; [reflexivity |]. cbn [Dxf.x Dxf.y]. split; [exact Hx |].
    rewrite (sub_exact scale ky kh) by (try assumption; try lia; rewrite Hy; exact Gy).
    rewrite Gy, Hh. symmetry. apply steps_minus.
  - assert (Hsum : Binary64.add (labelLengthMm label) (gap sheet)
                   == inject_Z (kw + kg) * Binary64.pow2 scale).
    { apply add_exact; try assumption; lia. }
    rewrite (add_exact scale kx (kw + kg)) by (try assumption; try lia; rewrite Hx; exact Gx).
    rewrite Gx, Hw, Hg, steps_plus. symmetry. apply steps_plus.
  - apply Math_max_both; [exact Hr | reflexivity].
  - exists (kx + (kw + kg))%Z. split; [lia |].
    rewrite Gx, Hw, Hg, steps_plus. apply steps_plus.
  - exists ky. split; [lia | exact Gy].
  - destruct (Math_max_case (Dxf.rowHeight ce) (labelHeightMm label)) as [-> | ->].
    + exists kr. split; [lia | exact Gr].
    + exists kh. split; [lia | exact Hh].
Qed.

Lemma place_exact (scale : Z) (sheet : SheetConfig) (label : LabelSetup)
    (cm ce : Dxf.Cursor) :
  exactSheet scale sheet -> exactSetup scale label ->
  Exact scale (3 * 2 ^ 50) (- 2 ^ 50) cm ce ->
  Exact scale (3 * 2 ^ 50) (- 2 ^ 50)
        (Dxf64.place sheet cm label) (Dxf.place sheet ce label).
Proof.
  intros Hsheet Hlabel H. unfold Dxf64.place, Dxf.place.
  apply pushLabel_exact; try assumption.
  apply newSheet_exact; [assumption | apply Hlabel |].
  apply wrapRow_exact; [assumption | apply Hlabel | apply Hlabel |].
  apply seedRow_exact; [apply Hlabel | exact H].
Qed.

Lemma start_exact (scale : Z) (sheet : SheetConfig) :
  exactSheet scale sheet ->
  Exact scale (3 * 2 ^ 50) (- 2 ^ 50) (Dxf64.start sheet) (Dxf.start sheet).
Proof.
  intros (Hscale & _ & (kH & HkH & HH) & (kM & HkM & HM) & _).
  destruct Hscale as [Hlow _].
  unfold Dxf64.start, Dxf.start.
  constructor;
    cbn [Dxf.sheets Dxf.currentSheet Dxf.currentX Dxf.currentY Dxf.rowHeight];
    try reflexivity.
  - constructor.
  - split; [reflexivity | constructor].
  - rewrite (sub_exact scale kH kM) by (assumption || lia).
    rewrite HH, HM. symmetry. apply steps_minus.
  - exists kM. split; [lia | exact HM].
  - exists (kH - kM)%Z. split; [lia |]. rewrite HH, HM. apply steps_minus.
  - exists 0%Z. split; [lia |]. change (inject_Z 0) with 0. ring.
Qed.

(** On exact measures the machine packer returns the sheets of the exact
    packer. *)
Lemma arrange_exact (scale : Z) (setups : list LabelSetup) (sheet : SheetConfig) :
  exactSheet scale sheet -> Forall (exactSetup scale) setups ->
  Forall2 sameSheet (Dxf64.arrangeLabelsOnSheets setups sheet)
                    (Dxf.arrangeLabelsOnSheets setups sheet).
Proof.
  intros Hsheet Hsetups.
  unfold Dxf64.arrangeLabelsOnSheets, Dxf.arrangeLabelsOnSheets.
  assert (Hall : Forall (exactSetup scale) (expandQuantities setups))
    by (apply expandQuantities_Forall; exact Hsetups).
  assert (Hfold : forall ls cm ce,
             Forall (exactSetup scale) ls ->
             Exact scale (3 * 2 ^ 50) (- 2 ^ 50) cm ce ->
             Exact scale (3 * 2 ^ 50) (- 2 ^ 50)
                   (fold_left (Dxf64.place sheet) ls cm)
                   (fold_left (Dxf.place sheet) ls ce)).
  { induction ls as [| l ls IH]; intros cm ce Hls H; [exact H |].
    inversion Hls; subst. simpl. apply IH; [assumption |].
    apply place_exact; assumption. }
  specialize (Hfold _ _ _ Hall (start_exact scale sheet Hsheet)).
  destruct Hfold as [Hs Hc _ _ _ _ _ _].
  unfold Dxf.finish. apply flush_same; assumption.
Qed.

(** ** The two machine packers agree *)

Lemma wrapRow64_toPdf (sheet : SheetConfig) (w h : Q) (c : Dxf.Cursor) :
  cursorToPdf (Dxf64.wrapRow sheet w h c) = Pdf64.wrapRow sheet w h (cursorToPdf c).
Proof.
  unfold Dxf64.wrapRow, Pdf64.wrapRow. simpl.
  destruct (Qlt_bool _ _); reflexivity.
Qed.

Lemma newSheet64_toPdf (sheet : SheetConfig) (h : Q) (c : Dxf.Cursor) :
  cursorToPdf (Dxf64.newSheet sheet h c) = Pdf64.newSheet sheet h (cursorToPdf c).
Proof.
  unfold Dxf64.newSheet, Pdf64.newSheet. simpl.
  destruct (Qlt_bool _ _); [| reflexivity].
  unfold cursorToPdf; simpl.
  destruct (Dxf.labels (Dxf.currentSheet c)) eqn:E; simpl;
    rewrite ?map_app; simpl; rewrite ?E; reflexivity.
Qed.

Lemma pushLabel64_toPdf (sheet : SheetConfig) (label : LabelSetup) (c : Dxf.Cursor) :
  cursorToPdf (Dxf64.pushLabel sheet label c)
  = Pdf64.pushLabel sheet label (cursorToPdf c).
Proof.
  unfold Dxf64.pushLabel, Pdf64.pushLabel, cursorToPdf. simpl.
  rewrite map_app. reflexivity.
Qed.

Lemma place64_toPdf (sheet : SheetConfig) (c : Dxf.Cursor) (label : LabelSetup) :
  cursorToPdf (Dxf64.place sheet c label) = Pdf64.place sheet (cursorToPdf c) label.
Proof.
  unfold Dxf64.place, Pdf64.place.
  rewrite pushLabel64_toPdf, newSheet64_toPdf, wrapRow64_toPdf, seedRow_toPdf.
  reflexivity.
Qed.

Lemma arrange64_toPdf (setups : list LabelSetup) (sheet : SheetConfig) :
  Pdf64.arrangeLabelsOnSheets setups sheet
  = map (fun sh => map toPdf (Dxf.labels sh)) (Dxf64.arrangeLabelsOnSheets setups sheet).
Proof.
  unfold Pdf64.arrangeLabelsOnSheets, Dxf64.arrangeLabelsOnSheets.
  change (Pdf64.start sheet) with (cursorToPdf (Dxf64.start sheet)).
  generalize (Dxf64.start sheet).
  induction (expandQuantities setups) as [| l ls IH]; intros c.
  - destruct c as [shs [pn ls] cx cy rh]. unfold Pdf.finish, Dxf.finish, cursorToPdf; simpl.
    destruct ls; simpl; rewrite ?map_app; reflexivity.
  - simpl. rewrite <- place64_toPdf. apply IH.
Qed.

(** ** Properties carried from the exact sheets to the machine's *)

Lemma sameLabel_footprint (lm le : list Dxf.PlacedLabel) :
  Forall2 sameLabel lm le ->
  Forall2 sameFootprint (map footprint lm) (map footprint le).
Proof.
  intros H. induction H as [| p q lp lq Hpq _ IH]; simpl; [constructor |].
  destruct Hpq as (Hsetup & Hx & Hy). constructor; [| exact IH].
  unfold sameFootprint, footprint. cbn [left bottom across up]. rewrite Hsetup.
  repeat split; try assumption; reflexivity.
Qed.

Lemma apart_same (f f' g g' : Footprint) :
  sameFootprint f g -> sameFootprint f' g' -> apart g g' -> apart f f'.
Proof.
  intros (Hl & Hb & Ha & Hu) (Hl' & Hb' & Ha' & Hu'). unfold apart.
  intros [H | [H | [H | H]]];
    [left | right; left | right; right; left | right; right; right]; lra.
Qed.

Lemma pairwiseApart_same (fs gs : list Footprint) :
  Forall2 sameFootprint fs gs -> pairwiseApart gs -> pairwiseApart fs.
Proof.
  unfold pairwiseApart. induction 1 as [| f g fs gs Hfg Hrest IH]; intros Hg; [constructor |].
  inversion Hg as [| ? ? Hhead Htail]; subst. constructor; [| apply IH; exact Htail].
  clear IH Htail Hg. induction Hrest as [| f' g' fs gs Hfg' _ IH]; [constructor |].
  inversion Hhead; subst. constructor; [| apply IH; assumption].
  eapply apart_same; eassumption.
Qed.

Lemma insideMargins_same (sheet : SheetConfig) (fs gs : list Footprint) :
  Forall2 sameFootprint fs gs ->
  Forall (insideMargins sheet) gs -> Forall (insideMargins sheet) fs.
Proof.
  induction 1 as [| f g fs gs (Hl & Hb & Ha & Hu) _ IH]; intros Hg; [constructor |].
  inversion Hg as [| g0 gs0 (M1 & M2 & M3 & M4) Hrest]; subst.
  constructor; [| apply IH; assumption].
  unfold insideMargins. repeat split; lra.
Qed.

Lemma nextOnShelf_same (sheet : SheetConfig) (f f' g g' : Footprint) :
  sameFootprint f g -> sameFootprint f' g' ->
  nextOnShelf sheet g g' -> nextOnShelf sheet f f'.
Proof.
  intros (Hl & Hb & Ha & Hu) (Hl' & Hb' & Ha' & Hu'). unfold nextOnShelf.
  intros [[H1 H2] | [H1 H2]]; [left | right]; split; lra.
Qed.

Lemma consecutive_same (sheet : SheetConfig) (fs gs : list Footprint) :
  Forall2 sameFootprint fs gs ->
  consecutive (nextOnShelf sheet) gs -> consecutive (nextOnShelf sheet) fs.
Proof.
  induction 1 as [| f g fs gs Hfg Hrest IH]; intros Hg; [exact I |].
  destruct Hrest as [| f' g' fs gs Hfg' Hrest]; [exact I |].
  destruct Hg as [Hnext Hg]. split.
  - eapply nextOnShelf_same; eassumption.
  - apply IH. exact Hg.
Qed.

(** What holds of the footprints of every exact sheet holds of the
    machine's sheets, for both packers. *)
Lemma exact_sheets_carry (P : list Footprint -> Prop) (scale : Z)
    (setups : list LabelSetup) (sheet : SheetConfig) :
  (forall fs gs, Forall2 sameFootprint fs gs -> P gs -> P fs) ->
  exactSheet scale sheet -> Forall (exactSetup scale) setups ->
  Forall (fun sh => P (map footprint (Dxf.labels sh)))
         (Dxf.arrangeLabelsOnSheets setups sheet) ->
  Forall (fun sh => P (map footprint (Dxf.labels sh)))
         (Dxf64.arrangeLabelsOnSheets setups sheet) /\
  Forall (fun sh => P (map footprintPdf sh))
         (Pdf64.arrangeLabelsOnSheets setups sheet).
Proof.
  intros Hsame Hsheet Hsetups Hexact.
  assert (Hd : Forall (fun sh => P (map footprint (Dxf.labels sh)))
                      (Dxf64.arrangeLabelsOnSheets setups sheet)).
  { pose proof (arrange_exact scale setups sheet Hsheet Hsetups) as Hagree.
    induction Hagree as [| m e ms es [_ Hlabels] _ IH]; [constructor |].
    inversion Hexact; subst. constructor; [| apply IH; assumption].
    eapply Hsame; [apply sameLabel_footprint; exact Hlabels | assumption]. }
  split; [exact Hd |].
  rewrite arrange64_toPdf. apply Forall_map.
  eapply Forall_impl; [| exact Hd]. simpl.
  intros sh Hsh. rewrite footprint_toPdf. exact Hsh.
Qed.

Lemma measure_nonneg (scale : Z) (q : Q) : measure scale q -> 0 <= q.
Proof.
  intros (k & Hk & Hq). rewrite Hq.
  apply Qmult_le_0_compat; [| apply Qlt_le_weak, pow2_pos].
  change 0 with (inject_Z 0). rewrite <- Zle_Qle. lia.
Qed.

Lemma exactSetup_proper (scale : Z) (setups : list LabelSetup) :
  Forall (exactSetup scale) setups -> Forall properSize setups.
Proof.
  apply Forall_impl. intros s [Hw Hh].
  split; eapply measure_nonneg; eassumption.
Qed.

(** C2, as the code has it.  The packers round every sum and difference to
    binary64.  When the sheet and the setups are given in exact measures,
    that is, when width, height, margin, gap and all lengths and heights of
    labels are whole multiples, from 0 to [2^50], of one power of two
    [2^scale], then every sum of the packers is exact, and any two labels at
    different places of a returned sheet are apart: their footprints share
    at most edge points.  This holds for both packers. *)
Theorem placed_labels_do_not_overlap (scale : Z) (setups : list LabelSetup)
    (sheet : SheetConfig) :
  exactSheet scale sheet -> Forall (exactSetup scale) setups ->
  Forall (fun sh => pairwiseApart (map footprint (Dxf.labels sh)))
         (Dxf64.arrangeLabelsOnSheets setups sheet) /\
  Forall (fun sh => pairwiseApart (map footprintPdf sh))
         (Pdf64.arrangeLabelsOnSheets setups sheet).
Proof.
  intros Hsheet Hsetups.
  apply (exact_sheets_carry pairwiseApart scale); try assumption.
  - exact pairwiseApart_same.
  - apply exact_packer_separates.
    + destruct Hsheet as (_ & _ & _ & _ & Hg). eapply measure_nonneg; exact Hg.
    + apply exactSetup_proper with scale. exact Hsetups.
Qed.

(** X2.  On exact measures (which are not negative), when no setup is
    larger than the usable area (sheet minus margins), every label of every
    sheet that the packers return in machine arithmetic keeps the margin on
    all four sides. *)
Theorem fitting_labels_stay_inside_margins (scale : Z) (setups : list LabelSetup)
    (sheet : SheetConfig) :
  exactSheet scale sheet -> Forall (exactSetup scale) setups ->
  Forall (fitsSheet sheet) setups ->
  Forall (fun sh => Forall (insideMargins sheet) (map footprint (Dxf.labels sh)))
         (Dxf64.arrangeLabelsOnSheets setups sheet) /\
  Forall (fun sh => Forall (insideMargins sheet) (map footprintPdf sh))
         (Pdf64.arrangeLabelsOnSheets setups sheet).
Proof.
  intros Hsheet Hsetups Hfit.
  apply (exact_sheets_carry (Forall (insideMargins sheet)) scale); try assumption.
  - apply insideMargins_same.
  - apply exact_packer_keeps_margins; [| exact Hfit].
    destruct Hsheet as (_ & _ & _ & _ & Hg). eapply measure_nonneg; exact Hg.
Qed.

(** X3.  Shelf order.  On exact measures, each label of a sheet that the
    packers return in machine arithmetic follows the one placed before it
    either in the same row (same top edge, its left edge one gap right of
    the other's right edge), or at the left margin of a new row whose top
    edge lies at least the gap below the bottom edge of the other. *)
Theorem labels_follow_shelf_order (scale : Z) (setups : list LabelSetup)
    (sheet : SheetConfig) :
  exactSheet scale sheet -> Forall (exactSetup scale) setups ->
  Forall (fun sh => consecutive (nextOnShelf sheet) (map footprint (Dxf.labels sh)))
         (Dxf64.arrangeLabelsOnSheets setups sheet) /\
  Forall (fun sh => consecutive (nextOnShelf sheet) (map footprintPdf sh))
         (Pdf64.arrangeLabelsOnSheets setups sheet).
Proof.
  intros Hsheet Hsetups.
  apply (exact_sheets_carry (consecutive (nextOnShelf sheet)) scale); try assumption.
  - apply consecutive_same.
  - apply exact_packer_follows_shelves.
    eapply Forall_impl; [| exact Hsetups].
    intros s [_ Hh]. eapply measure_nonneg; exact Hh.
Qed.

Lemma whole_measure (k : Z) : (0 <= k <= 2 ^ 50)%Z -> measure 0 (inject_Z k).
Proof.
  intros Hk. exists k. split; [exact Hk |].
  change (Binary64.pow2 0) with 1. ring.
Defined.

Lemma DEFAULT_SHEET_exact : exactSheet 0 DEFAULT_SHEET.
Proof.
  split; [lia |].
  split; [apply (whole_measure 600); lia |].
  split; [apply (whole_measure 300); lia |].
  split; apply (whole_measure 0); lia.
Defined.

Lemma marginSheet_exact : exactSheet 0 marginSheet.
Proof.
  split; [lia |].
  split; [apply (whole_measure 100); lia |].
  split; [apply (whole_measure 60); lia |].
  split; [apply (whole_measure 5); lia | apply (whole_measure 2); lia].
Defined.

Lemma mixedQuantities_exact : Forall (exactSetup 0) mixedQuantities.
Proof.
  repeat apply Forall_cons; try apply Forall_nil; split.
  - apply (whole_measure 20); lia.
  - apply (whole_measure 7); lia.
  - apply (whole_measure 20); lia.
  - apply (whole_measure 7); lia.
  - apply (whole_measure 50); lia.
  - apply (whole_measure 20); lia.
Defined.

Lemma threeSizes_exact : Forall (exactSetup 0) threeSizes.
Proof.
  repeat apply Forall_cons; try apply Forall_nil; split.
  - apply (whole_measure 40); lia.
  - apply (whole_measure 10); lia.
  - apply (whole_measure 30); lia.
  - apply (whole_measure 20); lia.
  - apply (whole_measure 25); lia.
  - apply (whole_measure 15); lia.
Defined.

(** 20 x 7 and 50 x 20 labels on the default sheet. *)
Lemma placed_labels_do_not_overlap_witness :
  exactSheet 0 DEFAULT_SHEET /\
  Forall (exactSetup 0) mixedQuantities /\
  Forall (fun sh => pairwiseApart (map footprint (Dxf.labels sh)))
         (Dxf64.arrangeLabelsOnSheets mixedQuantities DEFAULT_SHEET).
Proof.
  split; [exact DEFAULT_SHEET_exact |]. split; [exact mixedQuantities_exact |].
  exact (proj1 (placed_labels_do_not_overlap 0 mixedQuantities DEFAULT_SHEET
                  DEFAULT_SHEET_exact mixedQuantities_exact)).
Defined.

(** C2 as stated fails: with a gap of -5 the second of two 10 x 5 labels is
    placed at x = 5, inside the first, which spans x = 0 .. 10. *)
Lemma overlap_with_negative_gap :
  map (fun sh => map footprint (Dxf.labels sh))
      (Dxf64.arrangeLabelsOnSheets twoLabels negativeGap)
  = [ [ {| left := 0; bottom := 295; across := 10; up := 5 |};
        {| left := 5; bottom := 295; across := 10; up := 5 |} ] ] /\
  ~ Forall (fun sh => pairwiseApart (map footprint (Dxf.labels sh)))
           (Dxf64.arrangeLabelsOnSheets twoLabels negativeGap).
Proof.
  assert (Hplaces :
    map (fun sh => map footprint (Dxf.labels sh))
        (Dxf64.arrangeLabelsOnSheets twoLabels negativeGap)
    = [ [ {| left := 0; bottom := 295; across := 10; up := 5 |};
          {| left := 5; bottom := 295; across := 10; up := 5 |} ] ])
    by (vm_compute; reflexivity).
  split; [exact Hplaces |].
  intros Hall.
  assert (Hapart : Forall pairwiseApart
                     (map (fun sh => map footprint (Dxf.labels sh))
                          (Dxf64.arrangeLabelsOnSheets twoLabels negativeGap)))
    by (apply Forall_map; exact Hall).
  rewrite Hplaces in Hapart.
  inversion Hapart as [| fs rest Hfs _]; subst.
  inversion Hfs as [| a l Ha _]; subst.
  inversion Ha as [| b l' Hab _]; subst.
  unfold apart in Hab; simpl in Hab.
  destruct Hab as [H | [H | [H | H]]]; revert H; unfold Qle; simpl; lia.
Qed.

(** Beyond exact measures the absence of overlaps is lost even with a gap
    of 0: after the label of length [2^53] the cursor stands at [2^53], and
    its advance by 1 is rounded away, so the three labels of length 1 are
    put on the same place. *)
Lemma absorbed_advance_overlaps :
  map (fun sh => map footprint (Dxf.labels sh))
      (Dxf64.arrangeLabelsOnSheets longAndShort wideSheet)
  = [ [ {| left := 0; bottom := 293; across := 9007199254740992; up := 7 |};
        {| left := 9007199254740992; bottom := 293; across := 1; up := 7 |};
        {| left := 9007199254740992; bottom := 293; across := 1; up := 7 |};
        {| left := 9007199254740992; bottom := 293; across := 1; up := 7 |} ] ] /\
  ~ Forall (fun sh => pairwiseApart (map footprint (Dxf.labels sh)))
           (Dxf64.arrangeLabelsOnSheets longAndShort wideSheet).
Proof.
  assert (Hplaces :
    map (fun sh => map footprint (Dxf.labels sh))
        (Dxf64.arrangeLabelsOnSheets longAndShort wideSheet)
    = [ [ {| left := 0; bottom := 293; across := 9007199254740992; up := 7 |};
          {| left := 9007199254740992; bottom := 293; across := 1; up := 7 |};
          {| left := 9007199254740992; bottom := 293; across := 1; up := 7 |};
          {| left := 9007199254740992; bottom := 293; across := 1; up := 7 |} ] ])
    by (vm_compute; reflexivity).
  split; [exact Hplaces |].
  intros Hall.
  assert (Hapart : Forall pairwiseApart
                     (map (fun sh => map footprint (Dxf.labels sh))
                          (Dxf64.arrangeLabelsOnSheets longAndShort wideSheet)))
    by (apply Forall_map; exact Hall).
  rewrite Hplaces in Hapart.
  inversion Hapart as [| fs rest Hfs _]; subst.
  inversion Hfs as [| a l _ Hrest]; subst.
  inversion Hrest as [| b l' Hb _]; subst.
  inversion Hb as [| c l'' Hbc _]; subst.
  unfold apart in Hbc; simpl in Hbc.
  destruct Hbc as [H | [H | [H | H]]]; revert H; unfold Qle; simpl; lia.
Qed.

Lemma fitting_labels_stay_inside_margins_witness :
  exactSheet 0 marginSheet /\
  Forall (exactSetup 0) threeSizes /\
  Forall (fitsSheet marginSheet) threeSizes /\
  Forall (fun sh => Forall (insideMargins marginSheet) (map footprint (Dxf.labels sh)))
         (Dxf64.arrangeLabelsOnSheets threeSizes marginSheet).
Proof.
  split; [exact marginSheet_exact |]. split; [exact threeSizes_exact |].
  split; [exact threeSizes_fit |].
  exact (proj1 (fitting_labels_stay_inside_margins 0 threeSizes marginSheet
                  marginSheet_exact threeSizes_exact threeSizes_fit)).
Defined.

Lemma labels_follow_shelf_order_witness :
  exactSheet 0 marginSheet /\
  Forall (exactSetup 0) threeSizes /\
  Forall (fun sh => consecutive (nextOnShelf marginSheet) (map footprint (Dxf.labels sh)))
         (Dxf64.arrangeLabelsOnSheets threeSizes marginSheet).
Proof.
  split; [exact marginSheet_exact |]. split; [exact threeSizes_exact |].
  exact (proj1 (labels_follow_shelf_order 0 threeSizes marginSheet
                  marginSheet_exact threeSizes_exact)).
Defined.

(** X26.  On exact measures the packers in machine arithmetic return the
    sheets of the exact packers: the same pages with the same setups in the
    same order at the same places.  And for every input the two machine
    packers agree with each other: the document packer returns the labels
    of the drawing packer, sheet by sheet, at the same places. *)
Theorem machine_packers_are_exact_on_measures (scale : Z) (setups : list LabelSetup)
    (sheet : SheetConfig) :
  exactSheet scale sheet -> Forall (exactSetup scale) setups ->
  Forall2 sameSheet (Dxf64.arrangeLabelsOnSheets setups sheet)
                    (Dxf.arrangeLabelsOnSheets setups sheet) /\
  Pdf64.arrangeLabelsOnSheets setups sheet
  = map (fun sh => map toPdf (Dxf.labels sh)) (Dxf64.arrangeLabelsOnSheets setups sheet).
Proof.
  intros Hsheet Hsetups. split.
  - apply arrange_exact with scale; assumption.
  - apply arrange64_toPdf.
Qed.

Lemma machine_packers_are_exact_on_measures_witness :
  exactSheet 0 marginSheet /\
  Forall (exactSetup 0) threeSizes /\
  Forall2 sameSheet (Dxf64.arrangeLabelsOnSheets threeSizes marginSheet)
                    (Dxf.arrangeLabelsOnSheets threeSizes marginSheet).
Proof.
  split; [exact marginSheet_exact |]. split; [exact threeSizes_exact |].
  exact (proj1 (machine_packers_are_exact_on_measures 0 threeSizes marginSheet
                  marginSheet_exact threeSizes_exact)).
Defined.

(** ** The text fit in machine arithmetic *)

Lemma cancel_le (x y z : Q) : 0 < z -> x * z <= y * z -> x <= y.
Proof. intros Hz H. apply (Qmult_le_r x y z Hz). exact H. Qed.

Lemma mult_le_l_nonneg (x y z : Q) : 0 <= z -> x <= y -> z * x <= z * y.
Proof.
  intros Hz H. rewrite (Qmult_comm z x), (Qmult_comm z y).
  apply Qmult_le_compat_r; assumption.
Qed.

Lemma cancel_lt (x y z : Q) : 0 < z -> x * z < y * z -> x < y.
Proof. intros Hz H. apply (Qmult_lt_r x y z Hz). exact H. Qed.

(** The fit in machine numbers against the fit in exact numbers: [E], [A]
    and [V] are the exact estimate, available width and scaled height,
    [Em], [Am] and [N] what the machine has for them. *)
Lemma fit_within (h A E V Am Em N : Q) :
  1 # 2 <= h -> 0 < E -> V * E == h * A ->
  E * (1 - 4 * unitRoundoff) <= Em -> Em <= E * (1 + 4 * unitRoundoff) ->
  Qabs (Am - A) <= unitRoundoff * Qabs A ->
  (A <= 0 -> N <= 0) ->
  (0 < A -> 1 # 4 <= V ->
   V * (1 - 8 * unitRoundoff) <= N /\ N <= V * (1 + 8 * unitRoundoff)) ->
  (0 < A -> V < 1 # 4 -> N < 1 # 2) ->
  within fitTolerance
         (if Qle_bool Em Am then h else Math_max 0.5 N)
         (if Qle_bool E A then h else Math_max 0.5 V).
Proof.
  intros Hh HE HV HEm1 HEm2 HAm HN0 HN1 HN2.
  unfold within.
  change unitRoundoff with (1 # 9007199254740992) in *.
  change fitTolerance with (1 # 281474976710656) in *.
  set (u := 1 # 9007199254740992) in *.
  assert (HAm' : (0 < A -> A * (1 - u) <= Am /\ Am <= A * (1 + u)) /\
                 (A <= 0 -> Am <= 0)).
  { apply Qabs_Qle_condition in HAm. split; intros HA.
    - rewrite (Qabs_pos A) in HAm by lra. subst u. split; lra.
    - rewrite (Qabs_neg A) in HAm by lra. subst u. lra. }
  destruct HAm' as [HAp HAn].
  assert (HhE : 0 < h * E) by (apply Qmult_lt_0_compat; lra).
  apply Qabs_Qle_condition. subst u.
  destruct (Qle_bool_spec Em Am) as [Hfit | Hscale];
    destruct (Qle_bool_spec E A) as [Hfit' | Hscale'].
  - split; lra.
  - (* the machine keeps the height, the exact fit scales it *)
    assert (HA : 0 < A).
    { destruct (Qlt_le_dec 0 A) as [H | H]; [exact H |]. specialize (HAn H). lra. }
    destruct (HAp HA) as [_ HAhi].
    assert (HVlt : V < h).
    { apply (cancel_lt V h E HE). rewrite HV. apply Qmult_lt_l; lra. }
    assert (HVlo : h * (1 - 4 * (1 # 9007199254740992)) <= V * (1 + (1 # 9007199254740992))).
    { apply (cancel_le _ _ E HE).
      set (u := 1 # 9007199254740992) in *.
      setoid_replace (V * (1 + u) * E) with (h * (A * (1 + u)))
        by (transitivity (V * E * (1 + u)); [ring | rewrite HV; ring]).
      setoid_replace (h * (1 - 4 * u) * E) with (h * (E * (1 - 4 * u))) by ring.
      subst u.
      apply Qmult_le_l; lra. }
    pose proof (Math_max_l 0.5 V) as M1. pose proof (Math_max_r 0.5 V) as M2.
    destruct (Math_max_case 0.5 V) as [M | M]; rewrite M in *; split; lra.
  - (* the machine scales the height, the exact fit keeps it *)
    assert (HA : 0 < A) by lra.
    destruct (HAp HA) as [HAlo _].
    assert (HVge : h <= V).
    { apply (cancel_le h V E HE). rewrite HV. apply Qmult_le_l; lra. }
    assert (HVhi : V * (1 - (1 # 9007199254740992)) <= h * (1 + 4 * (1 # 9007199254740992))).
    { apply (cancel_le _ _ E HE).
      set (u := 1 # 9007199254740992) in *.
      setoid_replace (V * (1 - u) * E) with (h * (A * (1 - u)))
        by (transitivity (V * E * (1 - u)); [ring | rewrite HV; ring]).
      setoid_replace (h * (1 + 4 * u) * E) with (h * (E * (1 + 4 * u))) by ring.
      subst u.
      apply Qmult_le_l; lra. }
    destruct (HN1 HA) as [HNlo HNhi]; [lra |].
    pose proof (Math_max_l 0.5 N) as M1. pose proof (Math_max_r 0.5 N) as M2.
    destruct (Math_max_case 0.5 N) as [M | M]; rewrite M in *; split; lra.
  - (* both scale the height *)
    pose proof (Math_max_l 0.5 N) as M1. pose proof (Math_max_r 0.5 N) as M2.
    pose proof (Math_max_l 0.5 V) as M3. pose proof (Math_max_r 0.5 V) as M4.
    destruct (Qlt_le_dec 0 A) as [HA | HA].
    + destruct (Qlt_le_dec V (1 # 4)) as [HV4 | HV4].
      * specialize (HN2 HA HV4).
        destruct (Math_max_case 0.5 N) as [M | M], (Math_max_case 0.5 V) as [M' | M'];
          rewrite M, M' in *; split; lra.
      * destruct (HN1 HA HV4) as [HNlo HNhi].
        destruct (Math_max_case 0.5 N) as [M | M], (Math_max_case 0.5 V) as [M' | M'];
          rewrite M, M' in *; split; lra.
    + specialize (HN0 HA).
      assert (HV0 : V <= 0).
      { apply (cancel_le V 0 E HE). rewrite HV.
        setoid_replace (0 * E) with (h * 0) by ring. apply Qmult_le_l; lra. }
      destruct (Math_max_case 0.5 N) as [M | M], (Math_max_case 0.5 V) as [M' | M'];
        rewrite M, M' in *; split; lra.
Qed.

(** ** Rounding errors *)

Lemma round_about (q : Q) :
  Qabs (Binary64.round q - q) <= unitRoundoff * Qabs q + Binary64.pow2 (-1075).
Proof.
  pose proof (Qabs_nonneg q) as Hnn.
  pose proof (pow2_pos (-1075)) as Hp. pose proof (pow2_pos (-53)) as Hu.
  assert (Hprod : 0 <= Binary64.pow2 (-53) * Qabs q) by (apply Qmult_le_0_compat; lra).
  unfold unitRoundoff.
  destruct (Qeq_dec q 0) as [Hz | Hnz].
  { assert (Hd : Binary64.round q - q == 0) by (rewrite (round_zero q Hz), Hz; ring).
    rewrite Hd. simpl Qabs at 1. lra. }
  eapply Qle_trans; [apply round_near |].
  assert (Habs : Qabs (Qred q) == Qabs q) by (apply Qabs_wd, Qred_correct).
  assert (Hpos : 0 < Qabs (Qred q)).
  { rewrite Habs. destruct (Qlt_le_dec 0 (Qabs q)) as [H | H]; [exact H |].
    exfalso. apply Hnz. apply Qabs_Qle_condition in H. lra. }
  pose proof (binade_le _ Hpos) as Hb.
  unfold Binary64.lastPlace.
  set (b := Binary64.binade (Qabs (Qred q))) in *.
  destruct (Z.max_spec (b - 52) (-1074)) as [[_ ->] | [_ ->]].
  - change (-1074 - 1)%Z with (-1075)%Z. lra.
  - replace (b - 52 - 1)%Z with (b + -53)%Z by lia. rewrite pow2_plus.
    assert (Hle : Binary64.pow2 b * Binary64.pow2 (-53) <= Qabs q * Binary64.pow2 (-53)).
    { apply Qmult_le_compat_r; [rewrite <- Habs; exact Hb | lra]. }
    lra.
Qed.

(** A number of the normal range is rounded to within [2^-53] of itself. *)
Lemma round_normal (q : Q) :
  Binary64.pow2 (-1022) <= q ->
  q * (1 - unitRoundoff) <= Binary64.round q /\
  Binary64.round q <= q * (1 + unitRoundoff).
Proof.
  intros Hq. pose proof (pow2_pos (-1022)) as Hp.
  assert (H : Qabs (Binary64.round q - q) <= Binary64.pow2 (-53) * Qabs q).
  { apply round_relative. rewrite Qabs_pos by lra. exact Hq. }
  rewrite (Qabs_pos q) in H by lra. apply Qabs_Qle_condition in H.
  unfold unitRoundoff. split; lra.
Qed.

(** Twice a binary64 number is not rounded. *)
Lemma twice_exact (q : Q) : binary64 q -> Binary64.mul q 2 == q * 2.
Proof.
  intros (m & e & Hm & He & Hq). unfold Binary64.mul.
  rewrite (round_comp (q * 2) (inject_Z m * Binary64.pow2 (e + 1))).
  - rewrite round_exact by (assumption || lia).
    rewrite pow2_plus, Hq. change (Binary64.pow2 1) with 2. ring.
  - rewrite pow2_plus, Hq. change (Binary64.pow2 1) with 2. ring.
Qed.

(** A binary64 number in steps of the last place of all. *)
Lemma binary64_steps (q : Q) :
  binary64 q -> exists k : Z, q == inject_Z k * Binary64.pow2 (-1074).
Proof.
  intros (m & e & _ & He & Hq). exists (m * 2 ^ (e + 1074))%Z.
  rewrite Hq, inject_Z_mult, pow2_inject by lia.
  rewrite <- Qmult_assoc, <- pow2_plus.
  replace (e + 1074 + -1074)%Z with e by lia. reflexivity.
Qed.

(** The difference of two binary64 numbers is rounded to within [2^-53] of
    itself, also when it is small. *)
Lemma difference_close (a b : Q) :
  (exists k : Z, a == inject_Z k * Binary64.pow2 (-1074)) ->
  (exists k : Z, b == inject_Z k * Binary64.pow2 (-1074)) ->
  Qabs (Binary64.round (a - b) - (a - b)) <= unitRoundoff * Qabs (a - b).
Proof.
  intros (ka & Hka) (kb & Hkb). unfold unitRoundoff.
  destruct (Qlt_le_dec (Qabs (a - b)) (Binary64.pow2 (-1022))) as [Hsmall | Hnormal];
    [| apply round_relative; exact Hnormal].
  assert (Hd : a - b == inject_Z (ka - kb) * Binary64.pow2 (-1074)).
  { rewrite Hka, Hkb. unfold Z.sub. rewrite inject_Z_plus, inject_Z_opp. ring. }
  assert (Hk : (Z.abs (ka - kb) < 2 ^ 53)%Z).
  { rewrite Hd, Qabs_Qmult in Hsmall.
    rewrite (Qabs_pos (Binary64.pow2 (-1074))) in Hsmall by (apply Qlt_le_weak, pow2_pos).
    change (Binary64.pow2 (-1022)) with (Binary64.pow2 (52 + -1074)) in Hsmall.
    rewrite pow2_plus, <- (pow2_inject 52) in Hsmall by lia.
    apply Qmult_lt_r in Hsmall; [| apply pow2_pos].
    assert (Habs : Qabs (inject_Z (ka - kb)) == inject_Z (Z.abs (ka - kb))) by reflexivity.
    rewrite Habs, <- Zlt_Qlt in Hsmall. lia. }
  assert (Hexact : Binary64.round (a - b) == a - b).
  { rewrite (round_comp (a - b) _ Hd), Hd. apply round_exact; [exact Hk | lia]. }
  assert (Hz : Binary64.round (a - b) - (a - b) == 0) by (rewrite Hexact; ring).
  rewrite Hz. simpl Qabs at 1.
  apply Qmult_le_0_compat; [apply Qlt_le_weak, pow2_pos | apply Qabs_nonneg].
Qed.

Lemma twice_steps (q : Q) :
  binary64 q -> exists k : Z, q * 2 == inject_Z k * Binary64.pow2 (-1074).
Proof.
  intros H. destruct (binary64_steps q H) as (k & Hk). exists (2 * k)%Z.
  rewrite Hk, inject_Z_mult. change (inject_Z 2) with 2. ring.
Qed.

(** The available width: the machine has it to within [2^-53]. *)
Lemma available_close (maxWidth padding : Q) :
  binary64 maxWidth -> binary64 padding ->
  Qabs (Binary64.sub maxWidth (Binary64.mul padding 2) - (maxWidth - 2 * padding))
  <= unitRoundoff * Qabs (maxWidth - 2 * padding).
Proof.
  intros Hw Hp. unfold Binary64.sub.
  rewrite (round_comp (maxWidth - Binary64.mul padding 2) (maxWidth - padding * 2))
    by (rewrite (twice_exact padding Hp); reflexivity).
  assert (Heq : maxWidth - 2 * padding == maxWidth - padding * 2) by ring.
  rewrite Heq.
  apply difference_close; [apply binary64_steps; exact Hw | apply twice_steps; exact Hp].
Qed.

Lemma pow2_half : Binary64.pow2 (-1022) <= 1 # 8.
Proof. change (1 # 8) with (Binary64.pow2 (-3)). apply pow2_le. lia. Qed.

(** The scaled height: [N] is the machine's [h * (Am / Em)], [V] the exact
    [h * A / E]. *)
Lemma scaled_within (h A E V Am Em : Q) :
  1 # 2 <= h -> h <= Binary64.pow2 500 -> 0 < E -> V * E == h * A ->
  E * (1 - 4 * unitRoundoff) <= Em -> Em <= E * (1 + 4 * unitRoundoff) ->
  Qabs (Am - A) <= unitRoundoff * Qabs A ->
  let N := Binary64.mul h (Binary64.div Am Em) in
  (A <= 0 -> N <= 0) /\
  (0 < A -> 1 # 4 <= V ->
   V * (1 - 8 * unitRoundoff) <= N /\ N <= V * (1 + 8 * unitRoundoff)) /\
  (0 < A -> V < 1 # 4 -> N < 1 # 2).
Proof.
  intros Hh Hhi HE HV HEm1 HEm2 HAm N. subst N.
  unfold Binary64.mul, Binary64.div.
  pose proof pow2_half as Hnormal.
  change unitRoundoff with (1 # 9007199254740992) in *.
  assert (HEmpos : 0 < Em) by lra.
  set (r := Am / Em). set (s := Binary64.round r).
  assert (Hr : r * Em == Am) by (unfold r; field; lra).
  assert (HAm' : (0 < A -> A * (1 - (1 # 9007199254740992)) <= Am /\
                           Am <= A * (1 + (1 # 9007199254740992))) /\
                 (A <= 0 -> Am <= 0)).
  { apply Qabs_Qle_condition in HAm. split; intros HA.
    - rewrite (Qabs_pos A) in HAm by lra. split; lra.
    - rewrite (Qabs_neg A) in HAm by lra. lra. }
  destruct HAm' as [HAp HAn].
  split; [| split].
  - intros HA. specialize (HAn HA).
    assert (Hr0 : r <= 0).
    { unfold r. apply Qle_shift_div_r; [exact HEmpos | lra]. }
    apply round_nonpos.
    assert (Hs0 : s <= 0) by (apply round_nonpos; exact Hr0).
    setoid_replace 0 with (h * 0) by ring. apply Qmult_le_l; lra.
  - intros HA HV4. destruct (HAp HA) as [HAlo HAhi].
    assert (Hr0 : 0 <= r).
    { unfold r. apply Qle_shift_div_l; [exact HEmpos | lra]. }
    set (W := h * r).
    assert (HW1 : W * (1 - 4 * (1 # 9007199254740992))
                  <= V * (1 + (1 # 9007199254740992))).
    { apply (cancel_le _ _ E HE).
      apply Qle_trans with (h * Am).
      - setoid_replace (W * (1 - 4 * (1 # 9007199254740992)) * E)
          with (h * (r * (E * (1 - 4 * (1 # 9007199254740992))))) by (unfold W; ring).
        apply Qmult_le_l; [lra |]. rewrite <- Hr.
        apply mult_le_l_nonneg; [exact Hr0 | exact HEm1].
      - setoid_replace (V * (1 + (1 # 9007199254740992)) * E)
          with (h * (A * (1 + (1 # 9007199254740992))))
          by (transitivity (V * E * (1 + (1 # 9007199254740992))); [ring | rewrite HV; ring]).
        apply Qmult_le_l; lra. }
    assert (HW2 : V * (1 - (1 # 9007199254740992))
                  <= W * (1 + 4 * (1 # 9007199254740992))).
    { apply (cancel_le _ _ E HE).
      apply Qle_trans with (h * Am).
      - setoid_replace (V * (1 - (1 # 9007199254740992)) * E)
          with (h * (A * (1 - (1 # 9007199254740992))))
          by (transitivity (V * E * (1 - (1 # 9007199254740992))); [ring | rewrite HV; ring]).
        apply Qmult_le_l; lra.
      - setoid_replace (W * (1 + 4 * (1 # 9007199254740992)) * E)
          with (h * (r * (E * (1 + 4 * (1 # 9007199254740992))))) by (unfold W; ring).
        apply Qmult_le_l; [lra |]. rewrite <- Hr.
        apply mult_le_l_nonneg; [exact Hr0 | exact HEm2]. }
    assert (HW8 : 1 # 8 <= W) by lra.
    assert (Hrn : Binary64.pow2 (-1022) <= r).
    { apply Qle_trans with (Binary64.pow2 (-503)); [apply pow2_le; lia |].
      apply (cancel_le _ _ (Binary64.pow2 500) (pow2_pos 500)).
      rewrite <- pow2_plus. change (Binary64.pow2 (-503 + 500)) with (1 # 8).
      apply Qle_trans with W; [exact HW8 |].
      unfold W. rewrite (Qmult_comm h r).
      apply mult_le_l_nonneg; [exact Hr0 | exact Hhi]. }
    destruct (round_normal r Hrn) as [Hs1 Hs2]. fold s in Hs1, Hs2.
    change unitRoundoff with (1 # 9007199254740992) in *.
    set (hs := h * s).
    assert (Hhs1 : W * (1 - (1 # 9007199254740992)) <= hs).
    { unfold W, hs. setoid_replace (h * r * (1 - (1 # 9007199254740992)))
        with (h * (r * (1 - (1 # 9007199254740992)))) by ring.
      apply Qmult_le_l; lra. }
    assert (Hhs2 : hs <= W * (1 + (1 # 9007199254740992))).
    { unfold W, hs. setoid_replace (h * r * (1 + (1 # 9007199254740992)))
        with (h * (r * (1 + (1 # 9007199254740992)))) by ring.
      apply Qmult_le_l; lra. }
    assert (Hhsn : Binary64.pow2 (-1022) <= hs) by lra.
    destruct (round_normal hs Hhsn) as [HN1 HN2].
    change unitRoundoff with (1 # 9007199254740992) in *.
    split; lra.
  - intros HA HV4. destruct (HAp HA) as [HAlo HAhi].
    assert (Hr0 : 0 <= r).
    { unfold r. apply Qle_shift_div_l; [exact HEmpos | lra]. }
    set (W := h * r).
    assert (HW1 : W * (1 - 4 * (1 # 9007199254740992))
                  <= V * (1 + (1 # 9007199254740992))).
    { apply (cancel_le _ _ E HE).
      apply Qle_trans with (h * Am).
      - setoid_replace (W * (1 - 4 * (1 # 9007199254740992)) * E)
          with (h * (r * (E * (1 - 4 * (1 # 9007199254740992))))) by (unfold W; ring).
        apply Qmult_le_l; [lra |]. rewrite <- Hr.
        apply mult_le_l_nonneg; [exact Hr0 | exact HEm1].
      - setoid_replace (V * (1 + (1 # 9007199254740992)) * E)
          with (h * (A * (1 + (1 # 9007199254740992))))
          by (transitivity (V * E * (1 + (1 # 9007199254740992))); [ring | rewrite HV; ring]).
        apply Qmult_le_l; lra. }
    pose proof (round_about r) as Hs. fold s in Hs.
    rewrite (Qabs_pos r) in Hs by exact Hr0. apply Qabs_Qle_condition in Hs.
    change unitRoundoff with (1 # 9007199254740992) in *.
    assert (Hp : Binary64.pow2 (-1075) <= Binary64.pow2 (-575)) by (apply pow2_le; lia).
    assert (Hp' : Binary64.pow2 (-575) <= 1 # 1024).
    { change (1 # 1024) with (Binary64.pow2 (-10)). apply pow2_le. lia. }
    assert (Hs0 : 0 <= s) by (apply round_nonneg; exact Hr0).
    set (hs := h * s).
    assert (Hhs0 : 0 <= hs) by (apply Qmult_le_0_compat; lra).
    assert (Hhs : hs <= W * (1 + (1 # 9007199254740992)) + Binary64.pow2 (-575)).
    { apply Qle_trans with (h * (r * (1 + (1 # 9007199254740992)) + Binary64.pow2 (-1075))).
      - unfold hs. apply Qmult_le_l; lra.
      - assert (Hhp : h * Binary64.pow2 (-1075) <= Binary64.pow2 (-575)).
        { change (Binary64.pow2 (-575)) with (Binary64.pow2 (500 + -1075)).
          rewrite pow2_plus. apply Qmult_le_compat_r; [exact Hhi |].
          apply Qlt_le_weak, pow2_pos. }
        unfold W.
        setoid_replace (h * (r * (1 + (1 # 9007199254740992)) + Binary64.pow2 (-1075)))
          with (h * r * (1 + (1 # 9007199254740992)) + h * Binary64.pow2 (-1075)) by ring.
        lra. }
    pose proof (round_about hs) as HN.
    rewrite (Qabs_pos hs) in HN by exact Hhs0. apply Qabs_Qle_condition in HN.
    change unitRoundoff with (1 # 9007199254740992) in *.
    lra.
Qed.

(** The estimated width: the machine has it to within four times [2^-53]. *)
Lemma estimate_close (X ratio cm : Q) :
  1 # 2 <= X -> 1 # 2 <= ratio -> ratio <= 1 ->
  ratio * (1 - unitRoundoff) <= cm -> cm <= ratio * (1 + unitRoundoff) ->
  X * ratio * (1 - 4 * unitRoundoff) <= Binary64.mul (Binary64.round X) cm /\
  Binary64.mul (Binary64.round X) cm <= X * ratio * (1 + 4 * unitRoundoff).
Proof.
  intros HX Hr1 Hr2 Hc1 Hc2. unfold Binary64.mul.
  pose proof pow2_half as Hnormal.
  assert (HXn : Binary64.pow2 (-1022) <= X) by lra.
  destruct (round_normal X HXn) as [Hl1 Hl2].
  change unitRoundoff with (1 # 9007199254740992) in *.
  set (lh := Binary64.round X) in *.
  set (P := X * ratio).
  assert (HP : 1 # 4 <= P).
  { unfold P. setoid_replace (1 # 4) with ((1 # 2) * (1 # 2)) by reflexivity.
    apply Qmult_le_compat_nonneg; split; lra. }
  assert (Hq1 : P * (1 - (1 # 9007199254740992)) * (1 - (1 # 9007199254740992)) <= lh * cm).
  { setoid_replace (P * (1 - (1 # 9007199254740992)) * (1 - (1 # 9007199254740992)))
      with (X * (1 - (1 # 9007199254740992)) * (ratio * (1 - (1 # 9007199254740992))))
      by (unfold P; ring).
    apply Qmult_le_compat_nonneg; split; lra. }
  assert (Hq2 : lh * cm <= P * (1 + (1 # 9007199254740992)) * (1 + (1 # 9007199254740992))).
  { setoid_replace (P * (1 + (1 # 9007199254740992)) * (1 + (1 # 9007199254740992)))
      with (X * (1 + (1 # 9007199254740992)) * (ratio * (1 + (1 # 9007199254740992))))
      by (unfold P; ring).
    apply Qmult_le_compat_nonneg; split; lra. }
  set (q := lh * cm) in *.
  assert (Hqn : Binary64.pow2 (-1022) <= q) by lra.
  destruct (round_normal q Hqn) as [He1 He2].
  change unitRoundoff with (1 # 9007199254740992) in *.
  split; lra.
Qed.

Lemma ratio_value :
  0.55 * (1 - unitRoundoff) <= DxfExport64.avgCharWidthRatio /\
  DxfExport64.avgCharWidthRatio <= 0.55 * (1 + unitRoundoff).
Proof. split; vm_compute; discriminate. Qed.

Lemma length_at_least_one (content : string) :
  content <> EmptyString -> 1 <= inject_Z (Z.of_nat (String.length content)).
Proof.
  intros H. destruct content as [| c r]; [congruence |].
  change 1 with (inject_Z 1). rewrite <- Zle_Qle. simpl String.length. lia.
Qed.

Lemma height_times_length (L h : Q) : 1 <= L -> 1 # 2 <= h -> 1 # 2 <= L * h.
Proof.
  intros HL Hh. setoid_replace (1 # 2) with (1 * (1 # 2)) by reflexivity.
  apply Qmult_le_compat_nonneg; split; lra.
Qed.

(** The fit of the drawing export in machine numbers is the fit in exact
    numbers up to the tolerance. *)
Lemma dxf_fit_within (content : string) (maxWidth desiredHeight padding : Q) :
  fitInput content maxWidth desiredHeight padding ->
  within fitTolerance
    (DxfExport64.calculateFitTextHeight content maxWidth desiredHeight (Some padding))
    (specFitHeight 0.55 content maxWidth desiredHeight padding).
Proof.
  intros (Hne & Hlen & Hw & _ & Hp & Hh & Hhi & _ & _).
  unfold DxfExport64.calculateFitTextHeight, DxfExport64.estimateTextWidth, specFitHeight.
  set (L := inject_Z (Z.of_nat (String.length content))).
  assert (HL : 1 <= L) by (apply length_at_least_one; exact Hne).
  assert (HX : 1 # 2 <= L * desiredHeight) by (apply height_times_length; assumption).
  destruct ratio_value as [Hc1 Hc2].
  destruct (estimate_close (L * desiredHeight) 0.55 DxfExport64.avgCharWidthRatio
              HX ltac:(lra) ltac:(lra) Hc1 Hc2) as [HE1 HE2].
  change (Binary64.round (L * desiredHeight)) with (Binary64.mul L desiredHeight)
    in HE1, HE2.
  set (Em := Binary64.mul (Binary64.mul L desiredHeight) DxfExport64.avgCharWidthRatio) in *.
  set (Am := Binary64.sub maxWidth (Binary64.mul padding 2)).
  pose proof (available_close maxWidth padding Hw Hp) as HA. fold Am in HA.
  assert (HE : 0 < L * desiredHeight * 0.55) by lra.
  assert (HV : desiredHeight * (maxWidth - 2 * padding) / (L * desiredHeight * 0.55)
               * (L * desiredHeight * 0.55)
               == desiredHeight * (maxWidth - 2 * padding)).
  { field. lra. }
  destruct (scaled_within desiredHeight (maxWidth - 2 * padding) (L * desiredHeight * 0.55)
              _ Am Em Hh Hhi HE HV HE1 HE2 HA) as (HN0 & HN1 & HN2).
  apply fit_within; assumption.
Qed.

(** Half the length of a text is not rounded. *)
Lemma half_length_exact (n : nat) :
  (Z.of_nat n < 2 ^ 53)%Z ->
  Binary64.mul (inject_Z (Z.of_nat n)) 0.5 == inject_Z (Z.of_nat n) * 0.5.
Proof.
  intros Hn. unfold Binary64.mul.
  assert (Hhalf : 0.5 == Binary64.pow2 (-1)) by reflexivity.
  assert (Heq : inject_Z (Z.of_nat n) * 0.5 == inject_Z (Z.of_nat n) * Binary64.pow2 (-1))
    by (rewrite Hhalf; reflexivity).
  rewrite (round_comp _ _ Heq), Heq. apply round_exact; lia.
Qed.

(** The scaled height of the document export: [N] is the machine's
    [Am / D], [V] the exact [A / D]. *)
Lemma quotient_within (A V D Am Dm : Q) :
  1 # 2 <= D -> Dm == D -> V * D == A ->
  Qabs (Am - A) <= unitRoundoff * Qabs A ->
  let N := Binary64.div Am Dm in
  (A <= 0 -> N <= 0) /\
  (0 < A -> 1 # 4 <= V ->
   V * (1 - 8 * unitRoundoff) <= N /\ N <= V * (1 + 8 * unitRoundoff)) /\
  (0 < A -> V < 1 # 4 -> N < 1 # 2).
Proof.
  intros HD HDm HV HAm N. subst N. unfold Binary64.div.
  rewrite (round_comp (Am / Dm) (Am / D)) by (rewrite HDm; reflexivity).
  pose proof pow2_half as Hnormal.
  change unitRoundoff with (1 # 9007199254740992) in *.
  set (r := Am / D).
  assert (Hr : r * D == Am) by (unfold r; field; lra).
  assert (HAm' : (0 < A -> A * (1 - (1 # 9007199254740992)) <= Am /\
                           Am <= A * (1 + (1 # 9007199254740992))) /\
                 (A <= 0 -> Am <= 0)).
  { apply Qabs_Qle_condition in HAm. split; intros HA.
    - rewrite (Qabs_pos A) in HAm by lra. split; lra.
    - rewrite (Qabs_neg A) in HAm by lra. lra. }
  destruct HAm' as [HAp HAn].
  assert (Hbounds : 0 < A ->
            V * (1 - (1 # 9007199254740992)) <= r /\
            r <= V * (1 + (1 # 9007199254740992))).
  { intros HA. destruct (HAp HA) as [HAlo HAhi]. split.
    - apply (cancel_le _ _ D); [lra |]. rewrite Hr.
      setoid_replace (V * (1 - (1 # 9007199254740992)) * D)
        with (V * D * (1 - (1 # 9007199254740992))) by ring.
      rewrite HV. exact HAlo.
    - apply (cancel_le _ _ D); [lra |]. rewrite Hr.
      setoid_replace (V * (1 + (1 # 9007199254740992)) * D)
        with (V * D * (1 + (1 # 9007199254740992))) by ring.
      rewrite HV. exact HAhi. }
  split; [| split].
  - intros HA. apply round_nonpos. unfold r.
    apply Qle_shift_div_r; [lra |]. specialize (HAn HA). lra.
  - intros HA HV4. destruct (Hbounds HA) as [Hr1 Hr2].
    assert (Hrn : Binary64.pow2 (-1022) <= r) by lra.
    destruct (round_normal r Hrn) as [HN1 HN2].
    change unitRoundoff with (1 # 9007199254740992) in *.
    split; lra.
  - intros HA HV4. destruct (Hbounds HA) as [Hr1 Hr2].
    assert (HV0 : 0 < V).
    { apply (cancel_lt 0 V D); [lra |]. rewrite HV. lra. }
    pose proof (round_about r) as HN.
    rewrite (Qabs_pos r) in HN by lra. apply Qabs_Qle_condition in HN.
    change unitRoundoff with (1 # 9007199254740992) in *.
    assert (Hp : Binary64.pow2 (-1075) <= 1 # 1024).
    { change (1 # 1024) with (Binary64.pow2 (-10)). apply pow2_le. lia. }
    lra.
Qed.

(** The fit that the document export writes out, in machine numbers, is
    the fit in exact numbers with the ratio 0.5, up to the tolerance. *)
Lemma pdf_fit_within (content : string) (width textHeight : Q) :
  fitInput content width textHeight 2 ->
  let len := inject_Z (Z.of_nat (String.length content)) in
  let estimatedWidth := Binary64.mul (Binary64.mul len textHeight) 0.5 in
  within fitTolerance
    (if Qlt_bool (Binary64.sub width (Binary64.mul 2 2)) estimatedWidth then
       Math_max 0.5 (Binary64.div (Binary64.sub width (Binary64.mul 2 2))
                                  (Binary64.mul len 0.5))
     else textHeight)
    (specFitHeight 0.5 content width textHeight 2).
Proof.
  intros (Hne & Hlen & Hw & _ & Hp & Hh & Hhi & _ & _) L Em. subst Em.
  unfold specFitHeight. fold L.
  assert (HL : 1 <= L) by (apply length_at_least_one; exact Hne).
  assert (HX : 1 # 2 <= L * textHeight) by (apply height_times_length; assumption).
  assert (Hu1 : 0.5 * (1 - unitRoundoff) <= 0.5) by (vm_compute; discriminate).
  assert (Hu2 : 0.5 <= 0.5 * (1 + unitRoundoff)) by (vm_compute; discriminate).
  destruct (estimate_close (L * textHeight) 0.5 0.5 HX ltac:(lra) ltac:(lra) Hu1 Hu2)
    as [HE1 HE2].
  change (Binary64.round (L * textHeight)) with (Binary64.mul L textHeight) in HE1, HE2.
  set (Em := Binary64.mul (Binary64.mul L textHeight) 0.5) in *.
  set (Am := Binary64.sub width (Binary64.mul 2 2)).
  pose proof (available_close width 2 Hw Hp) as HA. fold Am in HA.
  assert (HE : 0 < L * textHeight * 0.5) by lra.
  assert (HV : textHeight * (width - 2 * 2) / (L * textHeight * 0.5)
               * (L * textHeight * 0.5)
               == textHeight * (width - 2 * 2)).
  { field. lra. }
  assert (HD : 1 # 2 <= L * 0.5) by lra.
  assert (HV' : textHeight * (width - 2 * 2) / (L * textHeight * 0.5) * (L * 0.5)
                == width - 2 * 2).
  { field. lra. }
  destruct (quotient_within (width - 2 * 2) _ (L * 0.5) Am (Binary64.mul L 0.5)
              HD (half_length_exact _ Hlen) HV' HA) as (HN0 & HN1 & HN2).
  unfold Qlt_bool.
  pose proof (fit_within textHeight (width - 2 * 2) (L * textHeight * 0.5) _ Am Em
                (Binary64.div Am (Binary64.mul L 0.5))
                Hh HE HV HE1 HE2 HA HN0 HN1 HN2) as Hfit.
  destruct (Qle_bool Em Am); exact Hfit.
Qed.

Lemma pdf_lineData_within (setup : LabelSetup) :
  Forall (fun line => fitInput (text line) (labelLengthMm setup)
                               (orElse (textSizeMm line) 2) 2)
         (filter PdfExport.isValidLine (lines setup)) ->
  Forall2 (fun fitted line =>
             fst fitted = text line /\
             within fitTolerance (snd fitted)
                    (specFitHeight 0.5 (text line) (labelLengthMm setup)
                                   (orElse (textSizeMm line) 2) 2))
          (PdfExport64.lineData setup)
          (filter PdfExport.isValidLine (lines setup)).
Proof.
  unfold PdfExport64.lineData.
  induction (filter PdfExport.isValidLine (lines setup)) as [| line ls IH];
    intros Hall; [constructor |].
  inversion Hall as [| ? ? Hline Hrest]; subst.
  simpl. constructor; [| apply IH; exact Hrest].
  split; [reflexivity |]. cbn [snd]. apply pdf_fit_within. exact Hline.
Qed.

(** C4, as the code has it.  For a text that is not empty, a desired height
    of at least 0.5 and binary64 numbers of magnitude up to [2^500],
    [calculateFitTextHeight] returns, up to the relative tolerance [2^-48]
    of its rounded products and quotient, the desired height when
    [len * desiredHeight * 0.55 <= maxWidth - 2 * padding], and otherwise
    the larger of 0.5 and
    [desiredHeight * (maxWidth - 2 * padding) / (len * desiredHeight * 0.55)];
    a padding left out is 2.  The drawing export fits every valid line with
    it, at padding 2.  The document export does not call it: its loop
    returns, up to the same tolerance, the same rule with the ratio 0.5 in
    place of 0.55. *)
Theorem text_fit_per_export_path
    (content : string) (maxWidth desiredHeight padding : Q) (setup : LabelSetup) :
  fitInput content maxWidth desiredHeight padding ->
  Forall (fun line => fitInput (text line) (labelLengthMm setup)
                               (orElse (textSizeMm line) 2) 2)
         (filter PdfExport.isValidLine (lines setup)) ->
  within fitTolerance
    (DxfExport64.calculateFitTextHeight content maxWidth desiredHeight (Some padding))
    (specFitHeight 0.55 content maxWidth desiredHeight padding) /\
  DxfExport64.calculateFitTextHeight content maxWidth desiredHeight None
    = DxfExport64.calculateFitTextHeight content maxWidth desiredHeight (Some 2) /\
  DxfExport64.lineData setup
    = map (fun line =>
             (text line,
              DxfExport64.calculateFitTextHeight (text line)
                (labelLengthMm setup) (orElse (textSizeMm line) 2) (Some 2)))
          (filter DxfExport.isValidLine (lines setup)) /\
  Forall2 (fun fitted line =>
             fst fitted = text line /\
             within fitTolerance (snd fitted)
                    (specFitHeight 0.5 (text line) (labelLengthMm setup)
                                   (orElse (textSizeMm line) 2) 2))
          (PdfExport64.lineData setup)
          (filter PdfExport.isValidLine (lines setup)).
Proof.
  intros Hinput Hlines.
  split; [apply dxf_fit_within; exact Hinput |].
  split; [reflexivity |].
  split; [reflexivity |].
  apply pdf_lineData_within. exact Hlines.
Qed.

Lemma whole_binary64 (m : Z) : (Z.abs m < 2 ^ 53)%Z -> binary64 (inject_Z m).
Proof.
  intros Hm. exists m, 0%Z. split; [exact Hm |]. split; [lia |].
  change (Binary64.pow2 0) with 1. ring.
Defined.

Lemma tenLetters_fitInput : fitInput "ABCDEFGHIJ" 30 5 2.
Proof.
  split; [discriminate |].
  split; [vm_compute; reflexivity |].
  split; [apply (whole_binary64 30); vm_compute; reflexivity |].
  split; [apply (whole_binary64 5); vm_compute; reflexivity |].
  split; [apply (whole_binary64 2); vm_compute; reflexivity |].
  repeat split; vm_compute; discriminate.
Defined.

Lemma tenLetters_lines :
  Forall (fun line => fitInput (text line) (labelLengthMm tenLetters)
                               (orElse (textSizeMm line) 2) 2)
         (filter PdfExport.isValidLine (lines tenLetters)).
Proof.
  apply Forall_cons; [| apply Forall_nil]. exact tenLetters_fitInput.
Defined.

(** Ten letters of size 5 on a label 30 long. *)
Lemma text_fit_per_export_path_witness :
  fitInput "ABCDEFGHIJ" 30 5 2 /\
  Forall (fun line => fitInput (text line) (labelLengthMm tenLetters)
                               (orElse (textSizeMm line) 2) 2)
         (filter PdfExport.isValidLine (lines tenLetters)) /\
  within fitTolerance
    (DxfExport64.calculateFitTextHeight "ABCDEFGHIJ" 30 5 (Some 2))
    (specFitHeight 0.55 "ABCDEFGHIJ" 30 5 2).
Proof.
  split; [exact tenLetters_fitInput |]. split; [exact tenLetters_lines |].
  exact (proj1 (text_fit_per_export_path "ABCDEFGHIJ" 30 5 2 tenLetters
                  tenLetters_fitInput tenLetters_lines)).
Defined.

(** C4 as stated fails: for ten letters of size 5 on a label 30 long the
    drawing export estimates 27.5 > 26 and shrinks the line to
    4.7272727272727266, the binary64 number next to 52/11, while the
    document export estimates 25 <= 26 and keeps size 5, which is not the
    fit with the ratio 0.55. *)
Lemma document_export_fits_with_other_ratio :
  DxfExport64.lineData tenLetters
  = [("ABCDEFGHIJ"%string, 665304490407005 # 140737488355328)] /\
  PdfExport64.lineData tenLetters = [("ABCDEFGHIJ"%string, 5)] /\
  specFitHeight 0.55 "ABCDEFGHIJ" 30 5 2 == 52 # 11 /\
  ~ Forall2 (fun fitted line =>
               fst fitted = text line /\
               within fitTolerance (snd fitted)
                      (specFitHeight 0.55 (text line) (labelLengthMm tenLetters)
                                     (orElse (textSizeMm line) 2) 2))
            (PdfExport64.lineData tenLetters)
            (filter PdfExport.isValidLine (lines tenLetters)).
Proof.
  assert (Hpdf : PdfExport64.lineData tenLetters = [("ABCDEFGHIJ"%string, 5)])
    by (vm_compute; reflexivity).
  split; [vm_compute; reflexivity |].
  split; [exact Hpdf |].
  split; [vm_compute; reflexivity |].
  rewrite Hpdf. intros Hsame.
  inversion Hsame as [| fitted line ? ? [_ Hclose] _]; subst.
  unfold within in Hclose. vm_compute in Hclose. apply Hclose. reflexivity.
Qed.

(** The machine decides the fit on rounded numbers.  Ten letters of height
    10 have an estimated width of 55, the available width of a label 59
    long, so the fit in exact numbers keeps the height 10.  The machine
    estimates 55.00000000000001 and returns 9.999999999999998. *)
Lemma rounded_estimate_misses_the_width :
  specFitHeight 0.55 "ABCDEFGHIJ" 59 10 2 == 10 /\
  DxfExport64.estimateTextWidth "ABCDEFGHIJ" 10
  = 7740561859543041 # 140737488355328 /\
  DxfExport64.calculateFitTextHeight "ABCDEFGHIJ" 59 10 (Some 2)
  = 5629499534213119 # 562949953421312 /\
  ~ DxfExport64.calculateFitTextHeight "ABCDEFGHIJ" 59 10 (Some 2) == 10.
Proof.
  split; [vm_compute; reflexivity |].
  split; [vm_compute; reflexivity |].
  split; [vm_compute; reflexivity |].
  vm_compute. discriminate.
Qed.
